(** * nomic.atlas: the bulk uploaders [map_text] and [map_embeddings]

    A shallow embedding of [src/nomic/atlas.py].  The two entry points talk
    to a remote dataset through the [AtlasDataset] class, write to a logger
    and raise exceptions; they also allocate and update Python dicts and
    lists.  All of this is made explicit:

    - the Python heap is a store of dict objects and a store of list
      objects, addressed by references, so that aliasing and in-place
      updates are visible;
    - every method call on the [AtlasDataset] object and every log line is
      appended to a trace;
    - the behaviour of the [AtlasDataset] class (defined in
      [nomic/dataset.py], outside this development) is a parameter, the
      [world]: an arbitrary function of the calls made so far;
    - exceptions are a result constructor, with [try_except] for the
      [try: ... except BaseException as e: ...] blocks;
    - the input of [map_text] is the iterator the function builds from
      [data]: the references it yields, in order, and the exception it may
      end with.  An iterator that never ends is not modelled. *)

From Stdlib Require Import ZArith.
From Stdlib Require QArith.
From stdpp Require Import base option list strings gmap pretty.

Local Open Scope Z_scope.
Local Open Scope string_scope.
Local Open Scope nat_scope.
Local Open Scope list_scope.

(** ** Data model *)

(** Python floats are only passed through to the remote calls. *)
Abbreviation float := QArith_base.Q.

(** The scalar values a record can hold. *)
Inductive value :=
| VNone
| VBool (b : bool)
| VInt (z : Z)
| VFloat (q : float)
| VStr (s : string).

(** A record is a Python dict with string keys. *)
Abbreviation record := (gmap string value).

(** References into the dict store and into the list store. *)
Abbreviation dref := nat.
Abbreviation lref := nat.

(** [np.ndarray]: only its shape is ever inspected. *)
Record ndarray := NdArray { nd_shape : list nat; nd_buffer : list float }.

(** [embeddings.size] *)
Definition nd_size (a : ndarray) : nat := foldr Nat.mul 1 (nd_shape a).

(** Exceptions.  [KeyboardInterrupt] and [SystemExit] derive from
    [BaseException] but not from [Exception]. *)
Inductive exn_class :=
| KeyboardInterrupt
| SystemExit
| ExceptionClass (cls : string).

Record exn := Exn { exn_cls : exn_class; exn_msg : string }.

Definition isinstance_Exception (e : exn) : bool :=
  match exn_cls e with ExceptionClass _ => true | _ => false end.

Definition isinstance_BaseException (e : exn) : bool := true.

(** The [AtlasDataset] object as far as [atlas.py] reads it: the two
    attributes used in the log lines. *)
Record AtlasDataset := Dataset { identifier : string; name : string }.

(** Keyword arguments of the [AtlasDataset] constructor.  [map_embeddings]
    passes [identifier=], [map_text] passes [name=]. *)
Record dataset_args := DatasetArgs {
  da_identifier : option string;
  da_name : option string;
  da_description : string;
  da_unique_id_field : string;
  da_modality : string;
  da_is_public : bool;
  da_reset_project_if_exists : bool;
  da_add_datums_if_exists : bool
}.

(** Keyword arguments of [create_index]; [None] is a keyword the call site
    does not pass. *)
Record index_args := IndexArgs {
  ia_name : string;
  ia_indexed_field : option string;
  ia_colorable_fields : list string;
  ia_build_topic_model : bool;
  ia_projection_n_neighbors : Z;
  ia_projection_epochs : Z;
  ia_projection_spread : float;
  ia_topic_label_field : option (option string);
  ia_duplicate_detection : option bool;
  ia_duplicate_threshold : option float
}.

(** The calls [atlas.py] makes on [AtlasDataset], with their arguments as
    they are at the time of the call. *)
Inductive call :=
| AtlasDataset_init (a : dataset_args)
| total_datums
| validate_map_data_inputs (colorable_fields : list string) (id_field : string)
    (data_sample : record)
| add_text (batch : list record)
| add_embeddings (embeddings : ndarray) (data : list record)
| delete
| create_index (a : index_args)
| rebuild_maps
| latest_project_state.

Inductive level := INFO | WARNING.

(** What a call hands back: nothing, the integer [total_datums], a dataset
    object, or the projection [create_index] returns (through its [str]). *)
Inductive retval :=
| RNone
| RInt (z : Z)
| RDataset (p : AtlasDataset)
| RProjection (s : string).

Inductive result (A : Type) :=
| Ok (a : A)
| Raise (e : exn).
Arguments Ok {A} a.
Arguments Raise {A} e.

Inductive event :=
| EvCall (c : call) (r : result retval)
| EvLog (lvl : level) (msg : string).

(** The environment.  [w_raises h] tells whether the last call of the
    history [h] raises; the other fields give what a call that returns
    hands back. *)
Record world := World {
  get_random_name : string;
  w_raises : list call -> option exn;
  w_dataset : list call -> AtlasDataset;
  w_total_datums : list call -> Z;
  w_projection_str : list call -> string
}.

Record state := State {
  st_dicts : list record;
  st_lists : list (list dref);
  st_trace : list event
}.

Definition calls_of (tr : list event) : list call :=
  omap (fun ev => match ev with EvCall c _ => Some c | EvLog _ _ => None end) tr.

(** ** The monad: state and exceptions *)

Definition M (A : Type) : Type := state -> result A * state.

Definition ret {A} (a : A) : M A := fun st => (Ok a, st).

Definition bind {A B} (m : M A) (k : A -> M B) : M B :=
  fun st =>
    match m st with
    | (Ok a, st') => k a st'
    | (Raise e, st') => (Raise e, st')
    end.

Definition raise {A} (e : exn) : M A := fun st => (Raise e, st).

(** [try: body except <catches> as e: handler e] *)
Definition try_except {A} (body : M A) (catches : exn -> bool) (handler : exn -> M A) : M A :=
  fun st =>
    match body st with
    | (Ok a, st') => (Ok a, st')
    | (Raise e, st') => if catches e then handler e st' else (Raise e, st')
    end.

Notation "x <- m ;;; k" := (bind m (fun x => k))
  (at level 100, m at next level, right associativity).
Notation "m ;;; k" := (bind m (fun _ => k))
  (at level 100, right associativity).

Definition when (b : bool) (m : M unit) : M unit := if b then m else ret tt.

(** ** Primitive operations *)

Definition log (lvl : level) (msg : string) : M unit :=
  fun st => (Ok tt, State (st_dicts st) (st_lists st) (st_trace st ++ [EvLog lvl msg])).

(** A method call on the dataset object: recorded, then answered by the
    world from the calls made so far. *)
Definition answer (w : world) (h : list call) (c : call) : retval :=
  match c with
  | AtlasDataset_init _ | latest_project_state => RDataset (w_dataset w h)
  | total_datums => RInt (w_total_datums w h)
  | create_index _ => RProjection (w_projection_str w h)
  | _ => RNone
  end.

Definition invoke (w : world) (c : call) : M (list call) :=
  fun st =>
    let h := calls_of (st_trace st) ++ [c] in
    match w_raises w h with
    | Some e => (Raise e, State (st_dicts st) (st_lists st) (st_trace st ++ [EvCall c (Raise e)]))
    | None => (Ok h, State (st_dicts st) (st_lists st)
                       (st_trace st ++ [EvCall c (Ok (answer w h c))]))
    end.

(** A reference that points to no object cannot arise in Python; the model
    raises on it. *)
Definition dangling : exn := Exn (ExceptionClass "ReferenceError") "dangling reference".

Definition dict_get (d : dref) : M record :=
  fun st => match st_dicts st !! d with
            | Some r => (Ok r, st)
            | None => (Raise dangling, st)
            end.

Definition dict_new (r : record) : M dref :=
  fun st => (Ok (length (st_dicts st)),
             State (st_dicts st ++ [r]) (st_lists st) (st_trace st)).

(** [d.copy()] *)
Definition dict_copy (d : dref) : M dref :=
  r <- dict_get d ;;; dict_new r.

(** [d[k] = v] *)
Definition dict_setitem (d : dref) (k : string) (v : value) : M unit :=
  fun st => match st_dicts st !! d with
            | Some r => (Ok tt, State (<[d := <[k := v]> r]> (st_dicts st)) (st_lists st) (st_trace st))
            | None => (Raise dangling, st)
            end.

(** [k not in d] *)
Definition dict_not_in (k : string) (d : dref) : M bool :=
  r <- dict_get d ;;; ret (bool_decide (r !! k = None)).

Definition list_get (l : lref) : M (list dref) :=
  fun st => match st_lists st !! l with
            | Some xs => (Ok xs, st)
            | None => (Raise dangling, st)
            end.

Definition list_new (xs : list dref) : M lref :=
  fun st => (Ok (length (st_lists st)),
             State (st_dicts st) (st_lists st ++ [xs]) (st_trace st)).

Definition IndexError : exn := Exn (ExceptionClass "IndexError") "list index out of range".

(** [l[i]] *)
Definition list_getitem (l : lref) (i : nat) : M dref :=
  xs <- list_get l ;;;
  match xs !! i with
  | Some d => ret d
  | None => raise IndexError
  end.

(** [l[i] = d] *)
Definition list_setitem (l : lref) (i : nat) (d : dref) : M unit :=
  fun st => match st_lists st !! l with
            | Some xs =>
                if bool_decide (i < length xs)
                then (Ok tt, State (st_dicts st) (<[l := <[i := d]> xs]> (st_lists st)) (st_trace st))
                else (Raise IndexError, st)
            | None => (Raise dangling, st)
            end.

(** The records a list of references points to, as the callee sees them. *)
Fixpoint snapshot (ds : list dref) : M (list record) :=
  match ds with
  | [] => ret []
  | d :: ds' => r <- dict_get d ;;; rs <- snapshot ds' ;;; ret (r :: rs)
  end.

(** An iterator over records: the references it yields, then either
    [StopIteration] or an exception raised by the iterator itself. *)
Record iterator := Iterator { it_items : list dref; it_error : option exn }.

(** Truthiness of an optional string, [if name:] *)
Definition truthy (s : option string) : bool :=
  match s with
  | Some s => negb (bool_decide (s = ""))
  | None => false
  end.

Definition is_not_None {A} (o : option A) : bool :=
  match o with Some _ => true | None => false end.

(** [next(data_iterator, None)] *)
Definition next_or_None (it : iterator) : M (option (dref * iterator)) :=
  match it_items it with
  | d :: rest => ret (Some (d, Iterator rest (it_error it)))
  | [] => match it_error it with
          | Some e => raise e
          | None => ret None
          end
  end.

(** [len(embeddings)]: the first dimension; a 0-dimensional array has none. *)
Definition nd_len (a : ndarray) : M nat :=
  match nd_shape a with
  | n :: _ => ret n
  | [] => raise (Exn (ExceptionClass "TypeError") "len() of unsized object")
  end.

(** [for x in xs: f x] *)
Fixpoint for_each {A} (f : A -> M unit) (xs : list A) : M unit :=
  match xs with
  | [] => ret tt
  | x :: xs' => f x ;;; for_each f xs'
  end.

(** [[f x for x in xs]] *)
Fixpoint comprehension {A B} (f : A -> M B) (xs : list A) : M (list B) :=
  match xs with
  | [] => ret []
  | x :: xs' => y <- f x ;;; ys <- comprehension f xs' ;;; ret (y :: ys)
  end.

(** Arguments of [map_text] other than [data]. *)
Record text_args := TextArgs {
  t_indexed_field : string;
  t_id_field : option string;
  t_name : option string;
  t_description : option string;
  t_build_topic_model : bool;
  t_is_public : bool;
  t_colorable_fields : list string;
  t_num_workers : option value;
  t_reset_project_if_exists : bool;
  t_add_datums_if_exists : bool;
  t_shard_size : option value;
  t_projection_n_neighbors : Z;
  t_projection_epochs : Z;
  t_projection_spread : float;
  t_duplicate_detection : bool;
  t_duplicate_threshold : float
}.

(** Arguments of [map_embeddings] other than [embeddings] and [data]. *)
Record embeddings_args := EmbeddingsArgs {
  e_id_field : option string;
  e_name : option string;
  e_description : option string;
  e_is_public : bool;
  e_colorable_fields : list string;
  e_build_topic_model : bool;
  e_topic_label_field : option string;
  e_num_workers : option value;
  e_reset_project_if_exists : bool;
  e_add_datums_if_exists : bool;
  e_shard_size : option value;
  e_projection_n_neighbors : Z;
  e_projection_epochs : Z;
  e_projection_spread : float
}.

Definition id_warning : string :=
  "An ID field was not specified in your data so one was generated for you in insertion order.".

Definition default_description : string := "A description for your map.".

(** ** The uploaders *)

Section Atlas.

(** [ATLAS_DEFAULT_ID_FIELD] comes from [nomic/settings.py] and [b64int]
    from [nomic/utils.py]; both are parameters here, as is the world. *)
Context (ATLAS_DEFAULT_ID_FIELD : string) (b64int : nat -> string) (w : world).

(** [id_field == ATLAS_DEFAULT_ID_FIELD and id_field not in first_sample] *)
Definition id_missing (id_field : string) (first_sample : dref) : M bool :=
  if bool_decide (id_field = ATLAS_DEFAULT_ID_FIELD)
  then dict_not_in id_field first_sample
  else ret false.

(** [d = d.copy(); d[id_field] = b64int(id_to_add); id_to_add += 1] when
    [add_id_field], nothing otherwise. *)
Definition with_id (add_id_field : bool) (id_field : string) (d : dref) (id_to_add : nat)
  : M (dref * nat) :=
  if add_id_field then
    d <- dict_copy d ;;;
    dict_setitem d id_field (VStr (b64int id_to_add)) ;;;
    ret (d, S id_to_add)
  else ret (d, id_to_add).

(** [project.add_text(batch)] *)
Definition send_text (batch : list dref) : M unit :=
  rs <- snapshot batch ;;;
  invoke w (add_text rs) ;;;
  ret tt.

(** The body of [for d in data_iterator:], over the references the iterator
    yields; returns the pending batch and the counter. *)
Fixpoint upload_loop (upload_batch_size : Z) (add_id_field : bool) (id_field : string)
    (items : list dref) (batch : list dref) (id_to_add : nat) : M (list dref * nat) :=
  match items with
  | [] => ret (batch, id_to_add)
  | d :: items' =>
      p <- with_id add_id_field id_field d id_to_add ;;;
      let batch := batch ++ [p.1] in
      batch <- (if (Z.of_nat (length batch) >=? upload_batch_size)%Z
                then send_text batch ;;; ret []
                else ret batch) ;;;
      upload_loop upload_batch_size add_id_field id_field items' batch p.2
  end.

(** The body of the [try] block of [map_text]. *)
Definition text_upload (upload_batch_size : Z) (add_id_field : bool) (id_field : string)
    (first_sample : dref) (data_iterator : iterator) : M unit :=
  let id_to_add := 0 in
  p <- with_id add_id_field id_field first_sample id_to_add ;;;
  let batch := [p.1] in
  q <- upload_loop upload_batch_size add_id_field id_field (it_items data_iterator) batch p.2 ;;;
  match it_error data_iterator with
  | Some e => raise e
  | None => when (bool_decide (0 < length q.1)) (send_text q.1)
  end.

(** The [except BaseException as e:] handler shared by both uploaders;
    [label] is [project.name] or [project.identifier]. *)
Definition rollback {A} (number_of_datums_before_upload : Z) (label : string) (e : exn) : M A :=
  when (number_of_datums_before_upload =? 0)%Z
    (log INFO (label ++ ": Deleting dataset due to failure in initial upload.") ;;;
     invoke w delete ;;;
     ret tt) ;;;
  raise e.

(** [name] if it is given and not empty, a random name otherwise; this is
    both [project_name] and [index_name]. *)
Definition chosen_name (name : option string) : string :=
  if truthy name then default "" name else get_random_name w.

Definition text_dataset_args (a : text_args) : dataset_args :=
  {| da_identifier := None;
     da_name := Some (chosen_name (t_name a));
     da_description := default default_description (t_description a);
     da_unique_id_field := default ATLAS_DEFAULT_ID_FIELD (t_id_field a);
     da_modality := "text";
     da_is_public := t_is_public a;
     da_reset_project_if_exists := t_reset_project_if_exists a;
     da_add_datums_if_exists := t_add_datums_if_exists a |}.

Definition text_index_args (a : text_args) : index_args :=
  {| ia_name := chosen_name (t_name a);
     ia_indexed_field := Some (t_indexed_field a);
     ia_colorable_fields := t_colorable_fields a;
     ia_build_topic_model := t_build_topic_model a;
     ia_projection_n_neighbors := t_projection_n_neighbors a;
     ia_projection_epochs := t_projection_epochs a;
     ia_projection_spread := t_projection_spread a;
     ia_topic_label_field := None;
     ia_duplicate_detection := Some (t_duplicate_detection a);
     ia_duplicate_threshold := Some (t_duplicate_threshold a) |}.

Definition embeddings_dataset_args (a : embeddings_args) : dataset_args :=
  {| da_identifier := Some (chosen_name (e_name a));
     da_name := None;
     da_description := default default_description (e_description a);
     da_unique_id_field := default ATLAS_DEFAULT_ID_FIELD (e_id_field a);
     da_modality := "embedding";
     da_is_public := e_is_public a;
     da_reset_project_if_exists := e_reset_project_if_exists a;
     da_add_datums_if_exists := e_add_datums_if_exists a |}.

Definition embeddings_index_args (a : embeddings_args) : index_args :=
  {| ia_name := chosen_name (e_name a);
     ia_indexed_field := None;
     ia_colorable_fields := e_colorable_fields a;
     ia_build_topic_model := e_build_topic_model a;
     ia_projection_n_neighbors := e_projection_n_neighbors a;
     ia_projection_epochs := e_projection_epochs a;
     ia_projection_spread := e_projection_spread a;
     ia_topic_label_field := Some (e_topic_label_field a);
     ia_duplicate_detection := None;
     ia_duplicate_threshold := None |}.

(** [map_text], with the local constant [upload_batch_size] as a parameter.
    [data_iterator] is the iterator the function builds from [data]. *)
Definition map_text_with (upload_batch_size : Z) (data_iterator : iterator) (a : text_args)
  : M (option AtlasDataset) :=
  let id_field := default ATLAS_DEFAULT_ID_FIELD (t_id_field a) in
  first_sample <- next_or_None data_iterator ;;;
  match first_sample with
  | None =>
      log WARNING "Passed data has no samples. No dataset will be created" ;;;
      ret None
  | Some (first_sample, data_iterator) =>
      h <- invoke w (AtlasDataset_init (text_dataset_args a)) ;;;
      let project := w_dataset w h in
      add_id_field <- id_missing id_field first_sample ;;;
      when add_id_field (log WARNING id_warning) ;;;
      data_sample <- dict_get first_sample ;;;
      invoke w (validate_map_data_inputs (t_colorable_fields a) id_field data_sample) ;;;
      h <- invoke w total_datums ;;;
      let number_of_datums_before_upload := w_total_datums w h in
      log INFO "Uploading text to Atlas." ;;;
      when (is_not_None (t_shard_size a))
        (log WARNING "Passing 'shard_size' is deprecated and will be removed in a future release.") ;;;
      when (is_not_None (t_num_workers a))
        (log WARNING "Passing 'num_workers' is deprecated and will be removed in a future release.") ;;;
      try_except
        (text_upload upload_batch_size add_id_field id_field first_sample data_iterator)
        isinstance_BaseException
        (rollback number_of_datums_before_upload (name project)) ;;;
      log INFO "Text upload succeeded." ;;;
      (if (number_of_datums_before_upload =? 0)%Z then
         h <- invoke w (create_index (text_index_args a)) ;;;
         log INFO (w_projection_str w h)
       else
         invoke w rebuild_maps ;;; ret tt) ;;;
      h <- invoke w latest_project_state ;;;
      ret (Some (w_dataset w h))
  end.

Definition upload_batch_size : Z := 100000.

Definition map_text : iterator -> text_args -> M (option AtlasDataset) :=
  map_text_with upload_batch_size.

(** [data[i] = data[i].copy(); data[i][id_field] = b64int(i)] *)
Definition assign_id (data : lref) (id_field : string) (i : nat) : M unit :=
  d <- list_getitem data i ;;;
  c <- dict_copy d ;;;
  list_setitem data i c ;;;
  d <- list_getitem data i ;;;
  dict_setitem d id_field (VStr (b64int i)).

(** The metadata block of [map_embeddings]: [data] is created when it is
    [None], then given identifiers in place when the first record lacks
    the default identifier field.  Returns [data] and [added_id_field]. *)
Definition prepare_data (embeddings : ndarray) (data : option lref) (id_field : string)
  : M (lref * bool) :=
  let added_id_field := false in
  p <- match data with
       | None =>
           n <- nd_len embeddings ;;;
           ds <- comprehension
                   (fun i => dict_new {[ ATLAS_DEFAULT_ID_FIELD := VStr (b64int i) ]})
                   (seq 0 n) ;;;
           data <- list_new ds ;;;
           ret (data, true)
       | Some data => ret (data, added_id_field)
       end ;;;
  let data := p.1 in
  let added_id_field := p.2 in
  missing <- (if bool_decide (id_field = ATLAS_DEFAULT_ID_FIELD)
              then first <- list_getitem data 0 ;;; dict_not_in id_field first
              else ret false) ;;;
  if missing then
    xs <- list_get data ;;;
    for_each (assign_id data id_field) (seq 0 (length xs)) ;;;
    ret (data, true)
  else ret (data, added_id_field).

(** The body of the [try] block of [map_embeddings]. *)
Definition embeddings_upload (embeddings : ndarray) (data : lref) : M unit :=
  xs <- list_get data ;;;
  rs <- snapshot xs ;;;
  invoke w (add_embeddings embeddings rs) ;;;
  ret tt.

Definition map_embeddings (embeddings : ndarray) (data : option lref) (a : embeddings_args)
  : M AtlasDataset :=
  if bool_decide (nd_size embeddings = 0) then
    raise (Exn (ExceptionClass "Exception") "Your embeddings cannot be empty")
  else
  let id_field := default ATLAS_DEFAULT_ID_FIELD (e_id_field a) in
  p <- prepare_data embeddings data id_field ;;;
  let data := p.1 in
  let added_id_field := p.2 in
  when added_id_field (log WARNING id_warning) ;;;
  h <- invoke w (AtlasDataset_init (embeddings_dataset_args a)) ;;;
  let project := w_dataset w h in
  h <- invoke w total_datums ;;;
  let number_of_datums_before_upload := w_total_datums w h in
  log INFO "Uploading embeddings to Atlas." ;;;
  when (is_not_None (e_shard_size a))
    (log WARNING "Passing `shard_size` is deprecated and will raise an error in a future release") ;;;
  when (is_not_None (e_num_workers a))
    (log WARNING "Passing `num_workers` is deprecated and will raise an error in a future release") ;;;
  try_except
    (embeddings_upload embeddings data)
    isinstance_BaseException
    (rollback number_of_datums_before_upload (identifier project)) ;;;
  log INFO "Embedding upload succeeded." ;;;
  (if (number_of_datums_before_upload =? 0)%Z then
     invoke w (create_index (embeddings_index_args a)) ;;;
     ret tt
   else
     invoke w rebuild_maps ;;; ret tt) ;;;
  h <- invoke w latest_project_state ;;;
  ret (w_dataset w h).

End Atlas.

(** ** Observing a run *)

(** A run starts on the caller's heap with an empty trace. *)
Definition start (dicts : list record) (lists : list (list dref)) : state :=
  State dicts lists [].

(** Kinds of calls. *)
Definition is_add_records (c : call) : bool :=
  match c with add_text _ | add_embeddings _ _ => true | _ => false end.

Definition is_delete (c : call) : bool :=
  match c with delete => true | _ => false end.

Definition is_create_index (c : call) : bool :=
  match c with create_index _ => true | _ => false end.

Definition is_rebuild_maps (c : call) : bool :=
  match c with rebuild_maps => true | _ => false end.

(** How many calls of a kind the trace holds. *)
Definition count_calls (kind : call -> bool) (tr : list event) : nat :=
  length (List.filter kind (calls_of tr)).

(** The batches handed to [add_text], in the order they were sent, whether
    the call returned or raised. *)
Definition sent_batches (tr : list event) : list (list record) :=
  omap (fun ev => match ev with EvCall (add_text b) _ => Some b | _ => None end) tr.

(** The value [project.total_datums] had when the uploader read it. *)
Fixpoint number_of_datums_before_upload (tr : list event) : option Z :=
  match tr with
  | [] => None
  | EvCall total_datums (Ok (RInt n)) :: _ => Some n
  | _ :: tr' => number_of_datums_before_upload tr'
  end.

(** An add-records call ([add_text] or [add_embeddings]) raised [e]. *)
Definition add_records_raised (tr : list event) (e : exn) : Prop :=
  exists c, is_add_records c = true /\ In (EvCall c (Raise e)) tr.

(** The [delete] call of the trace returned, or raised [e]. *)
Definition delete_returned (tr : list event) : Prop :=
  exists v, In (EvCall delete (Ok v)) tr.

Definition delete_raised (tr : list event) (e : exn) : Prop :=
  In (EvCall delete (Raise e)) tr.

(** The calls made after the last add-records call; [None] when the trace
    holds no add-records call. *)
Fixpoint post_upload_calls (cs : list call) : option (list call) :=
  match cs with
  | [] => None
  | c :: cs' =>
      match post_upload_calls cs' with
      | Some post => Some post
      | None => if is_add_records c then Some cs' else None
      end
  end.

(** The log lines with which the uploaders mark the end of the upload
    phase. *)
Definition text_upload_succeeded (tr : list event) : Prop :=
  In (EvLog INFO "Text upload succeeded.") tr.

Definition embedding_upload_succeeded (tr : list event) : Prop :=
  In (EvLog INFO "Embedding upload succeeded.") tr.

(** [_validate_map_data_inputs] raised [e]; the constructor of the dataset
    object returned. *)
Definition validation_failed (tr : list event) (e : exn) : Prop :=
  exists cf idf sample, In (EvCall (validate_map_data_inputs cf idf sample) (Raise e)) tr.

Definition session_created (tr : list event) : Prop :=
  exists a p, In (EvCall (AtlasDataset_init a) (Ok (RDataset p))) tr.

(** The deprecation warnings, and the trace without them. *)
Definition is_deprecation (ev : event) : bool :=
  match ev with
  | EvLog WARNING msg =>
      bool_decide (msg = "Passing 'shard_size' is deprecated and will be removed in a future release.")
      || bool_decide (msg = "Passing 'num_workers' is deprecated and will be removed in a future release.")
      || bool_decide (msg = "Passing `shard_size` is deprecated and will raise an error in a future release")
      || bool_decide (msg = "Passing `num_workers` is deprecated and will raise an error in a future release")
  | _ => false
  end.

Definition without_deprecations (tr : list event) : list event :=
  List.filter (fun ev => negb (is_deprecation ev)) tr.

(** Identifier synthesis as a function on records: record [i] gets the
    identifier [b64int (from + i)]. *)
Definition with_ids (b64int : nat -> string) (id_field : string) (from : nat)
    (rs : list record) : list record :=
  imap (fun i r => <[id_field := VStr (b64int (from + i))]> r) rs.

(** ** Vocabulary for traces

    The events a phase of a run can leave behind, as predicates on trace
    segments. *)

(** Add-text calls that returned, one per batch. *)
Definition sends (bs : list (list record)) : list event :=
  (fun b => EvCall (add_text b) (Ok RNone)) <$> bs.

(** A batch of exactly [bsz] records. *)
Definition full_batch (bsz : Z) (b : list record) : Prop := Z.of_nat (length b) = bsz.

(** The events of the upload phase of [map_text] and its outcome: full
    batches, then a last batch that may be shorter; the phase ends when a
    call raises, when the iterator raises, or on a dangling reference. *)
Inductive upload_shape (bsz : Z) (it_err : option exn) : list event -> result unit -> Prop :=
| upload_completes sent tail :
    Forall (full_batch bsz) sent -> it_err = None ->
    (tail = [] \/ exists b, tail = [b] /\ 0 < length b /\ (Z.of_nat (length b) < bsz)%Z) ->
    sent ++ tail <> [] ->
    upload_shape bsz it_err (sends (sent ++ tail)) (Ok tt)
| upload_send_raises sent b e :
    Forall (full_batch bsz) sent -> 0 < length b -> (Z.of_nat (length b) <= bsz)%Z ->
    upload_shape bsz it_err (sends sent ++ [EvCall (add_text b) (Raise e)]) (Raise e)
| upload_iterator_raises sent e :
    Forall (full_batch bsz) sent -> it_err = Some e ->
    upload_shape bsz it_err (sends sent) (Raise e)
| upload_dangling sent :
    Forall (full_batch bsz) sent ->
    upload_shape bsz it_err (sends sent) (Raise dangling).

(** The log line of the rollback. *)
Definition deleting (label : string) : event :=
  EvLog INFO (label ++ ": Deleting dataset due to failure in initial upload.").

(** The events of the [except] handler and the exception it leaves with:
    nothing when the dataset had records, the [delete] call otherwise. *)
Inductive rollback_shape (label : string) (n : Z) (e : exn) : list event -> exn -> Prop :=
| rollback_stale : n <> 0%Z -> rollback_shape label n e [] e
| rollback_deleted :
    n = 0%Z -> rollback_shape label n e [deleting label; EvCall delete (Ok RNone)] e
| rollback_delete_raises e' :
    n = 0%Z -> rollback_shape label n e [deleting label; EvCall delete (Raise e')] e'.

(** The index-building call: [create_index] on a fresh dataset,
    [rebuild_maps] otherwise. *)
Definition index_call (create : call) (n : Z) : call :=
  if (n =? 0)%Z then create else rebuild_maps.

(** [map_text] logs the projection [create_index] returned. *)
Definition projection_log (logs : bool) (n : Z) (v : retval) : list event :=
  match v with
  | RProjection s => if logs && (n =? 0)%Z then [EvLog INFO s] else []
  | _ => []
  end.

(** The events after a successful upload and the result of the run. *)
Inductive post_shape (create : call) (logs : bool) (n : Z)
  : list event -> result AtlasDataset -> Prop :=
| post_index_raises e :
    post_shape create logs n [EvCall (index_call create n) (Raise e)] (Raise e)
| post_refresh_raises v e :
    post_shape create logs n
      (EvCall (index_call create n) (Ok v) :: projection_log logs n v
         ++ [EvCall latest_project_state (Raise e)]) (Raise e)
| post_returns v p :
    post_shape create logs n
      (EvCall (index_call create n) (Ok v) :: projection_log logs n v
         ++ [EvCall latest_project_state (Ok (RDataset p))]) (Ok p).

(** A warning that is logged when [b] holds. *)
Definition warn_if (b : bool) (msg : string) : list event :=
  if b then [EvLog WARNING msg] else [].

(** The result of a run under a function on its value. *)
Definition map_result {A B} (f : A -> B) (r : result A) : result B :=
  match r with Ok a => Ok (f a) | Raise e => Raise e end.

(** The references [refs] point to the records [recs] in the dict store [ds]. *)
Definition points_to (ds : list record) (refs : list dref) (recs : list record) : Prop :=
  Forall2 (fun d rc => ds !! d = Some rc) refs recs.

(** The calls made before the upload phase. *)
Definition is_setup (c : call) : bool :=
  match c with
  | AtlasDataset_init _ | validate_map_data_inputs _ _ _ | total_datums => true
  | _ => false
  end.

(** An add-records call that returned. *)
Definition add_returned (ev : event) : Prop :=
  exists c, is_add_records c = true /\ ev = EvCall c (Ok RNone).

(** The upload phase of either uploader: add-records calls that return,
    then possibly one that raises, or an exception [local] to the uploader. *)
Inductive upload_events (local : exn -> Prop) : list event -> result unit -> Prop :=
| uploads_return sent :
    Forall add_returned sent -> sent <> [] -> upload_events local sent (Ok tt)
| uploads_raise sent c e :
    Forall add_returned sent -> is_add_records c = true ->
    upload_events local (sent ++ [EvCall c (Raise e)]) (Raise e)
| uploads_stop sent e :
    Forall add_returned sent -> local e -> upload_events local sent (Raise e).

(** The events before the upload phase, when it is reached: calls that
    returned, among them [total_datums] with the value [n]. *)
Record prelude_of (marker : string) (n : Z) (pre : list event) : Prop := {
  prelude_datums : number_of_datums_before_upload pre = Some n;
  prelude_calls : forall c out, In (EvCall c out) pre -> is_setup c = true /\ exists v, out = Ok v;
  prelude_marker : ~ In (EvLog INFO marker) pre
}.

(** A run that ends before [total_datums] has been read. *)
Record early (marker : string) (tr : list event) : Prop := {
  early_datums : number_of_datums_before_upload tr = None;
  early_calls : forall c out, In (EvCall c out) tr -> is_setup c = true;
  early_marker : ~ In (EvLog INFO marker) tr
}.

(** The phases of a run of either uploader: it stops early, or the upload
    fails and is rolled back, or the upload succeeds, is marked in the log
    and is followed by the index-building call. *)
Inductive phases {B} (marker : string) (local : exn -> Prop) (ia : index_args) (logs : bool)
    (f : AtlasDataset -> B) : list event -> result B -> Prop :=
| phase_early tr r :
    early marker tr -> phases marker local ia logs f tr r
| phase_rollback pre n up e label back e' :
    prelude_of marker n pre -> upload_events local up (Raise e) ->
    rollback_shape label n e back e' ->
    phases marker local ia logs f (pre ++ up ++ back) (Raise e')
| phase_index pre n up post r :
    prelude_of marker n pre -> upload_events local up (Ok tt) ->
    post_shape (create_index ia) logs n post r ->
    phases marker local ia logs f (pre ++ up ++ EvLog INFO marker :: post) (map_result f r).

(** The rollback after an add-records call raised [e]. *)
Definition rollback_policy {A} (tr : list event) (r : result A) (e : exn) : Prop :=
  exists n, number_of_datums_before_upload tr = Some n /\
    if (n =? 0)%Z
    then count_calls is_delete tr = 1 /\
         (delete_returned tr -> r = Raise e) /\
         (forall e', delete_raised tr e' -> r = Raise e')
    else count_calls is_delete tr = 0 /\ r = Raise e.

(** The index-building calls. *)
Definition is_index (c : call) : bool := is_create_index c || is_rebuild_maps c.

(** One index-building call in the run, chosen by [total_datums], first
    after the last add-records call, followed by the state refresh when it
    returns. *)
Definition index_policy (ia : index_args) (tr : list event) : Prop :=
  exists n out,
    number_of_datums_before_upload tr = Some n /\
    count_calls is_index tr = 1 /\
    In (EvCall (index_call (create_index ia) n) out) tr /\
    post_upload_calls (calls_of tr)
    = Some (index_call (create_index ia) n
              :: match out with Ok _ => [latest_project_state] | Raise _ => [] end).

(** The result of a run against the state refresh: what
    [_latest_project_state] returns is what the run returns, and what it
    raises is what the run raises. *)
Definition returns_latest {B} (f : AtlasDataset -> B) (tr : list event) (r : result B) : Prop :=
  forall out, In (EvCall latest_project_state out) tr ->
    match out with
    | Ok v => exists p, v = RDataset p /\ r = Ok (f p)
    | Raise e => r = Raise e
    end.

(** The run ends with the [delete] call; [e] is the exception of the upload
    phase: the one the last add-records call raised or, when the upload
    phase did not end on a call that raised, one [local] to the uploader. *)
Definition rolled_back {B} (local : exn -> Prop) (tr : list event) (r : result B) : Prop :=
  exists tr0 label out e,
    tr = tr0 ++ [deleting label; EvCall delete out] /\
    ((exists tr00 c, is_add_records c = true /\ tr0 = tr00 ++ [EvCall c (Raise e)]) \/
     ((forall c e0, last tr0 <> Some (EvCall c (Raise e0))) /\ local e)) /\
    r = Raise (match out with Ok _ => e | Raise e' => e' end).

(** The exceptions of the upload phase that no call raised: in [map_text]
    the iterator may raise. *)
Definition text_local (it : iterator) (e : exn) : Prop :=
  e = dangling \/ it_error it = Some e.

Definition embeddings_local (e : exn) : Prop := e = dangling.

(** With references that point to records, the one exception of the upload
    phase of [map_text] that no call raised is the one the iterator ends
    with; the upload phase of [map_embeddings] has none. *)
Definition raised_by_iterator (it : iterator) (e : exn) : Prop := it_error it = Some e.

Definition no_exception (e : exn) : Prop := False.

(** The list [data] of [map_embeddings], when it is given, holds references
    to records. *)
Definition data_points_to (ds : list record) (ls : list (list dref)) (data : option lref)
  : Prop :=
  match data with
  | Some l => exists refs recs, ls !! l = Some refs /\ points_to ds refs recs
  | None => True
  end.

(** Two states that differ at most in deprecation warnings. *)
Definition sim (st1 st2 : state) : Prop :=
  st_dicts st1 = st_dicts st2 /\ st_lists st1 = st_lists st2 /\
  without_deprecations (st_trace st1) = without_deprecations (st_trace st2).

(** Two runs with the same result and final states alike. *)
Definition agree {A} (x y : result A * state) : Prop :=
  x.1 = y.1 /\ sim x.2 y.2.

(** A computation respects [sim]: it cannot tell the two states apart. *)
Definition resp {A} (m : M A) : Prop :=
  forall st1 st2, sim st1 st2 -> agree (m st1) (m st2).

(** The arguments [a] with the deprecated options replaced. *)
Definition text_with_deprecated (a : text_args) (shard_size num_workers : option value)
  : text_args :=
  {| t_indexed_field := t_indexed_field a;
     t_id_field := t_id_field a;
     t_name := t_name a;
     t_description := t_description a;
     t_build_topic_model := t_build_topic_model a;
     t_is_public := t_is_public a;
     t_colorable_fields := t_colorable_fields a;
     t_num_workers := num_workers;
     t_reset_project_if_exists := t_reset_project_if_exists a;
     t_add_datums_if_exists := t_add_datums_if_exists a;
     t_shard_size := shard_size;
     t_projection_n_neighbors := t_projection_n_neighbors a;
     t_projection_epochs := t_projection_epochs a;
     t_projection_spread := t_projection_spread a;
     t_duplicate_detection := t_duplicate_detection a;
     t_duplicate_threshold := t_duplicate_threshold a |}.

Definition embeddings_with_deprecated (a : embeddings_args)
    (shard_size num_workers : option value) : embeddings_args :=
  {| e_id_field := e_id_field a;
     e_name := e_name a;
     e_description := e_description a;
     e_is_public := e_is_public a;
     e_colorable_fields := e_colorable_fields a;
     e_build_topic_model := e_build_topic_model a;
     e_topic_label_field := e_topic_label_field a;
     e_num_workers := num_workers;
     e_reset_project_if_exists := e_reset_project_if_exists a;
     e_add_datums_if_exists := e_add_datums_if_exists a;
     e_shard_size := shard_size;
     e_projection_n_neighbors := e_projection_n_neighbors a;
     e_projection_epochs := e_projection_epochs a;
     e_projection_spread := e_projection_spread a |}.

(** The call events of a trace, with their results. *)
Definition call_events (tr : list event) : list event :=
  List.filter (fun ev => match ev with EvCall _ _ => true | EvLog _ _ => false end) tr.

(** Operations that leave the trace alone and only extend the dict store. *)
Definition quiet {A} (m : M A) : Prop :=
  forall st r st', m st = (r, st') ->
    st_trace st' = st_trace st /\ st_dicts st `prefix_of` st_dicts st'.

(** The value each record holds in the identifier field, and the encoded
    identifiers [b64int from], ..., [b64int (from + n - 1)]. *)
Definition identifiers (id_field : string) (rs : list record) : list (option value) :=
  (fun r => r !! id_field) <$> rs.

Definition encoded_ids (b64int : nat -> string) (from n : nat) : list (option value) :=
  (fun i => Some (VStr (b64int i))) <$> seq from n.

(** Two runs with the same result, the same heap, the same calls with the
    same answers, and the same log up to deprecation warnings. *)
Definition same_but_warnings {A} (x y : result A * state) : Prop :=
  x.1 = y.1 /\
  st_dicts x.2 = st_dicts y.2 /\ st_lists x.2 = st_lists y.2 /\
  call_events (st_trace x.2) = call_events (st_trace y.2) /\
  without_deprecations (st_trace x.2) = without_deprecations (st_trace y.2).

(** ** Further observations *)

(** How often the warning [msg] is logged. *)
Definition is_warning (msg : string) (ev : event) : bool :=
  match ev with EvLog WARNING m => bool_decide (m = msg) | _ => false end.

Definition count_warnings (msg : string) (tr : list event) : nat :=
  length (List.filter (is_warning msg) tr).

(** No error of a call is swallowed: the run raises it, unless it is the
    error of an add-records call and the [delete] of the rollback raises
    in turn. *)
Definition propagates {A} (tr : list event) (r : result A) : Prop :=
  forall c e, In (EvCall c (Raise e)) tr ->
    r = Raise e \/
    (is_add_records c = true /\ exists e', r = Raise e' /\ In (EvCall delete (Raise e')) tr).

(** [delete] is called at most once, and then it is the last call of a run
    that found the dataset empty, did not complete the upload and raises. *)
Definition delete_policy {A} (marker : string) (tr : list event) (r : result A) : Prop :=
  count_calls is_delete tr <= 1 /\
  (count_calls is_delete tr = 1 ->
   number_of_datums_before_upload tr = Some 0%Z /\ ~ In (EvLog INFO marker) tr /\
   last (calls_of tr) = Some delete /\ exists e, r = Raise e).

Section Shapes.
Context (DEFAULT : string) (b64int : nat -> string) (w : world).

(** [id_field] after the default has been filled in. *)
Definition text_id_field (a : text_args) : string := default DEFAULT (t_id_field a).

(** Whether [map_text] synthesises identifiers, from the first record. *)
Definition needs_id (a : text_args) (sample : record) : bool :=
  bool_decide (text_id_field a = DEFAULT) && bool_decide (sample !! text_id_field a = None).

(** The records [map_text] uploads when the iterator yields [recs]. *)
Definition uploaded_records (a : text_args) (recs : list record) : list record :=
  match recs with
  | sample :: _ => if needs_id a sample then with_ids b64int (text_id_field a) 0 recs else recs
  | [] => []
  end.

(** The batches of the upload phase against the records the iterator
    yields: always a prefix, the whole when the phase completes. *)
Definition upload_content (ds : list record) (a : text_args) (it : iterator)
    (up : list event) (r : result unit) : Prop :=
  forall recs, points_to ds (it_items it) recs ->
    concat (sent_batches up) `prefix_of` uploaded_records a recs /\
    (r = Ok tt -> concat (sent_batches up) = uploaded_records a recs).

(** The events of [map_text] before the upload phase. *)
Definition text_opening (a : text_args) (p : AtlasDataset) (add : bool) : list event :=
  EvCall (AtlasDataset_init (text_dataset_args DEFAULT w a)) (Ok (RDataset p))
    :: warn_if add id_warning.

Definition text_validate (a : text_args) (sample : record) : call :=
  validate_map_data_inputs (t_colorable_fields a) (text_id_field a) sample.

Definition text_prelude (a : text_args) (p : AtlasDataset) (add : bool) (sample : record)
    (n : Z) : list event :=
  text_opening a p add
    ++ [EvCall (text_validate a sample) (Ok RNone);
        EvCall total_datums (Ok (RInt n));
        EvLog INFO "Uploading text to Atlas."]
    ++ warn_if (is_not_None (t_shard_size a))
         "Passing 'shard_size' is deprecated and will be removed in a future release."
    ++ warn_if (is_not_None (t_num_workers a))
         "Passing 'num_workers' is deprecated and will be removed in a future release.".

(** Runs of [map_text] that end before the upload phase. *)
Inductive text_early (a : text_args) (it : iterator)
  : list event -> result (option AtlasDataset) -> Prop :=
| text_no_samples :
    it_items it = [] -> it_error it = None ->
    text_early a it
      [EvLog WARNING "Passed data has no samples. No dataset will be created"] (Ok None)
| text_iterator_raises e :
    it_items it = [] -> it_error it = Some e ->
    text_early a it [] (Raise e)
| text_init_raises e :
    it_items it <> [] ->
    text_early a it
      [EvCall (AtlasDataset_init (text_dataset_args DEFAULT w a)) (Raise e)] (Raise e)
| text_sample_dangling p :
    it_items it <> [] ->
    text_early a it (text_opening a p false) (Raise dangling)
| text_validate_raises p add sample e :
    it_items it <> [] ->
    text_early a it
      (text_opening a p add ++ [EvCall (text_validate a sample) (Raise e)]) (Raise e)
| text_total_datums_raises p add sample e :
    it_items it <> [] ->
    text_early a it
      (text_opening a p add
         ++ [EvCall (text_validate a sample) (Ok RNone); EvCall total_datums (Raise e)])
      (Raise e).

(** All runs of [map_text] from the heap [ds]. *)
Inductive text_run (bsz : Z) (ds : list record) (a : text_args) (it : iterator)
  : list event -> result (option AtlasDataset) -> Prop :=
| text_stops_early tr r :
    text_early a it tr r -> text_run bsz ds a it tr r
| text_upload_fails p add sample n up e back e' :
    upload_shape bsz (it_error it) up (Raise e) ->
    upload_content ds a it up (Raise e) ->
    rollback_shape (name p) n e back e' ->
    text_run bsz ds a it (text_prelude a p add sample n ++ up ++ back) (Raise e')
| text_upload_succeeds p add sample n up post r :
    upload_shape bsz (it_error it) up (Ok tt) ->
    upload_content ds a it up (Ok tt) ->
    post_shape (create_index (text_index_args w a)) true n post r ->
    text_run bsz ds a it
      (text_prelude a p add sample n ++ up ++ EvLog INFO "Text upload succeeded." :: post)
      (map_result Some r).

(** The events of [map_embeddings] before the upload phase. *)
Definition embeddings_prelude (a : embeddings_args) (p : AtlasDataset) (added : bool)
    (n : Z) : list event :=
  warn_if added id_warning
    ++ [EvCall (AtlasDataset_init (embeddings_dataset_args DEFAULT w a)) (Ok (RDataset p));
        EvCall total_datums (Ok (RInt n));
        EvLog INFO "Uploading embeddings to Atlas."]
    ++ warn_if (is_not_None (e_shard_size a))
         "Passing `shard_size` is deprecated and will raise an error in a future release"
    ++ warn_if (is_not_None (e_num_workers a))
         "Passing `num_workers` is deprecated and will raise an error in a future release".

(** All runs of [map_embeddings]; [content] holds of the records handed to
    [add_embeddings]. *)
Inductive embeddings_run (content : list record -> Prop) (a : embeddings_args)
    (embeddings : ndarray) : list event -> result AtlasDataset -> Prop :=
| embeddings_local_raises e :
    embeddings_run content a embeddings [] (Raise e)
| embeddings_init_raises added e :
    embeddings_run content a embeddings
      (warn_if added id_warning
         ++ [EvCall (AtlasDataset_init (embeddings_dataset_args DEFAULT w a)) (Raise e)])
      (Raise e)
| embeddings_total_datums_raises added p e :
    embeddings_run content a embeddings
      (warn_if added id_warning
         ++ [EvCall (AtlasDataset_init (embeddings_dataset_args DEFAULT w a)) (Ok (RDataset p));
             EvCall total_datums (Raise e)])
      (Raise e)
| embeddings_upload_dangling added p n back e' :
    rollback_shape (identifier p) n dangling back e' ->
    embeddings_run content a embeddings (embeddings_prelude a p added n ++ back) (Raise e')
| embeddings_upload_raises added p n rs e back e' :
    content rs ->
    rollback_shape (identifier p) n e back e' ->
    embeddings_run content a embeddings
      (embeddings_prelude a p added n
         ++ EvCall (add_embeddings embeddings rs) (Raise e) :: back)
      (Raise e')
| embeddings_upload_succeeds added p n rs post r :
    content rs ->
    post_shape (create_index (embeddings_index_args w a)) false n post r ->
    embeddings_run content a embeddings
      (embeddings_prelude a p added n
         ++ EvCall (add_embeddings embeddings rs) (Ok RNone)
         :: EvLog INFO "Embedding upload succeeded." :: post)
      r.

(** What [add_embeddings] receives: the records the list returned by
    [prepare_data] points to. *)
Definition prepared_content (emb : ndarray) (data : option lref) (a : embeddings_args)
    (ds : list record) (ls : list (list dref)) (rs : list record) : Prop :=
  forall l added st1,
    prepare_data DEFAULT b64int emb data (default DEFAULT (e_id_field a)) (start ds ls)
    = (Ok (l, added), st1) ->
    exists refs, st_lists st1 !! l = Some refs /\ points_to (st_dicts st1) refs rs.

(** The state of the identifier loop of [map_embeddings] after [k] rounds:
    the first [k] slots of the list hold fresh copies with identifiers. *)
Definition assigned (ds : list record) (ls : list (list dref)) (tr : list event)
    (l : lref) (idf : string) (refs : list dref) (recs : list record) (k : nat) : state :=
  State (ds ++ with_ids b64int idf 0 (take k recs))
        (<[l := seq (length ds) k ++ drop k refs]> ls)
        tr.

End Shapes.

Arguments text_opening : simpl never.
Arguments text_prelude : simpl never.
Arguments embeddings_prelude : simpl never.

(** ** The steps of a run, against the caller's input *)

Section Steps.
Context (DEFAULT : string) (b64int : nat -> string) (w : world).

(** Runs of [map_text] that end between the first record and the upload
    phase, against the record the iterator yields first. *)
Inductive text_setup_fails (ds : list record) (a : text_args) (first : dref)
  : list event -> exn -> Prop :=
| setup_init_raises e :
    text_setup_fails ds a first
      [EvCall (AtlasDataset_init (text_dataset_args DEFAULT w a)) (Raise e)] e
| setup_sample_dangling p :
    ds !! first = None ->
    text_setup_fails ds a first (text_opening DEFAULT w a p false) dangling
| setup_validate_raises p sample e :
    ds !! first = Some sample ->
    text_setup_fails ds a first
      (text_opening DEFAULT w a p (needs_id DEFAULT a sample)
         ++ [EvCall (text_validate DEFAULT a sample) (Raise e)]) e
| setup_total_datums_raises p sample e :
    ds !! first = Some sample ->
    text_setup_fails ds a first
      (text_opening DEFAULT w a p (needs_id DEFAULT a sample)
         ++ [EvCall (text_validate DEFAULT a sample) (Ok RNone); EvCall total_datums (Raise e)])
      e.

(** The end of a run of [map_text] after the upload phase, which left with
    [rup]: the rollback, or the marker and the index-building call. *)
Definition text_closing (a : text_args) (p : AtlasDataset) (n : Z) (rup : result unit)
    (tail : list event) (r : result (option AtlasDataset)) : Prop :=
  match rup with
  | Ok _ => exists post r0,
      tail = EvLog INFO "Text upload succeeded." :: post /\
      post_shape (create_index (text_index_args w a)) true n post r0 /\
      r = map_result Some r0
  | Raise e => exists e', rollback_shape (name p) n e tail e' /\ r = Raise e'
  end.

(** The records [map_embeddings] makes up when [data] is [None]. *)
Definition generated_records (n : nat) : list record :=
  (fun i => {[ DEFAULT := VStr (b64int i) ]}) <$> seq 0 n.

(** The calls a run of [map_text] with the arguments [a] can make. *)
Definition text_call_allowed (a : text_args) (c : call) : Prop :=
  match c with
  | AtlasDataset_init da => da = text_dataset_args DEFAULT w a
  | validate_map_data_inputs cf idf _ =>
      cf = t_colorable_fields a /\ idf = default DEFAULT (t_id_field a)
  | create_index ia => ia = text_index_args w a
  | add_embeddings _ _ => False
  | _ => True
  end.

(** The calls a run of [map_embeddings] on the array [emb] can make. *)
Definition embeddings_call_allowed (a : embeddings_args) (emb : ndarray) (c : call) : Prop :=
  match c with
  | AtlasDataset_init da => da = embeddings_dataset_args DEFAULT w a
  | create_index ia => ia = embeddings_index_args w a
  | add_embeddings emb' _ => emb' = emb
  | validate_map_data_inputs _ _ _ | add_text _ => False
  | _ => True
  end.

End Steps.

(** ** Concrete inputs

    Small heaps, arguments and worlds on which the statements below are
    exercised. *)

Definition example_records : list record :=
  [ {[ "text" := VStr "a" ]}; {[ "text" := VStr "b" ]}; {[ "text" := VStr "c" ]} ].

Definition example_iterator : iterator := Iterator [0; 1; 2] None.

Definition one : float := QArith_base.Qmake 1 1.

Definition example_text_args : text_args :=
  {| t_indexed_field := "text";
     t_id_field := None;
     t_name := Some "org/news";
     t_description := None;
     t_build_topic_model := true;
     t_is_public := true;
     t_colorable_fields := [];
     t_num_workers := None;
     t_reset_project_if_exists := false;
     t_add_datums_if_exists := false;
     t_shard_size := None;
     t_projection_n_neighbors := 15;
     t_projection_epochs := 50;
     t_projection_spread := one;
     t_duplicate_detection := true;
     t_duplicate_threshold := one |}.

Definition example_embeddings_args : embeddings_args :=
  {| e_id_field := None;
     e_name := Some "org/news";
     e_description := None;
     e_is_public := true;
     e_colorable_fields := [];
     e_build_topic_model := true;
     e_topic_label_field := None;
     e_num_workers := None;
     e_reset_project_if_exists := false;
     e_add_datums_if_exists := false;
     e_shard_size := None;
     e_projection_n_neighbors := 15;
     e_projection_epochs := 50;
     e_projection_spread := one |}.

Definition example_embeddings : ndarray := NdArray [3; 1] [one; one; one].

(** A stand-in for [b64int]: the decimal numeral. *)
Definition decimal (i : nat) : string := pretty i.

Definition upload_error : exn := Exn (ExceptionClass "ConnectionError") "upload failed".
Definition delete_error : exn := Exn (ExceptionClass "ConnectionError") "delete failed".
Definition validation_error : exn := Exn (ExceptionClass "ValueError") "unknown colorable field".
Definition interrupt : exn := Exn KeyboardInterrupt "".

(** A world in which every call returns; the dataset holds [n] records. *)
Definition calm (n : Z) : world :=
  {| get_random_name := "blue-sky";
     w_raises := fun _ => None;
     w_dataset := fun _ => Dataset "org/news" "news";
     w_total_datums := fun _ => n;
     w_projection_str := fun _ => "projection" |}.

(** A world in which nothing raises and [_latest_project_state] answers
    with another object than the constructor. *)
Definition refreshed (n : Z) : world :=
  {| get_random_name := "blue-sky";
     w_raises := fun _ => None;
     w_dataset := fun h => match last h with
                           | Some latest_project_state => Dataset "org/news" "news (refreshed)"
                           | _ => Dataset "org/news" "news"
                           end;
     w_total_datums := fun _ => n;
     w_projection_str := fun _ => "projection" |}.

(** A world in which every add-records call raises [e]. *)
Definition add_fails (e : exn) (n : Z) : world :=
  {| get_random_name := "blue-sky";
     w_raises := fun h => match last h with
                          | Some (add_text _) | Some (add_embeddings _ _) => Some e
                          | _ => None
                          end;
     w_dataset := fun _ => Dataset "org/news" "news";
     w_total_datums := fun _ => n;
     w_projection_str := fun _ => "projection" |}.

(** A fresh dataset on which both add-records and [delete] raise. *)
Definition add_and_delete_fail : world :=
  {| get_random_name := "blue-sky";
     w_raises := fun h => match last h with
                          | Some (add_text _) | Some (add_embeddings _ _) => Some upload_error
                          | Some delete => Some delete_error
                          | _ => None
                          end;
     w_dataset := fun _ => Dataset "org/news" "news";
     w_total_datums := fun _ => 0%Z;
     w_projection_str := fun _ => "projection" |}.

(** A world in which [_validate_map_data_inputs] raises. *)
Definition validation_fails : world :=
  {| get_random_name := "blue-sky";
     w_raises := fun h => match last h with
                          | Some (validate_map_data_inputs _ _ _) => Some validation_error
                          | _ => None
                          end;
     w_dataset := fun _ => Dataset "org/news" "news";
     w_total_datums := fun _ => 0%Z;
     w_projection_str := fun _ => "projection" |}.

Definition example_lists : list (list dref) := [[0; 1; 2]].

(** [map_text] and [map_embeddings] on the three example records, in a
    given world. *)
Definition text_example (w : world) : result (option AtlasDataset) * state :=
  map_text "id_" decimal w example_iterator example_text_args
    (start example_records example_lists).

Definition embeddings_example (w : world) : result AtlasDataset * state :=
  map_embeddings "id_" decimal w example_embeddings (Some 0) example_embeddings_args
    (start example_records example_lists).

(** Two records that hold the default identifier field, the list that
    holds them, and an array with one row for each. *)
Definition identified_records : list record :=
  [ {[ "id_" := VStr "u" ]}; {[ "id_" := VStr "v" ]} ].

Definition identified_lists : list (list dref) := [[0; 1]].

Definition two_rows : ndarray := NdArray [2; 1] [one; one].

(** An iterator that raises after three records. *)
Definition read_error : exn := Exn (ExceptionClass "OSError") "read failed".

Definition broken_iterator : iterator := Iterator [0; 1; 2] (Some read_error).

(** A 0-dimensional array. *)
Definition scalar_array : ndarray := NdArray [] [one].

(** * Proofs *)

(** Case analysis on the flags that decide which warnings are logged. *)
Ltac split_flags :=
  unfold text_prelude, text_opening, embeddings_prelude, warn_if in *;
  repeat match goal with
         | |- context [if ?b then _ else _] => destruct b
         | H : context [if ?b then _ else _] |- _ => destruct b
         end.

(** Membership of an event in an explicit trace. *)
Ltac close_in H :=
  simpl in H; rewrite ?in_app_iff in H; simpl in H;
  intuition (simplify_eq/=; try done).

Create HintDb resp.

(** ** Running the primitives *)

Section Run.
Context (DEFAULT : string) (b64int : nat -> string) (w : world).

Lemma with_id_run add idf d i st r st' :
  with_id b64int add idf d i st = (r, st') ->
  st_trace st' = st_trace st /\ st_lists st' = st_lists st /\
  st_dicts st `prefix_of` st_dicts st' /\
  (r = Raise dangling \/ exists d' i', r = Ok (d', i')).
Proof.
  unfold with_id, dict_copy, dict_get, dict_new, dict_setitem, bind, ret.
  destruct add; simpl.
  - destruct (st_dicts st !! d) as [rc|] eqn:Hd; simpl.
    + rewrite lookup_app_r by lia. rewrite Nat.sub_diag. simpl.
      intros [= <- <-]. simpl. repeat split; eauto.
      rewrite insert_app_r_alt by lia. rewrite Nat.sub_diag. simpl.
      by apply prefix_app_r.
    + intros [= <- <-]. repeat split; eauto.
  - intros [= <- <-]. repeat split; eauto.
Qed.

Lemma snapshot_run ds st r st' :
  snapshot ds st = (r, st') ->
  st' = st /\ (r = Raise dangling \/ exists rs, r = Ok rs /\ points_to (st_dicts st) ds rs).
Proof.
  revert r st'. induction ds as [|d ds IH]; simpl; intros r st'.
  - unfold ret. intros [= <- <-]. split; [done|]. right. eexists. split; [done|]. constructor.
  - unfold bind at 1. unfold dict_get at 1.
    destruct (st_dicts st !! d) as [rc|] eqn:Hd; [|intros [= <- <-]; split; eauto].
    unfold bind at 1. destruct (snapshot ds st) as [[rs|e] st1] eqn:Hs.
    + destruct (IH _ _ eq_refl) as [-> [?|(rs' & [= <-] & Hlen)]]; [done|].
      unfold ret. intros [= <- <-]. split; [done|]. right. eexists; split; [done|].
      by constructor.
    + destruct (IH _ _ eq_refl) as [-> [[= ->]|(rs' & ? & _)]]; [|done].
      intros [= <- <-]. split; eauto.
Qed.

Lemma send_text_run batch st r st' :
  send_text w batch st = (r, st') ->
  st_lists st' = st_lists st /\ st_dicts st' = st_dicts st /\
  ((r = Raise dangling /\ st_trace st' = st_trace st) \/
   exists rs, length rs = length batch /\
     ((r = Ok tt /\ st_trace st' = st_trace st ++ [EvCall (add_text rs) (Ok RNone)]) \/
      exists e, r = Raise e /\ st_trace st' = st_trace st ++ [EvCall (add_text rs) (Raise e)])).
Proof.
  unfold send_text. unfold bind at 1.
  destruct (snapshot batch st) as [[rs|e] st1] eqn:Hs;
    destruct (snapshot_run _ _ _ _ Hs) as [-> Hr].
  - destruct Hr as [?|(rs' & [= <-] & Hlen)]; [done|].
    apply Forall2_length in Hlen.
    unfold bind, invoke, ret.
    destruct (w_raises w _) as [e|]; intros [= <- <-]; simpl; repeat split; right;
      exists rs; (split; [done|]); eauto.
  - destruct Hr as [[= ->]|(? & ? & _)]; [|done].
    intros [= <- <-]. repeat split; eauto.
Qed.

Lemma upload_loop_shape bsz add idf items : forall batch i st r st',
  (Z.of_nat (length batch) < bsz)%Z ->
  upload_loop b64int w bsz add idf items batch i st = (r, st') ->
  st_lists st' = st_lists st /\ st_dicts st `prefix_of` st_dicts st' /\
  exists sent, Forall (full_batch bsz) sent /\
    match r with
    | Ok (batch', _) =>
        st_trace st' = st_trace st ++ sends sent /\ (Z.of_nat (length batch') < bsz)%Z /\
        (sent = [] -> length batch <= length batch')
    | Raise e =>
        (e = dangling /\ st_trace st' = st_trace st ++ sends sent) \/
        exists b, full_batch bsz b /\
          st_trace st' = st_trace st ++ sends sent ++ [EvCall (add_text b) (Raise e)]
    end.
Proof.
  induction items as [|d items IH]; intros batch i st r st' Hlen; simpl.
  - unfold ret. intros [= <- <-]. repeat split; [done|]. exists []. split; [constructor|].
    simpl. by rewrite app_nil_r.
  - unfold bind at 1.
    destruct (with_id b64int add idf d i st) as [[[d' i']|e] st1] eqn:Hw;
      destruct (with_id_run _ _ _ _ _ _ _ Hw) as (Ht1 & Hl1 & Hd1 & Hr1).
    2:{ destruct Hr1 as [[= ->]|(? & ? & ?)]; [|done]. intros [= <- <-].
        repeat split; [done..|]. exists []. split; [constructor|]. left. simpl.
        by rewrite app_nil_r. }
    simpl. unfold bind at 1.
    destruct (Z.geb_spec (Z.of_nat (length (batch ++ [d']))) bsz) as [Hge|Hlt].
    + (* the batch is full: send it *)
      assert (Hfull : Z.of_nat (length (batch ++ [d'])) = bsz).
      { rewrite length_app in *. simpl length in *. lia. }
      unfold bind at 1.
      destruct (send_text w (batch ++ [d']) st1) as [[[]|e] st2] eqn:Hs;
        destruct (send_text_run _ _ _ _ Hs) as (Hl2 & Hd2 & Hr2).
      * destruct Hr2 as [[? _]|(rs & Hrs & [[_ Ht2]|(e & ? & _)])]; [done| |done].
        unfold ret at 1. intros Hrec.
        apply IH in Hrec as (Hl3 & Hd3 & sent & Hsent & Hr3); [|simpl; lia].
        split; [congruence|]. split; [rewrite <- Hd2 in Hd1; by etrans|].
        exists (rs :: sent). split; [constructor; [unfold full_batch; congruence|done]|].
        destruct r as [[batch' ?]|e].
        -- destruct Hr3 as (-> & ? & _). split; [|done]. rewrite Ht2, Ht1. simpl.
           by rewrite <- app_assoc.
        -- destruct Hr3 as [[-> ->]|(b & Hb & ->)].
           ++ left. split; [done|]. rewrite Ht2, Ht1. by rewrite <- app_assoc.
           ++ right. exists b. split; [done|]. rewrite Ht2, Ht1. simpl.
              by rewrite <- !app_assoc.
      * intros [= <- <-]. split; [congruence|]. split; [by rewrite Hd2|].
        exists []. split; [constructor|].
        destruct Hr2 as [[[= ->] Ht2]|(rs & Hrs & [[? _]|(e' & [= <-] & Ht2)])]; [|done|].
        -- left. split; [done|]. simpl. rewrite app_nil_r. congruence.
        -- right. exists rs. split; [unfold full_batch; congruence|]. simpl. congruence.
    + unfold ret at 1. intros Hrec.
      apply IH in Hrec as (Hl3 & Hd3 & sent & Hsent & Hr3); [|lia].
      split; [congruence|]. split; [by etrans|].
      exists sent. split; [done|]. rewrite Ht1 in Hr3.
      destruct r as [[batch' ?]|e]; [|done]. destruct Hr3 as (? & ? & Hmono).
      repeat split; [done..|]. intros Hs. specialize (Hmono Hs).
      rewrite length_app in Hmono. lia.
Qed.

Lemma text_upload_shape bsz add idf first it st r st' :
  (1 < bsz)%Z ->
  text_upload b64int w bsz add idf first it st = (r, st') ->
  st_lists st' = st_lists st /\ st_dicts st `prefix_of` st_dicts st' /\
  exists up, st_trace st' = st_trace st ++ up /\ upload_shape bsz (it_error it) up r.
Proof.
  intros Hbsz. unfold text_upload. unfold bind at 1.
  destruct (with_id b64int add idf first 0 st) as [[[d' i']|e] st1] eqn:Hw;
    destruct (with_id_run _ _ _ _ _ _ _ Hw) as (Ht1 & Hl1 & Hd1 & Hr1).
  2:{ destruct Hr1 as [[= ->]|(? & ? & ?)]; [|done]. intros [= <- <-].
      repeat split; [done..|]. exists []. rewrite app_nil_r. split; [done|].
      apply (upload_dangling _ _ []). constructor. }
  simpl. unfold bind at 1.
  destruct (upload_loop _ _ _ _ _ _ _ _ st1) as [[[batch i'']|e] st2] eqn:Hloop;
    apply upload_loop_shape in Hloop as (Hl2 & Hd2 & sent & Hsent & Hr2);
    [|simpl; lia| |simpl; lia].
  - destruct Hr2 as (Ht2 & Hlen & Hmono). simpl in Hmono |- *.
    destruct (it_error it) as [e|] eqn:Herr.
    + intros [= <- <-]. split; [congruence|]. split; [by etrans|].
      exists (sends sent). split; [congruence|]. by apply upload_iterator_raises.
    + unfold when. case_bool_decide as Hpos.
      * intros Hs. apply send_text_run in Hs as (Hl3 & Hd3 & Hr3).
        split; [congruence|]. split; [rewrite Hd3; by etrans|].
        destruct Hr3 as [[-> Ht3]|(rs & Hrs & [[-> Ht3]|(e & -> & Ht3)])].
        -- exists (sends sent). split; [congruence|]. by apply upload_dangling.
        -- exists (sends (sent ++ [rs])). split.
           { rewrite Ht3, Ht2, Ht1. unfold sends. rewrite fmap_app. simpl.
             by rewrite <- app_assoc. }
           apply upload_completes; [done| done| |by destruct sent].
           right. exists rs. split; [done|]. lia.
        -- exists (sends sent ++ [EvCall (add_text rs) (Raise e)]). split.
           { rewrite Ht3, Ht2, Ht1. by rewrite <- app_assoc. }
           apply upload_send_raises; [done|lia..].
      * unfold ret. intros [= <- <-]. split; [congruence|]. split; [by etrans|].
        exists (sends (sent ++ [])). split; [rewrite app_nil_r; congruence|].
        apply upload_completes; auto. rewrite app_nil_r. intros ->.
        specialize (Hmono eq_refl). lia.
  - intros [= <- <-]. split; [congruence|]. split; [by etrans|].
    destruct Hr2 as [[-> Ht2]|(b & Hb & Ht2)].
    + exists (sends sent). split; [congruence|]. by apply upload_dangling.
    + exists (sends sent ++ [EvCall (add_text b) (Raise e)]). split; [congruence|].
      unfold full_batch in Hb. apply upload_send_raises; [done|lia..].
Qed.

Lemma sent_batches_app tr1 tr2 :
  sent_batches (tr1 ++ tr2) = sent_batches tr1 ++ sent_batches tr2.
Proof. apply omap_app. Qed.

Lemma with_id_content add idf d i st rc :
  st_dicts st !! d = Some rc ->
  exists d' st1,
    with_id b64int add idf d i st = (Ok (d', if add then S i else i), st1) /\
    st_dicts st1 !! d' = Some (if add then <[idf := VStr (b64int i)]> rc else rc) /\
    st_dicts st `prefix_of` st_dicts st1 /\ st_trace st1 = st_trace st.
Proof.
  intros Hd. unfold with_id, dict_copy, dict_get, dict_new, dict_setitem, bind, ret.
  destruct add; simpl.
  - rewrite Hd. simpl. rewrite lookup_app_r by lia. rewrite Nat.sub_diag. simpl.
    eexists _, _. split; [done|]. simpl.
    rewrite insert_app_r_alt by lia. rewrite Nat.sub_diag. simpl.
    split; [|split; [by apply prefix_app_r|done]].
    rewrite lookup_app_r by lia. by rewrite Nat.sub_diag.
  - eexists _, _. split; [done|]. done.
Qed.

Lemma points_to_mono ds ds' refs recs :
  ds `prefix_of` ds' -> points_to ds refs recs -> points_to ds' refs recs.
Proof.
  intros [k ->] H. eapply Forall2_impl; [exact H|].
  intros d rc Hd. by apply lookup_app_l_Some.
Qed.

Lemma snapshot_points_to refs recs st :
  points_to (st_dicts st) refs recs -> snapshot refs st = (Ok recs, st).
Proof.
  induction 1 as [|d rc refs recs Hd _ IH]; [done|]. simpl.
  unfold bind at 1. unfold dict_get at 1. rewrite Hd.
  unfold bind at 1. rewrite IH. done.
Qed.

Lemma with_ids_cons idf i rc recs :
  with_ids b64int idf i (rc :: recs)
  = <[idf := VStr (b64int i)]> rc :: with_ids b64int idf (S i) recs.
Proof.
  unfold with_ids. simpl. rewrite Nat.add_0_r. f_equal. apply imap_ext.
  intros k x _. simpl. do 3 f_equal. lia.
Qed.

Lemma upload_loop_content bsz add idf items : forall batch i st r st' brecs recs,
  points_to (st_dicts st) batch brecs ->
  points_to (st_dicts st) items recs ->
  upload_loop b64int w bsz add idf items batch i st = (r, st') ->
  exists up, st_trace st' = st_trace st ++ up /\
    let expected := brecs ++ (if add then with_ids b64int idf i recs else recs) in
    match r with
    | Ok (batch', _) =>
        exists brecs', points_to (st_dicts st') batch' brecs' /\
          concat (sent_batches up) ++ brecs' = expected
    | Raise _ => concat (sent_batches up) `prefix_of` expected
    end.
Proof.
  induction items as [|d items IH]; intros batch i st r st' brecs recs Hbatch Hitems; simpl.
  - apply Forall2_nil_inv_l in Hitems as ->.
    unfold ret. intros [= <- <-]. exists []. rewrite app_nil_r. split; [done|].
    exists brecs. split; [done|]. simpl. destruct add; by rewrite app_nil_r.
  - apply Forall2_cons_inv_l in Hitems as (rc & recs' & Hd & Hitems & ->).
    destruct (with_id_content add idf d i st rc Hd) as (d' & st1 & Hw & Hd' & Hpre & Ht1).
    unfold bind at 1. rewrite Hw. simpl.
    set (rc' := if add then <[idf:=VStr (b64int i)]> rc else rc) in *.
    assert (points_to (st_dicts st1) (batch ++ [d']) (brecs ++ [rc'])) as Hbatch1.
    { apply Forall2_app; [by eapply points_to_mono|]. by constructor. }
    assert (points_to (st_dicts st1) items recs') as Hitems1.
    { by eapply points_to_mono. }
    assert (brecs ++ (if add then with_ids b64int idf i (rc :: recs') else rc :: recs')
            = (brecs ++ [rc']) ++
              (if add then with_ids b64int idf (S i) recs' else recs')) as Hexp.
    { rewrite <- app_assoc. f_equal. subst rc'. destruct add; [|done].
      by rewrite with_ids_cons. }
    cbv zeta. rewrite Hexp.
    unfold bind at 1.
    destruct (Z.geb_spec (Z.of_nat (length (batch ++ [d']))) bsz) as [Hge|Hlt].
    + unfold bind at 1. unfold send_text. unfold bind at 1.
      rewrite (snapshot_points_to _ _ _ Hbatch1).
      unfold bind at 1. unfold invoke at 1.
      destruct (w_raises w _) as [e|].
      * intros [= <- <-]. simpl. eexists. rewrite Ht1. split; [done|]. simpl.
        rewrite app_nil_r. by apply prefix_app_r.
      * unfold ret. cbn [answer]. intros Hrec.
        eapply (IH _ _ _ _ _ [] recs') in Hrec as (up & Hup & Hr);
          [|by constructor|exact Hitems1].
        simpl in Hup. rewrite Ht1 in Hup.
        eexists. split; [by rewrite Hup, <- app_assoc|].
        cbv zeta in Hr. simpl in Hr. simpl.
        destruct r as [[batch' ?]|e].
        -- destruct Hr as (brecs' & ? & Hc). exists brecs'. split; [done|].
           rewrite <- app_assoc, Hc. by destruct add.
        -- apply prefix_app. by destruct add.
    + unfold ret at 1. intros Hrec.
      eapply IH in Hrec as (up & Hup & Hr); [|done..].
      exists up. split; [congruence|]. by destruct add.
Qed.

Lemma text_upload_content bsz add idf first it st r st' sample recs :
  st_dicts st !! first = Some sample ->
  points_to (st_dicts st) (it_items it) recs ->
  text_upload b64int w bsz add idf first it st = (r, st') ->
  exists up, st_trace st' = st_trace st ++ up /\
    let expected := if add then with_ids b64int idf 0 (sample :: recs) else sample :: recs in
    concat (sent_batches up) `prefix_of` expected /\
    (r = Ok tt -> concat (sent_batches up) = expected).
Proof.
  intros Hfirst Hitems. unfold text_upload.
  destruct (with_id_content add idf first 0 st sample Hfirst)
    as (d' & st1 & Hw & Hd' & Hpre & Ht1).
  unfold bind at 1. rewrite Hw. simpl.
  set (rc' := if add then <[idf:=VStr (b64int 0)]> sample else sample) in *.
  assert ((if add then with_ids b64int idf 0 (sample :: recs) else sample :: recs)
          = [rc'] ++ (if add then with_ids b64int idf 1 recs else recs)) as ->.
  { subst rc'. destruct add; [|done]. by rewrite with_ids_cons. }
  unfold bind at 1.
  destruct (upload_loop _ _ _ _ _ _ _ _ st1) as [[[batch i'']|e] st2] eqn:Hloop;
    eapply (upload_loop_content _ _ _ _ _ _ _ _ _ [rc'] recs) in Hloop as (up & Hup & Hr);
    [|by constructor|by eapply points_to_mono| |by constructor|by eapply points_to_mono].
  all: cbv zeta in Hr;
    replace (if add then with_ids b64int idf (if add then 1 else 0) recs else recs)
      with (if add then with_ids b64int idf 1 recs else recs) in Hr by (by destruct add).
  - destruct Hr as (brecs' & Hb' & Hc). simpl in Hc |- *.
    destruct (it_error it) as [e|].
    + intros [= <- <-]. exists up. split; [congruence|]. split; [|done].
      rewrite <- Hc. by apply prefix_app_r.
    + unfold when. case_bool_decide as Hpos.
      * unfold send_text. unfold bind at 1. rewrite (snapshot_points_to _ _ _ Hb').
        unfold bind, invoke, ret.
        destruct (w_raises w _) as [e|]; intros [= <- <-]; simpl;
          (eexists; split; [by rewrite Hup, Ht1, <- app_assoc|]);
          rewrite sent_batches_app, concat_app; simpl; rewrite app_nil_r, Hc; done.
      * unfold ret. intros [= <- <-]. exists up. split; [congruence|].
        destruct batch; [|simpl in Hpos; lia]. apply Forall2_nil_inv_l in Hb' as ->.
        rewrite app_nil_r in Hc. by rewrite Hc.
  - intros [= <- <-]. exists up. split; [congruence|]. done.
Qed.

Lemma rollback_run {A} n label e st (r : result A) st' :
  rollback w n label e st = (r, st') ->
  st_lists st' = st_lists st /\ st_dicts st' = st_dicts st /\
  exists back e', st_trace st' = st_trace st ++ back /\ r = Raise e' /\
    rollback_shape label n e back e'.
Proof.
  unfold rollback, when, bind, raise, log, invoke, ret.
  destruct (Z.eqb_spec n 0) as [->|Hn]; simpl.
  - destruct (w_raises w _) as [e'|]; intros [= <- <-]; simpl; repeat split.
    + exists [deleting label; EvCall delete (Raise e')], e'.
      rewrite <- app_assoc. repeat split. by constructor.
    + exists [deleting label; EvCall delete (Ok RNone)], e.
      rewrite <- app_assoc. repeat split. by constructor.
  - intros [= <- <-]. repeat split. exists [], e. rewrite app_nil_r. repeat split.
    by constructor.
Qed.

Lemma id_missing_run idf d st r st' :
  id_missing DEFAULT idf d st = (r, st') ->
  st' = st /\
  match st_dicts st !! d with
  | Some s => r = Ok (bool_decide (idf = DEFAULT) && bool_decide (s !! idf = None))
  | None => r = Raise dangling \/ r = Ok false
  end.
Proof.
  unfold id_missing, dict_not_in, bind, dict_get, ret.
  case_bool_decide; destruct (st_dicts st !! d); intros [= <- <-]; auto.
Qed.

Lemma index_run {B} create (logs : bool) n (idx : M unit) (f : AtlasDataset -> B) st r st' :
  (idx ;;; h <- invoke w latest_project_state ;;; ret (f (w_dataset w h))) st = (r, st') ->
  (forall st0, idx st0 =
     let h := calls_of (st_trace st0) ++ [index_call create n] in
     match w_raises w h with
     | Some e => (Raise e, State (st_dicts st0) (st_lists st0)
                             (st_trace st0 ++ [EvCall (index_call create n) (Raise e)]))
     | None =>
         let v := answer w h (index_call create n) in
         (Ok tt, State (st_dicts st0) (st_lists st0)
                   (st_trace st0 ++ EvCall (index_call create n) (Ok v)
                      :: projection_log logs n v))
     end) ->
  st_lists st' = st_lists st /\ st_dicts st' = st_dicts st /\
  exists post r0, st_trace st' = st_trace st ++ post /\ r = map_result f r0 /\
    post_shape create logs n post r0.
Proof.
  intros Hrun Hidx. revert Hrun. unfold bind at 1. rewrite Hidx. simpl.
  destruct (w_raises w _) as [e|].
  { intros [= <- <-]. simpl. repeat split. eexists _, (Raise e). repeat split. constructor. }
  unfold bind, invoke, ret. simpl.
  destruct (w_raises w _) as [e|]; intros [= <- <-]; simpl; repeat split.
  - rewrite <- !app_assoc. simpl. eexists _, (Raise e). repeat split.
    apply post_refresh_raises.
  - rewrite <- !app_assoc. simpl. eexists _, (Ok _). repeat split. apply post_returns.
Qed.

Lemma text_index_step a n st0 :
  (if (n =? 0)%Z
   then h <- invoke w (create_index (text_index_args w a)) ;;; log INFO (w_projection_str w h)
   else invoke w rebuild_maps ;;; ret tt) st0 =
  let c := index_call (create_index (text_index_args w a)) n in
  let h := calls_of (st_trace st0) ++ [c] in
  match w_raises w h with
  | Some e => (Raise e, State (st_dicts st0) (st_lists st0) (st_trace st0 ++ [EvCall c (Raise e)]))
  | None =>
      let v := answer w h c in
      (Ok tt, State (st_dicts st0) (st_lists st0)
                (st_trace st0 ++ EvCall c (Ok v) :: projection_log true n v))
  end.
Proof.
  unfold index_call, projection_log. destruct (n =? 0)%Z; simpl;
    unfold bind, invoke, log, ret; destruct (w_raises w _); simpl; [done| |done|done].
  by rewrite <- app_assoc.
Qed.

Lemma when_log_run b msg st :
  when b (log WARNING msg) st
  = (Ok tt, State (st_dicts st) (st_lists st) (st_trace st ++ warn_if b msg)).
Proof. destruct b, st; simpl; unfold ret, log; simpl; by rewrite ?app_nil_r. Qed.

Lemma map_text_run bsz it a ds ls r st' :
  (1 < bsz)%Z ->
  map_text_with DEFAULT b64int w bsz it a (start ds ls) = (r, st') ->
  text_run DEFAULT b64int w bsz ds a it (st_trace st') r /\
  st_lists st' = ls /\ ds `prefix_of` st_dicts st'.
Proof.
  intros Hbsz. unfold map_text_with, start.
  unfold bind at 1. unfold next_or_None.
  destruct it as [[|first rest] err]; simpl.
  { destruct err as [e|]; simpl.
    - intros [= <- <-]. split; [by apply text_stops_early, text_iterator_raises|done].
    - unfold bind, log, ret. simpl. intros [= <- <-]. split; [by apply text_stops_early, text_no_samples|done]. }
  unfold bind at 1. unfold invoke at 1. simpl.
  destruct (w_raises w _) as [e|].
  { intros [= <- <-]. split; [by apply text_stops_early, text_init_raises|done]. }
  set (p := w_dataset w _).
  unfold bind at 1.
  destruct (id_missing _ _ _ _) as [[add|e] st1] eqn:Hmiss;
    apply id_missing_run in Hmiss as [-> Hadd]; simpl in Hadd.
  2:{ destruct (ds !! first); [done|]. destruct Hadd as [[= ->]|?]; [|done].
      intros [= <- <-]. split; [|done]. by apply text_stops_early, (text_sample_dangling _ _ _ _ p). }
  unfold bind at 1. rewrite when_log_run. simpl.
  unfold bind at 1. unfold dict_get at 1. simpl.
  destruct (ds !! first) as [sample|] eqn:Hfirst.
  2:{ intros [= <- <-]. split; [|done]. destruct Hadd as [?|[= ->]]; [done|].
      by apply text_stops_early, (text_sample_dangling _ _ _ _ p). }
  injection Hadd as Hadd. fold (text_id_field DEFAULT a) in Hadd.
  fold (needs_id DEFAULT a sample) in Hadd.
  unfold bind at 1. unfold invoke at 1. simpl.
  destruct (w_raises w _) as [e|].
  { intros [= <- <-]. split; [|done]. by apply text_stops_early, (text_validate_raises _ _ _ _ p add sample). }
  unfold bind at 1. unfold invoke at 1. simpl.
  destruct (w_raises w _) as [e|].
  { intros [= <- <-]. split; [|done]. simpl. rewrite <- app_assoc.
    by apply text_stops_early, (text_total_datums_raises _ _ _ _ p add sample). }
  set (n := w_total_datums w _).
  unfold bind at 1. unfold log at 1. simpl.
  unfold bind at 1. rewrite when_log_run. simpl.
  unfold bind at 1. rewrite when_log_run. simpl.
  match goal with |- context [State ds ls ?t] => 
    replace t with (text_prelude DEFAULT w a p add sample n)
      by (unfold text_prelude, text_opening, text_validate, text_id_field; simpl;
          by rewrite <- !app_assoc) end.
  unfold bind at 1. unfold try_except.
  destruct (text_upload _ _ _ _ _ _ _ _) as [rup st1] eqn:Hup.
  assert (upload_content DEFAULT b64int ds a (Iterator (first :: rest) err)
            (drop (length (text_prelude DEFAULT w a p add sample n)) (st_trace st1)) rup)
    as Hcontent.
  { intros recs Hrecs. apply Forall2_cons_inv_l in Hrecs as (s0 & recs' & Hs0 & Hrecs & ->).
    assert (s0 = sample) as -> by congruence.
    eapply text_upload_content in Hup as (up & Ht1 & Hc); [|exact Hfirst|exact Hrecs].
    cbn [st_trace] in Ht1. rewrite Ht1, drop_app_length.
    unfold uploaded_records. rewrite <- Hadd. exact Hc. }
  apply text_upload_shape in Hup as (Hl1 & Hd1 & up & Ht1 & Hup); [|done].
  cbn [st_trace st_lists st_dicts] in Hl1, Hd1, Ht1.
  rewrite Ht1, drop_app_length in Hcontent.
  destruct rup as [[]|e].
  - (* the upload succeeded *)
    unfold bind at 1. unfold log at 1. simpl.
    intros Hpost.
    eapply (index_run (create_index (text_index_args w a)) true n) in Hpost
      as (Hl2 & Hd2 & post & r0 & Ht2 & -> & Hpost); [|apply text_index_step].
    cbn [st_trace st_lists st_dicts] in *. split; [|split; congruence].
    rewrite Ht2, Ht1, <- !app_assoc. by eapply text_upload_succeeds.
  - (* the upload raised *)
    unfold isinstance_BaseException. unfold bind at 1.
    destruct (rollback _ _ _ _ _) as [r1 st2] eqn:Hback.
    apply rollback_run in Hback as (Hl2 & Hd2 & back & e' & Ht2 & -> & Hback).
    intros [= <- <-]. split; [|split; congruence].
    rewrite Ht2, Ht1, <- !app_assoc. by eapply text_upload_fails.
Qed.

Lemma quiet_ret {A} (a : A) : quiet (ret a).
Proof. intros st r st' [= <- <-]. done. Qed.

Lemma quiet_raise {A} e : quiet (@raise A e).
Proof. intros st r st' [= <- <-]. done. Qed.

Lemma quiet_bind {A B} (m : M A) (k : A -> M B) :
  quiet m -> (forall a, quiet (k a)) -> quiet (bind m k).
Proof.
  intros Hm Hk st r st'. unfold bind.
  destruct (m st) as [[a|e] st1] eqn:H1; specialize (Hm _ _ _ H1) as [Ht Hd].
  - intros H2. apply Hk in H2 as [Ht2 Hd2]. split; [congruence|by etrans].
  - intros [= <- <-]. done.
Qed.

Lemma quiet_dict_get d : quiet (dict_get d).
Proof. intros st r st'. unfold dict_get. destruct (_ !! _); intros [= <- <-]; done. Qed.

Lemma quiet_dict_new rc : quiet (dict_new rc).
Proof. intros st r st' [= <- <-]. simpl. split; [done|]. by apply prefix_app_r. Qed.

Lemma quiet_list_get l : quiet (list_get l).
Proof. intros st r st'. unfold list_get. destruct (_ !! _); intros [= <- <-]; done. Qed.

Lemma quiet_list_new xs : quiet (list_new xs).
Proof. intros st r st' [= <- <-]. done. Qed.

Lemma quiet_list_getitem l i : quiet (list_getitem l i).
Proof.
  apply quiet_bind; [apply quiet_list_get|]. intros xs.
  destruct (xs !! i); [apply quiet_ret|apply quiet_raise].
Qed.

Lemma quiet_dict_not_in k d : quiet (dict_not_in k d).
Proof. apply quiet_bind; [apply quiet_dict_get|]. intros; apply quiet_ret. Qed.

Lemma quiet_for_each {A} (f : A -> M unit) xs :
  (forall x, quiet (f x)) -> quiet (for_each f xs).
Proof.
  intros Hf. induction xs as [|x xs IH]; simpl; [apply quiet_ret|].
  apply quiet_bind; auto.
Qed.

Lemma quiet_comprehension {A B} (f : A -> M B) xs :
  (forall x, quiet (f x)) -> quiet (comprehension f xs).
Proof.
  intros Hf. induction xs as [|x xs IH]; simpl; [apply quiet_ret|].
  apply quiet_bind; [done|]. intros y. apply quiet_bind; [done|]. intros; apply quiet_ret.
Qed.

(** [assign_id] writes the identifier into the copy it has just stored in
    the list, never into a dict that existed before. *)
Lemma quiet_assign_id data idf i : quiet (assign_id b64int data idf i).
Proof.
  intros st r st'. unfold assign_id.
  unfold bind at 1. destruct (list_getitem data i st) as [[d|e] st1] eqn:H1.
  2:{ apply quiet_list_getitem in H1 as [? ?]. by intros [= <- <-]. }
  assert (st1 = st) as ->.
  { revert H1. unfold list_getitem, bind, list_get, ret, raise.
    destruct (_ !! _); [destruct (_ !! _)|]; by intros [= <- <-]. }
  unfold bind at 1. unfold dict_copy, bind at 1, dict_get, dict_new.
  destruct (st_dicts st !! d) as [rc|]; [|by intros [= <- <-]].
  unfold bind at 1. unfold list_setitem at 1. simpl.
  destruct (st_lists st !! data) as [xs|] eqn:Hxs; [|by intros [= <- <-]; split; [|apply prefix_app_r]].
  case_bool_decide as Hi; [|by intros [= <- <-]; split; [|apply prefix_app_r]].
  unfold bind at 1. unfold list_getitem, bind at 1, list_get. simpl.
  rewrite list_lookup_insert_eq by (by apply lookup_lt_Some in Hxs).
  rewrite list_lookup_insert_eq by done. unfold ret at 1.
  unfold dict_setitem. simpl. rewrite lookup_app_r by lia. rewrite Nat.sub_diag. simpl.
  intros [= <- <-]. simpl. split; [done|].
  rewrite insert_app_r_alt by lia. rewrite Nat.sub_diag. simpl. by apply prefix_app_r.
Qed.

Lemma quiet_prepare_data emb data idf : quiet (prepare_data DEFAULT b64int emb data idf).
Proof.
  unfold prepare_data. apply quiet_bind.
  { destruct data; [apply quiet_ret|].
    apply quiet_bind.
    { unfold nd_len. destruct (nd_shape emb); [apply quiet_raise|apply quiet_ret]. }
    intros n. apply quiet_bind.
    { apply quiet_comprehension. intros; apply quiet_dict_new. }
    intros ds. apply quiet_bind; [apply quiet_list_new|]. intros; apply quiet_ret. }
  intros p. apply quiet_bind.
  { case_bool_decide; [|apply quiet_ret].
    apply quiet_bind; [apply quiet_list_getitem|]. intros; apply quiet_dict_not_in. }
  intros [|]; [|apply quiet_ret].
  apply quiet_bind; [apply quiet_list_get|]. intros xs.
  apply quiet_bind; [|intros; apply quiet_ret].
  apply quiet_for_each. intros; apply quiet_assign_id.
Qed.

Lemma embeddings_index_step a n st0 :
  (if (n =? 0)%Z
   then invoke w (create_index (embeddings_index_args w a)) ;;; ret tt
   else invoke w rebuild_maps ;;; ret tt) st0 =
  let c := index_call (create_index (embeddings_index_args w a)) n in
  let h := calls_of (st_trace st0) ++ [c] in
  match w_raises w h with
  | Some e => (Raise e, State (st_dicts st0) (st_lists st0) (st_trace st0 ++ [EvCall c (Raise e)]))
  | None =>
      let v := answer w h c in
      (Ok tt, State (st_dicts st0) (st_lists st0)
                (st_trace st0 ++ EvCall c (Ok v) :: projection_log false n v))
  end.
Proof.
  unfold index_call, projection_log. destruct (n =? 0)%Z; simpl;
    unfold bind, invoke, ret; destruct (w_raises w _); simpl; done.
Qed.

Lemma embeddings_upload_run emb data st r st' :
  embeddings_upload w emb data st = (r, st') ->
  st_lists st' = st_lists st /\ st_dicts st' = st_dicts st /\
  ((r = Raise dangling /\ st_trace st' = st_trace st) \/
   exists refs rs, st_lists st !! data = Some refs /\ points_to (st_dicts st) refs rs /\
     ((r = Ok tt /\ st_trace st' = st_trace st ++ [EvCall (add_embeddings emb rs) (Ok RNone)]) \/
      exists e, r = Raise e /\ st_trace st' = st_trace st ++ [EvCall (add_embeddings emb rs) (Raise e)])).
Proof.
  unfold embeddings_upload. unfold bind at 1. unfold list_get at 1.
  destruct (st_lists st !! data) as [xs|]; [|intros [= <- <-]; auto].
  unfold bind at 1.
  destruct (snapshot xs st) as [[rs|e] st1] eqn:Hs;
    destruct (snapshot_run _ _ _ _ Hs) as [-> Hr].
  - destruct Hr as [?|(rs' & [= <-] & Hrs)]; [done|].
    unfold bind, invoke, ret.
    destruct (w_raises w _) as [e|]; intros [= <- <-]; simpl; repeat split; right;
      exists xs, rs; eauto 10.
  - destruct Hr as [[= ->]|(? & ? & _)]; [|done].
    intros [= <- <-]. auto.
Qed.

Lemma map_embeddings_run emb data a ds ls r st' :
  map_embeddings DEFAULT b64int w emb data a (start ds ls) = (r, st') ->
  embeddings_run DEFAULT w (prepared_content DEFAULT b64int emb data a ds ls) a emb (st_trace st') r /\
  ds `prefix_of` st_dicts st' /\
  (nd_size emb <> 0 ->
   forall l added st1,
     prepare_data DEFAULT b64int emb data (default DEFAULT (e_id_field a)) (start ds ls)
     = (Ok (l, added), st1) ->
     st_dicts st' = st_dicts st1 /\ st_lists st' = st_lists st1).
Proof.
  unfold map_embeddings. case_bool_decide as Hsize.
  { intros [= <- <-]. split; [constructor|]. done. }
  unfold bind at 1.
  destruct (prepare_data _ _ _ _ _ _) as [[[l added]|e] st1] eqn:Hprep;
    apply quiet_prepare_data in Hprep as Hquiet; destruct Hquiet as [Ht1 Hd1];
    simpl in Ht1, Hd1.
  2:{ intros [= <- <-]. rewrite Ht1. split; [constructor|]. split; [done|].
      intros _ l added st0 [=]. }
  match goal with |- ?run = _ -> _ =>
    enough (run = (r, st') ->
            embeddings_run DEFAULT w (prepared_content DEFAULT b64int emb data a ds ls) a emb (st_trace st') r /\
            st_dicts st' = st_dicts st1 /\ st_lists st' = st_lists st1) as Hgoal end.
  { intros Hrun. destruct (Hgoal Hrun) as (? & Hd & Hl). split; [done|]. split; [by rewrite Hd|].
    intros _ l' added' st0 [= <- <- <-]. done. }
  assert (forall refs rs, st_lists st1 !! l = Some refs -> points_to (st_dicts st1) refs rs ->
                          prepared_content DEFAULT b64int emb data a ds ls rs) as Hcontent.
  { intros refs rs Hrefs Hrs l' added' st0 Hprep'. rewrite Hprep in Hprep'.
    injection Hprep' as <- <- <-. eauto. }
  clear Hprep Hd1.
  destruct st1 as [ds1 ls1 tr1]. simpl in *. subst tr1.
  unfold bind at 1. rewrite when_log_run. simpl.
  unfold bind at 1. unfold invoke at 1. simpl.
  destruct (w_raises w _) as [e|].
  { intros [= <- <-]. split; [|done]. apply embeddings_init_raises. }
  set (p := w_dataset w _).
  unfold bind at 1. unfold invoke at 1. simpl.
  destruct (w_raises w _) as [e|].
  { intros [= <- <-]. split; [|done]. simpl. rewrite <- app_assoc.
    apply embeddings_total_datums_raises. }
  set (n := w_total_datums w _).
  unfold bind at 1. unfold log at 1. simpl.
  unfold bind at 1. rewrite when_log_run. simpl.
  unfold bind at 1. rewrite when_log_run. simpl.
  match goal with |- context [State ds1 ls1 ?t] =>
    replace t with (embeddings_prelude DEFAULT w a p added n)
      by (unfold embeddings_prelude; simpl; by rewrite <- !app_assoc) end.
  unfold bind at 1. unfold try_except.
  destruct (embeddings_upload _ _ _ _) as [[[]|e] st1] eqn:Hup;
    apply embeddings_upload_run in Hup as (Hl1 & Hd2 & Hup);
    cbn [st_trace st_lists st_dicts] in Hl1, Hd2, Hup.
  - destruct Hup as [[? _]|(refs & rs & Hrefs & Hrs & [[_ Ht1]|(e & ? & _)])]; [done| |done].
    unfold bind at 1. unfold log at 1. simpl.
    intros Hpost.
    eapply (index_run (create_index (embeddings_index_args w a)) false n _ id) in Hpost
      as (Hl3 & Hd3 & post & r0 & Ht3 & -> & Hpost); [|apply embeddings_index_step].
    cbn [st_trace st_lists st_dicts] in *. split; [|split; congruence].
    rewrite Ht3, Ht1, <- !app_assoc. simpl.
    replace (map_result id r0) with r0 by (by destruct r0).
    apply embeddings_upload_succeeds; eauto.
  - unfold isinstance_BaseException. unfold bind at 1.
    destruct (rollback _ _ _ _ _) as [r1 st2] eqn:Hback.
    apply rollback_run in Hback as (Hl3 & Hd3 & back & e' & Ht3 & -> & Hback).
    intros [= <- <-]. split; [|split; congruence].
    destruct Hup as [[[= ->] Ht1]|(refs & rs & Hrefs & Hrs & [[? _]|(e0 & [= <-] & Ht1)])];
      [|done|].
    + rewrite Ht3, Ht1. by eapply embeddings_upload_dangling.
    + rewrite Ht3, Ht1, <- !app_assoc. simpl. eapply embeddings_upload_raises; eauto.
Qed.

End Run.

(** ** Facts about traces *)

Section Traces.

Lemma calls_of_app tr1 tr2 : calls_of (tr1 ++ tr2) = calls_of tr1 ++ calls_of tr2.
Proof. apply omap_app. Qed.

Lemma count_calls_app k tr1 tr2 :
  count_calls k (tr1 ++ tr2) = count_calls k tr1 + count_calls k tr2.
Proof. unfold count_calls. by rewrite calls_of_app, List.filter_app, length_app. Qed.

Lemma count_calls_none k tr :
  (forall c out, In (EvCall c out) tr -> k c = false) -> count_calls k tr = 0.
Proof.
  induction tr as [|ev tr IH]; [done|]. intros Hk.
  unfold count_calls in *. destruct ev as [c out|]; simpl.
  - rewrite (Hk c out) by (by left). apply IH. intros c' out' ?. apply (Hk c' out'). by right.
  - apply IH. intros c' out' ?. apply (Hk c' out'). by right.
Qed.

Lemma count_calls_zero k tr c out :
  count_calls k tr = 0 -> In (EvCall c out) tr -> k c = false.
Proof.
  induction tr as [|ev tr IH]; [by intros _ []|].
  unfold count_calls in *. intros Hc [->|Hin]; simpl in Hc.
  - by destruct (k c).
  - apply IH; [|done]. destruct ev as [c' ?|]; simpl in Hc; [|done].
    by destruct (k c').
Qed.

Lemma sent_batches_sends bs : sent_batches (sends bs) = bs.
Proof. induction bs as [|b bs IH]; [done|]. simpl. unfold sent_batches in *. simpl. by rewrite IH. Qed.

Lemma sent_batches_none tr :
  (forall c out, In (EvCall c out) tr -> is_add_records c = false) -> sent_batches tr = [].
Proof.
  induction tr as [|ev tr IH]; [done|]. intros Hk.
  unfold sent_batches in *. destruct ev as [c out|]; simpl.
  - specialize (Hk c out (or_introl eq_refl)) as Hc. destruct c; try done;
      apply IH; intros c' out' ?; apply (Hk c' out'); by right.
  - apply IH. intros c' out' ?. apply (Hk c' out'). by right.
Qed.

Lemma datums_app_Some tr1 tr2 n :
  number_of_datums_before_upload tr1 = Some n ->
  number_of_datums_before_upload (tr1 ++ tr2) = Some n.
Proof.
  induction tr1 as [|ev tr1 IH]; [done|]. simpl.
  destruct ev as [[] [[]|]|]; try done.
Qed.

Lemma datums_none tr :
  (forall out, ~ In (EvCall total_datums out) tr) -> number_of_datums_before_upload tr = None.
Proof.
  induction tr as [|ev tr IH]; [done|]. intros Hno. simpl.
  assert (number_of_datums_before_upload tr = None) as Htr.
  { apply IH. intros out ?. apply (Hno out). by right. }
  destruct ev as [[] [[]|]|]; try done. destruct (Hno (Ok (RInt z))). by left.
Qed.

Lemma string_length_app (s1 s2 : string) :
  String.length (s1 +:+ s2) = String.length s1 + String.length s2.
Proof. induction s1 as [|c s1 IH]; simpl; [done|]. by rewrite IH. Qed.

Lemma not_deleting label msg :
  String.length msg < 51 -> EvLog INFO msg <> deleting label.
Proof.
  intros Hlen [= ->]. revert Hlen. rewrite string_length_app. simpl. lia.
Qed.

Lemma post_upload_calls_app cs1 cs2 post :
  post_upload_calls cs2 = Some post -> post_upload_calls (cs1 ++ cs2) = Some post.
Proof. intros H. induction cs1 as [|c cs1 IH]; [done|]. simpl. by rewrite IH. Qed.

Lemma post_upload_calls_none cs :
  Forall (fun c => is_add_records c = false) cs -> post_upload_calls cs = None.
Proof. induction 1 as [|c cs Hc _ IH]; [done|]. simpl. by rewrite IH, Hc. Qed.

Lemma post_upload_calls_last c cs :
  is_add_records c = true -> Forall (fun c => is_add_records c = false) cs ->
  post_upload_calls (c :: cs) = Some cs.
Proof. intros Hc Hcs. simpl. by rewrite post_upload_calls_none, Hc. Qed.

Lemma upload_events_calls local up r c out :
  upload_events local up r -> In (EvCall c out) up -> is_add_records c = true.
Proof.
  assert (forall sent, Forall add_returned sent -> In (EvCall c out) sent ->
                       is_add_records c = true) as Hsent.
  { intros sent Hs Hin. rewrite Forall_forall in Hs. rewrite <- list_elem_of_In in Hin.
    apply Hs in Hin as (c' & Hc' & [= -> ->]). done. }
  destruct 1; rewrite ?in_app_iff; intros Hin; eauto.
  destruct Hin as [?|Hin]; eauto. close_in Hin.
Qed.

Lemma upload_events_logs local up r lvl msg :
  upload_events local up r -> ~ In (EvLog lvl msg) up.
Proof.
  assert (forall sent, Forall add_returned sent -> ~ In (EvLog lvl msg) sent) as Hsent.
  { intros sent Hs Hin. rewrite Forall_forall in Hs. rewrite <- list_elem_of_In in Hin.
    by apply Hs in Hin as (c' & Hc' & [=]). }
  destruct 1; rewrite ?in_app_iff; intros Hin; try (by eapply Hsent).
  destruct Hin as [?|Hin]; [by eapply Hsent|]. close_in Hin.
Qed.

Lemma upload_events_raised local up r c e :
  upload_events local up r -> In (EvCall c (Raise e)) up ->
  r = Raise e /\ exists sent, up = sent ++ [EvCall c (Raise e)].
Proof.
  assert (forall sent, Forall add_returned sent -> ~ In (EvCall c (Raise e)) sent) as Hsent.
  { intros sent Hs Hin. rewrite Forall_forall in Hs. rewrite <- list_elem_of_In in Hin.
    by apply Hs in Hin as (c' & Hc' & [=]). }
  destruct 1; rewrite ?in_app_iff; intros Hin; try (by edestruct Hsent).
  destruct Hin as [?|Hin]; [by edestruct Hsent|]. close_in Hin. eauto.
Qed.

Lemma rollback_shape_calls label n e back e' c out :
  rollback_shape label n e back e' -> In (EvCall c out) back -> c = delete.
Proof. destruct 1; intros Hin; close_in Hin. Qed.

Lemma post_shape_calls create logs n post r c out :
  post_shape create logs n post r -> In (EvCall c out) post ->
  c = create \/ c = rebuild_maps \/ c = latest_project_state.
Proof.
  destruct 1; intros Hin; unfold index_call, projection_log in Hin;
    repeat match type of Hin with
           | context [if ?b then _ else _] => destruct b
           | context [match ?v with _ => _ end] => destruct v
           end; close_in Hin.
Qed.

Lemma rollback_shape_policy label n e back e' :
  rollback_shape label n e back e' ->
  if (n =? 0)%Z
  then count_calls is_delete back = 1 /\
       (forall v, In (EvCall delete (Ok v)) back -> e' = e) /\
       (forall e0, In (EvCall delete (Raise e0)) back -> e' = e0)
  else back = [] /\ e' = e.
Proof.
  destruct 1 as [Hn| -> | e' ->]; simpl.
  - by destruct (Z.eqb_spec n 0).
  - split; [done|]. split; intros ? Hin; close_in Hin.
  - split; [done|]. split; intros ? Hin; close_in Hin.
Qed.

End Traces.

(** ** What follows from the phases of a run *)

Section Phases.
Context {B : Type} (marker : string) (local : exn -> Prop) (ia : index_args) (logs : bool)
  (f : AtlasDataset -> B).
Context (Hmarker : String.length marker < 51).

Lemma prelude_count k n pre :
  prelude_of marker n pre -> (forall c, is_setup c = true -> k c = false) ->
  count_calls k pre = 0.
Proof.
  intros [_ Hc _] Hk. apply count_calls_none. intros c out Hin. apply Hk. by apply Hc in Hin as [? _].
Qed.

Lemma upload_count k up r :
  upload_events local up r -> (forall c, is_add_records c = true -> k c = false) ->
  count_calls k up = 0.
Proof.
  intros Hup Hk. apply count_calls_none. intros c out Hin. apply Hk.
  by eapply upload_events_calls.
Qed.

Lemma phases_rollback tr (r : result B) e :
  phases marker local ia logs f tr r ->
  add_records_raised tr e -> rollback_policy tr r e.
Proof.
  intros Hrun (c & Hc & Hin).
  destruct Hrun as [tr r [_ Hcalls _]|pre n up e0 label back e' Hpre Hup Hback
                    |pre n up post r Hpre Hup Hpost].
  - apply Hcalls in Hin. by destruct c.
  - rewrite !in_app_iff in Hin. destruct Hin as [Hin|[Hin|Hin]].
    { apply (prelude_calls _ _ _ Hpre) in Hin as [_ [? ?]]. done. }
    2:{ apply (rollback_shape_calls _ _ _ _ _ _ _ Hback) in Hin as ->. done. }
    apply (upload_events_raised _ _ _ _ _ Hup) in Hin as [[= ->] _].
    exists n. split.
    { apply datums_app_Some, Hpre. }
    assert (count_calls is_delete pre = 0) as Hc1.
    { eapply prelude_count; [done|]. by intros []. }
    assert (count_calls is_delete up = 0) as Hc2.
    { eapply upload_count; [done|]. by intros []. }
    rewrite !count_calls_app, Hc1, Hc2. cbn [Nat.add].
    apply rollback_shape_policy in Hback.
    assert (forall out, In (EvCall delete out) (pre ++ up ++ back) -> In (EvCall delete out) back)
      as Hdel.
    { intros out. rewrite !in_app_iff. intros [Hd|[Hd|Hd]]; [| |done].
      - by apply (count_calls_zero _ _ _ _ Hc1) in Hd.
      - by apply (count_calls_zero _ _ _ _ Hc2) in Hd. }
    destruct (n =? 0)%Z.
    + destruct Hback as (Hcount & Hok & Hraise). split; [done|]. split.
      * intros [v Hv]. apply Hdel in Hv. f_equal. eauto.
      * intros e1 Hv. apply Hdel in Hv. f_equal. eauto.
    + destruct Hback as [-> ->]. done.
  - exfalso. rewrite !in_app_iff in Hin. simpl in Hin.
    destruct Hin as [Hin|[Hin|[Hin|Hin]]]; [| |done|].
    + apply (prelude_calls _ _ _ Hpre) in Hin as [_ [? ?]]. done.
    + by apply (upload_events_raised _ _ _ _ _ Hup) in Hin as [[=] _].
    + apply (post_shape_calls _ _ _ _ _ _ _ Hpost) in Hin as [->|[->| ->]]; done.
Qed.

Lemma marker_in_rollback label n e back e' :
  rollback_shape label n e back e' -> ~ In (EvLog INFO marker) back.
Proof.
  destruct 1; intros Hin; simpl in Hin; [done|..];
    (destruct Hin as [Hin|[Hin|[]]]; [|done]); symmetry in Hin; by apply not_deleting in Hin.
Qed.

Lemma phases_index tr (r : result B) :
  phases marker local ia logs f tr r ->
  In (EvLog INFO marker) tr -> index_policy ia tr.
Proof.
  intros Hrun Hin.
  destruct Hrun as [tr r [_ _ Hm]|pre n up e0 label back e' Hpre Hup Hback
                    |pre n up post r Hpre Hup Hpost]; [done| |].
  { exfalso. rewrite !in_app_iff in Hin. destruct Hin as [Hin|[Hin|Hin]].
    - by apply (prelude_marker _ _ _ Hpre).
    - by apply (upload_events_logs _ _ _ _ _ Hup) in Hin.
    - by apply (marker_in_rollback _ _ _ _ _ Hback) in Hin. }
  clear Hin.
  assert (count_calls is_index pre = 0) as Hc1.
  { eapply prelude_count; [done|]. by intros []. }
  assert (count_calls is_index up = 0) as Hc2.
  { eapply upload_count; [done|]. by intros []. }
  assert (exists out, In (EvCall (index_call (create_index ia) n) out) post /\
            count_calls is_index post = 1 /\
            calls_of post = index_call (create_index ia) n
              :: match out with Ok _ => [latest_project_state] | Raise _ => [] end)
    as (out & Hout & Hc3 & Hcalls).
  { assert (forall v, calls_of (projection_log logs n v) = []) as Hlog.
    { intros v. unfold projection_log. by destruct v, (logs && (n =? 0)%Z). }
    assert (is_index (index_call (create_index ia) n) = true) as Hidx.
    { unfold index_call. by destruct (n =? 0)%Z. }
    destruct Hpost as [e|v e|v p].
    - exists (Raise e). split; [by left|]. unfold count_calls. simpl. by rewrite Hidx.
    - exists (Ok v). split; [by left|].
      change (?x :: ?l ++ ?r) with ([x] ++ l ++ r).
      unfold count_calls. rewrite !calls_of_app, Hlog. simpl. by rewrite Hidx.
    - exists (Ok v). split; [by left|].
      change (?x :: ?l ++ ?r) with ([x] ++ l ++ r).
      unfold count_calls. rewrite !calls_of_app, Hlog. simpl. by rewrite Hidx. }
  exists n, out. split; [apply datums_app_Some, Hpre|]. split.
  { change (?x :: post) with ([x] ++ post).
    rewrite !count_calls_app, Hc1, Hc2, Hc3. done. }
  split.
  { rewrite !in_app_iff. right. right. by right. }
  inversion Hup as [sent Hsent Hne| |]; subst.
  destruct (exists_last Hne) as (sent' & last & ->).
  apply Forall_app in Hsent as [_ Hlast]. apply Forall_cons in Hlast as [(c & Hc & ->) _].
  change (?x :: post) with ([x] ++ post).
  rewrite !calls_of_app, <- !app_assoc. simpl.
  apply post_upload_calls_app, post_upload_calls_app. rewrite Hcalls.
  apply post_upload_calls_last; [done|].
  unfold index_call. destruct (n =? 0)%Z, out; repeat constructor.
Qed.

Lemma post_shape_latest n post r out :
  post_shape (create_index ia) logs n post r ->
  In (EvCall latest_project_state out) post ->
  match out with
  | Ok v => exists p, v = RDataset p /\ r = Ok p
  | Raise e => r = Raise e
  end.
Proof.
  destruct 1; intros Hin; unfold index_call, projection_log in Hin;
    repeat match type of Hin with
           | context [if ?b then _ else _] => destruct b
           | context [match ?v with _ => _ end] => destruct v
           end; close_in Hin; eauto.
Qed.

Lemma phases_returns tr (r : result B) :
  phases marker local ia logs f tr r ->
  In (EvLog INFO marker) tr -> returns_latest f tr r.
Proof.
  intros Hrun Hin.
  destruct Hrun as [tr r [_ _ Hm]|pre n up e0 label back e' Hpre Hup Hback
                    |pre n up post r Hpre Hup Hpost]; [done| |].
  { exfalso. rewrite !in_app_iff in Hin. destruct Hin as [Hin|[Hin|Hin]].
    - by apply (prelude_marker _ _ _ Hpre).
    - by apply (upload_events_logs _ _ _ _ _ Hup) in Hin.
    - by apply (marker_in_rollback _ _ _ _ _ Hback) in Hin. }
  clear Hin. intros out Hin. rewrite !in_app_iff in Hin.
  destruct Hin as [Hin|[Hin|Hin]].
  - by apply (prelude_calls _ _ _ Hpre) in Hin as [? _].
  - by apply (upload_events_calls _ _ _ _ _ Hup) in Hin.
  - destruct Hin as [Hin|Hin]; [done|].
    apply (post_shape_latest _ _ _ _ Hpost) in Hin.
    destruct out as [v|e]; [|by subst].
    destruct Hin as (p & -> & ->). eauto.
Qed.

End Phases.

(** ** The two uploaders run in phases *)

Section Conversions.
Context (DEFAULT : string) (b64int : nat -> string) (w : world).

Lemma sends_returned bs : Forall add_returned (sends bs).
Proof.
  unfold sends. rewrite Forall_fmap. apply Forall_true. intros b. by exists (add_text b).
Qed.

Lemma upload_shape_events bsz it up r :
  upload_shape bsz (it_error it) up r -> upload_events (text_local it) up r.
Proof.
  destruct 1 as [sent tail Hs _ Ht Hne|sent b e Hs|sent e Hs Herr|sent Hs].
  - apply uploads_return; [apply sends_returned|]. unfold sends.
    by destruct (sent ++ tail).
  - apply uploads_raise; [apply sends_returned|done].
  - apply uploads_stop; [apply sends_returned|by right].
  - apply uploads_stop; [apply sends_returned|by left].
Qed.

Lemma text_prelude_of a p add sample n :
  prelude_of "Text upload succeeded." n (text_prelude DEFAULT w a p add sample n).
Proof.
  split.
  - by split_flags.
  - intros c out Hin. split_flags; close_in Hin; eauto.
  - intros Hin. split_flags; close_in Hin.
Qed.

Lemma text_early_early a it tr r :
  text_early DEFAULT w a it tr r -> early "Text upload succeeded." tr.
Proof.
  destruct 1;
    (split;
     [by split_flags
     |intros c out Hin; split_flags; close_in Hin
     |intros Hin; split_flags; close_in Hin]).
Qed.

Lemma text_run_phases bsz ds a it tr r :
  text_run DEFAULT b64int w bsz ds a it tr r ->
  phases "Text upload succeeded." (text_local it) (text_index_args w a) true Some tr r.
Proof.
  destruct 1 as [tr r Hearly|p add sample n up e0 back e' Hup _ Hback
                 |p add sample n up post r Hup _ Hpost].
  - eapply phase_early, text_early_early, Hearly.
  - eapply phase_rollback; [apply text_prelude_of|by eapply upload_shape_events|done].
  - eapply phase_index; [apply text_prelude_of|by eapply upload_shape_events|done].
Qed.

Lemma early_sent_batches marker tr : early marker tr -> sent_batches tr = [].
Proof.
  intros [_ Hc _]. apply sent_batches_none. intros c out Hin. apply Hc in Hin. by destruct c.
Qed.

Lemma prelude_sent_batches marker n pre : prelude_of marker n pre -> sent_batches pre = [].
Proof.
  intros [_ Hc _]. apply sent_batches_none. intros c out Hin.
  apply Hc in Hin as [? _]. by destruct c.
Qed.

Lemma rollback_sent_batches label n e back e' :
  rollback_shape label n e back e' -> sent_batches back = [].
Proof. by destruct 1. Qed.

Lemma post_sent_batches ia logs n post r :
  post_shape (create_index ia) logs n post r -> sent_batches post = [].
Proof.
  intros Hpost. apply sent_batches_none. intros c out Hin.
  apply (post_shape_calls _ _ _ _ _ _ _ Hpost) in Hin as [->|[->| ->]]; done.
Qed.

(** The batches of a run: full ones, then at most one shorter, non-empty one. *)
Lemma text_run_batches bsz ds a it tr r :
  text_run DEFAULT b64int w bsz ds a it tr r ->
  exists sent tail, sent_batches tr = sent ++ tail /\ Forall (full_batch bsz) sent /\
    (tail = [] \/ exists b, tail = [b] /\ 0 < length b /\ (Z.of_nat (length b) <= bsz)%Z).
Proof.
  assert (forall up rup, upload_shape bsz (it_error it) up rup ->
    exists sent tail, sent_batches up = sent ++ tail /\ Forall (full_batch bsz) sent /\
      (tail = [] \/ exists b, tail = [b] /\ 0 < length b /\ (Z.of_nat (length b) <= bsz)%Z))
    as Hshape.
  { destruct 1 as [sent tail Hs _ Ht Hne|sent b e Hs|sent e Hs Herr|sent Hs].
    - exists sent, tail. rewrite sent_batches_sends. split; [done|]. split; [done|].
      destruct Ht as [->|(b & -> & ? & ?)]; [by left|right]. exists b. split; [done|]. lia.
    - exists sent, [b]. rewrite sent_batches_app, sent_batches_sends. eauto 10.
    - exists sent, []. rewrite sent_batches_sends, app_nil_r. eauto.
    - exists sent, []. rewrite sent_batches_sends, app_nil_r. eauto. }
  destruct 1 as [tr r Hearly|p add sample n up e0 back e' Hup _ Hback
                 |p add sample n up post r Hup _ Hpost].
  - exists [], []. rewrite (early_sent_batches _ _ (text_early_early _ _ _ _ Hearly)). eauto.
  - rewrite !sent_batches_app, (prelude_sent_batches _ _ _ (text_prelude_of a p add sample n)),
      (rollback_sent_batches _ _ _ _ _ Hback), app_nil_r. cbn [app]. eauto.
  - change (?x :: post) with ([x] ++ post).
    rewrite !sent_batches_app, (prelude_sent_batches _ _ _ (text_prelude_of a p add sample n)),
      (post_sent_batches _ _ _ _ _ Hpost). cbn [app sent_batches omap list_omap]. rewrite app_nil_r. eauto.
Qed.

(** What is uploaded, against the records the iterator yields. *)
Lemma text_run_content bsz ds a it tr r recs :
  text_run DEFAULT b64int w bsz ds a it tr r ->
  points_to ds (it_items it) recs ->
  concat (sent_batches tr) `prefix_of` uploaded_records DEFAULT b64int a recs /\
  (text_upload_succeeded tr -> concat (sent_batches tr) = uploaded_records DEFAULT b64int a recs).
Proof.
  intros Hrun Hrecs.
  destruct Hrun as [tr r Hearly|p add sample n up e0 back e' Hup Hcontent Hback
                    |p add sample n up post r Hup Hcontent Hpost].
  - apply text_early_early in Hearly.
    rewrite (early_sent_batches _ _ Hearly). split; [apply prefix_nil|].
    intros Hin. by apply (early_marker _ _ Hearly) in Hin.
  - rewrite !sent_batches_app, (prelude_sent_batches _ _ _ (text_prelude_of a p add sample n)),
      (rollback_sent_batches _ _ _ _ _ Hback), app_nil_r. cbn [app].
    destruct (Hcontent recs Hrecs) as [Hpre _]. split; [done|].
    unfold text_upload_succeeded. rewrite !in_app_iff. intros [Hin|[Hin|Hin]]; exfalso.
    + by apply (prelude_marker _ _ _ (text_prelude_of a p add sample n)) in Hin.
    + eapply upload_events_logs; [by eapply upload_shape_events|done].
    + eapply (marker_in_rollback "Text upload succeeded."); [simpl; lia|done..].
  - change (?x :: post) with ([x] ++ post).
    rewrite !sent_batches_app, (prelude_sent_batches _ _ _ (text_prelude_of a p add sample n)),
      (post_sent_batches _ _ _ _ _ Hpost). cbn [app sent_batches omap list_omap]. rewrite app_nil_r.
    destruct (Hcontent recs Hrecs) as [Hpre Heq]. split; [done|]. intros _. by apply Heq.
Qed.

(** A failing validation comes right after the constructor and ends the run. *)
Lemma text_run_validation bsz ds a it tr r e :
  text_run DEFAULT b64int w bsz ds a it tr r ->
  validation_failed tr e ->
  r = Raise e /\ session_created tr /\
  exists sample,
    calls_of tr = [AtlasDataset_init (text_dataset_args DEFAULT w a);
                   validate_map_data_inputs (t_colorable_fields a)
                     (default DEFAULT (t_id_field a)) sample].
Proof.
  intros Hrun (cf & idf & smp & Hin).
  destruct Hrun as [tr r Hearly|p add sample n up e0 back e' Hup _ Hback
                    |p add sample n up post r Hup _ Hpost].
  - destruct Hearly as [| | | |p add sample e0|]; try (split_flags; close_in Hin; fail).
    unfold text_validate, text_id_field in *.
    split; [split_flags; close_in Hin|].
    split; [exists (text_dataset_args DEFAULT w a), p; split_flags; simpl; auto|].
    exists sample. by split_flags.
  - exfalso. rewrite !in_app_iff in Hin. destruct Hin as [Hin|[Hin|Hin]].
    + by apply (prelude_calls _ _ _ (text_prelude_of a p add sample n)) in Hin as [_ [? ?]].
    + by apply (upload_events_calls _ _ _ _ _ (upload_shape_events _ _ _ _ Hup)) in Hin.
    + by apply (rollback_shape_calls _ _ _ _ _ _ _ Hback) in Hin.
  - exfalso. rewrite !in_app_iff in Hin. simpl in Hin.
    destruct Hin as [Hin|[Hin|[Hin|Hin]]]; [| |done|].
    + by apply (prelude_calls _ _ _ (text_prelude_of a p add sample n)) in Hin as [_ [? ?]].
    + by apply (upload_events_calls _ _ _ _ _ (upload_shape_events _ _ _ _ Hup)) in Hin.
    + apply (post_shape_calls _ _ _ _ _ _ _ Hpost) in Hin as [?|[?|?]]; done.
Qed.

Lemma embeddings_prelude_of a p added n :
  prelude_of "Embedding upload succeeded." n (embeddings_prelude DEFAULT w a p added n).
Proof.
  split.
  - by split_flags.
  - intros c out Hin. split_flags; close_in Hin; eauto.
  - intros Hin. split_flags; close_in Hin.
Qed.

Lemma embeddings_run_phases content a emb tr r :
  embeddings_run DEFAULT w content a emb tr r ->
  phases "Embedding upload succeeded." embeddings_local (embeddings_index_args w a) false id tr r.
Proof.
  destruct 1 as [e|added e|added p e|added p n back e' Hback|added p n rs e back e' _ Hback
                 |added p n rs post r _ Hpost].
  4:{ rewrite <- (app_nil_l back). eapply phase_rollback;
        [apply embeddings_prelude_of| |done].
      by apply uploads_stop. }
  4:{ change (?x :: back) with ([x] ++ back). eapply phase_rollback;
        [apply embeddings_prelude_of| |done].
      by apply (uploads_raise _ []). }
  4:{ replace r with (map_result id r) by (by destruct r).
      change (?x :: ?y :: post) with ([x] ++ y :: post). eapply phase_index;
        [apply embeddings_prelude_of| |done].
      apply uploads_return; [|done]. constructor; [|done].
      by exists (add_embeddings emb rs). }
  all: apply phase_early; split;
    [by split_flags
    |intros c out Hin; split_flags; close_in Hin
    |intros Hin; split_flags; close_in Hin].
Qed.

End Conversions.

(** ** The identifier loop of [map_embeddings] *)

Section Embeddings.
Context (DEFAULT : string) (b64int : nat -> string) (w : world).

Lemma with_ids_length idf i recs : length (with_ids b64int idf i recs) = length recs.
Proof. unfold with_ids. by rewrite length_imap. Qed.

Lemma with_ids_snoc idf recs rc :
  with_ids b64int idf 0 (recs ++ [rc])
  = with_ids b64int idf 0 recs ++ [<[idf := VStr (b64int (length recs))]> rc].
Proof. unfold with_ids. rewrite imap_app. simpl. by rewrite Nat.add_0_r. Qed.

Lemma assign_id_step ds ls tr l idf refs recs k :
  l < length ls -> points_to ds refs recs -> k < length refs ->
  assign_id b64int l idf k (assigned b64int ds ls tr l idf refs recs k)
  = (Ok tt, assigned b64int ds ls tr l idf refs recs (S k)).
Proof.
  intros Hl Hrecs Hk.
  pose proof (Forall2_length _ _ _ Hrecs) as Hlen.
  destruct (lookup_lt_is_Some_2 refs k Hk) as [d Hd].
  destruct (lookup_lt_is_Some_2 recs k ltac:(lia)) as [rc Hrc].
  assert (ds !! d = Some rc) as Hdrc.
  { eapply Forall2_lookup_lr in Hrecs; eauto. }
  unfold assign_id, assigned.
  unfold bind at 1. unfold list_getitem at 1, bind at 1, list_get at 1. simpl.
  rewrite list_lookup_insert_eq by done.
  rewrite lookup_app_r by (rewrite length_seq; lia).
  rewrite length_seq, Nat.sub_diag, lookup_drop, Nat.add_0_r, Hd. unfold ret at 1.
  unfold bind at 1. unfold dict_copy, bind at 1, dict_get at 1. simpl.
  rewrite (lookup_app_l_Some _ _ _ _ Hdrc). unfold dict_new at 1. simpl.
  unfold bind at 1. unfold list_setitem at 1. simpl.
  rewrite list_lookup_insert_eq by done.
  rewrite bool_decide_eq_true_2
    by (rewrite length_app, length_seq, length_drop; lia).
  unfold bind at 1. unfold list_getitem at 1, bind at 1, list_get at 1. simpl.
  rewrite list_lookup_insert_eq by (by rewrite length_insert).
  rewrite list_insert_insert_eq.
  rewrite list_lookup_insert_eq
    by (rewrite length_app, length_seq, length_drop; lia).
  unfold ret at 1. unfold dict_setitem. simpl.
  rewrite !length_app, with_ids_length, length_take_le by lia.
  rewrite lookup_app_r by (rewrite length_app, with_ids_length, length_take_le; lia).
  rewrite length_app, with_ids_length, length_take_le, Nat.sub_diag by lia. simpl.
  f_equal. f_equal.
  - rewrite insert_app_r_alt
      by (rewrite length_app, with_ids_length, length_take_le; lia).
    rewrite length_app, with_ids_length, length_take_le, Nat.sub_diag by lia. simpl.
    rewrite (take_S_r _ _ _ Hrc), with_ids_snoc, length_take_le by lia.
    by rewrite <- app_assoc.
  - f_equal.
    rewrite insert_app_r_alt by (rewrite length_seq; lia).
    rewrite length_seq, Nat.sub_diag.
    rewrite (drop_S _ _ _ Hd).
    change (length ds :: (seq (S (length ds)) k ++ drop (S k) refs))
      with (seq (length ds) (S k) ++ drop (S k) refs).
    rewrite seq_S. simpl. by rewrite <- app_assoc.
Qed.

Lemma assign_id_loop ds ls tr l idf refs recs m : forall k,
  l < length ls -> points_to ds refs recs -> k + m <= length refs ->
  for_each (assign_id b64int l idf) (seq k m) (assigned b64int ds ls tr l idf refs recs k)
  = (Ok tt, assigned b64int ds ls tr l idf refs recs (k + m)).
Proof.
  induction m as [|m IH]; intros k Hl Hrecs Hk; simpl.
  - by rewrite Nat.add_0_r.
  - unfold bind at 1. rewrite assign_id_step; [|done|done|lia].
    rewrite IH; [|done|done|lia]. do 2 f_equal; lia.
Qed.

(** With the default identifier field missing from the first record,
    [prepare_data] replaces every slot of [data] by a copy that carries its
    position as identifier. *)
Lemma prepare_data_assigns emb ds ls tr l refs recs sample :
  ls !! l = Some refs -> points_to ds refs recs ->
  head recs = Some sample -> sample !! DEFAULT = None ->
  prepare_data DEFAULT b64int emb (Some l) DEFAULT (State ds ls tr)
  = (Ok (l, true),
     State (ds ++ with_ids b64int DEFAULT 0 recs)
           (<[l := seq (length ds) (length refs)]> ls) tr).
Proof.
  intros Hl Hrecs Hhead Hmiss.
  pose proof (Forall2_length _ _ _ Hrecs) as Hlen.
  destruct recs as [|s0 recs]; [done|]. injection Hhead as ->.
  destruct refs as [|d0 refs]; [done|].
  apply Forall2_cons_1 in Hrecs as Hd0. destruct Hd0 as [Hd0 _].
  unfold prepare_data. unfold bind at 1. unfold ret at 1. simpl.
  rewrite bool_decide_eq_true_2 by done.
  unfold bind at 1. unfold bind at 1. unfold list_getitem at 1, bind at 1, list_get at 1.
  simpl. rewrite Hl. simpl. unfold ret at 1.
  unfold dict_not_in, bind at 1, dict_get at 1. simpl. rewrite Hd0. unfold ret at 1.
  rewrite bool_decide_eq_true_2 by done.
  unfold bind at 1. unfold list_get at 1. simpl. rewrite Hl.
  unfold bind at 1.
  pose proof (assign_id_loop ds ls tr l DEFAULT (d0 :: refs) (sample :: recs)
                (length (d0 :: refs)) 0) as Hloop.
  unfold assigned in Hloop at 1. rewrite take_0, drop_0, app_nil_r in Hloop. simpl seq in Hloop.
  rewrite list_insert_id in Hloop by done. simpl in Hloop |- *.
  rewrite Hloop; [|by eapply lookup_lt_Some|done|simpl; lia].
  unfold ret, assigned.
  change (S (length refs)) with (length (d0 :: refs)).
  rewrite drop_all, app_nil_r, firstn_all2 by (simpl in *; lia). done.
Qed.

Lemma points_to_inj ds refs r1 r2 :
  points_to ds refs r1 -> points_to ds refs r2 -> r1 = r2.
Proof.
  intros H1. revert r2. induction H1 as [|d rc refs r1 Hd _ IH]; intros r2 H2.
  - by apply Forall2_nil_inv_l in H2.
  - apply Forall2_cons_inv_l in H2 as (rc' & r2' & Hd' & H2 & ->).
    f_equal; [congruence|by apply IH].
Qed.

Lemma points_to_fresh ds recs :
  points_to (ds ++ recs) (seq (length ds) (length recs)) recs.
Proof.
  revert ds. induction recs as [|rc recs IH]; intros ds; simpl; [constructor|].
  constructor; [by apply list_lookup_middle|].
  specialize (IH (ds ++ [rc])). rewrite <- app_assoc, length_app in IH. simpl in IH.
  by rewrite Nat.add_1_r in IH.
Qed.

(** Identifier synthesis in [map_embeddings]. *)
Lemma map_embeddings_ids emb l a ds ls refs recs sample :
  nd_size emb <> 0 ->
  default DEFAULT (e_id_field a) = DEFAULT ->
  ls !! l = Some refs -> points_to ds refs recs ->
  head recs = Some sample -> sample !! DEFAULT = None ->
  let run := map_embeddings DEFAULT b64int w emb (Some l) a (start ds ls) in
  (forall emb' rs out, In (EvCall (add_embeddings emb' rs) out) (st_trace run.2) ->
     rs = with_ids b64int DEFAULT 0 recs) /\
  exists refs', st_lists run.2 !! l = Some refs' /\
    points_to (st_dicts run.2) refs' (with_ids b64int DEFAULT 0 recs).
Proof.
  intros Hsize Hidf Hl Hrecs Hhead Hmiss run.
  destruct run as [r st'] eqn:Hrun. subst run. simpl.
  apply map_embeddings_run in Hrun as (Hrun & _ & Hheap).
  pose proof (prepare_data_assigns emb ds ls [] l refs recs sample Hl Hrecs Hhead Hmiss)
    as Hprep.
  rewrite <- Hidf in Hprep at 2. fold (start ds ls) in Hprep.
  pose proof (Forall2_length _ _ _ Hrecs) as Hlen.
  assert (points_to (ds ++ with_ids b64int DEFAULT 0 recs) (seq (length ds) (length refs))
            (with_ids b64int DEFAULT 0 recs)) as Hfresh.
  { rewrite Hlen, <- (with_ids_length DEFAULT 0 recs). apply points_to_fresh. }
  assert (forall rs, prepared_content DEFAULT b64int emb (Some l) a ds ls rs ->
                     rs = with_ids b64int DEFAULT 0 recs) as Hcontent.
  { intros rs Hrs. destruct (Hrs _ _ _ Hprep) as (refs' & Hrefs' & Hpt). simpl in *.
    rewrite list_lookup_insert_eq in Hrefs' by (by eapply lookup_lt_Some).
    injection Hrefs' as <-. by eapply points_to_inj. }
  split.
  - intros emb' rs out Hin.
    apply embeddings_run_phases in Hrun as Hph.
    destruct Hrun as [e|added e|added p e|added p n back e' Hback
                      |added p n rs0 e back e' Hrs Hback|added p n rs0 post r Hrs Hpost].
    1-3: split_flags; close_in Hin.
    + apply in_app_iff in Hin as [Hin|Hin].
      * by apply (prelude_calls _ _ _ (embeddings_prelude_of DEFAULT w a p added n)) in Hin as [? _].
      * by apply (rollback_shape_calls _ _ _ _ _ _ _ Hback) in Hin.
    + apply in_app_iff in Hin as [Hin|[Hin|Hin]].
      * by apply (prelude_calls _ _ _ (embeddings_prelude_of DEFAULT w a p added n)) in Hin as [? _].
      * injection Hin as <- <- <-. by apply Hcontent.
      * by apply (rollback_shape_calls _ _ _ _ _ _ _ Hback) in Hin.
    + apply in_app_iff in Hin as [Hin|[Hin|[Hin|Hin]]]; [| |done|].
      * by apply (prelude_calls _ _ _ (embeddings_prelude_of DEFAULT w a p added n)) in Hin as [? _].
      * injection Hin as <- <- <-. by apply Hcontent.
      * apply (post_shape_calls _ _ _ _ _ _ _ Hpost) in Hin as [?|[?|?]]; done.
  - destruct (Hheap Hsize _ _ _ Hprep) as [-> ->]. simpl.
    exists (seq (length ds) (length refs)). split; [|done].
    apply list_lookup_insert_eq. by eapply lookup_lt_Some.
Qed.

End Embeddings.

(** ** Deprecation warnings do not influence a run *)

Section Respect.
Context (DEFAULT : string) (b64int : nat -> string) (w : world).

Lemma agree_refl {A} (x : result A * state) : agree x x.
Proof. done. Qed.

Lemma without_cons ev tr :
  without_deprecations (ev :: tr)
  = if is_deprecation ev then without_deprecations tr else ev :: without_deprecations tr.
Proof. unfold without_deprecations. simpl. by destruct (is_deprecation ev). Qed.

Lemma calls_of_cons ev tr :
  calls_of (ev :: tr)
  = match ev with EvCall c _ => c :: calls_of tr | EvLog _ _ => calls_of tr end.
Proof. by destruct ev. Qed.

Lemma call_events_cons ev tr :
  call_events (ev :: tr)
  = match ev with EvCall _ _ => ev :: call_events tr | EvLog _ _ => call_events tr end.
Proof. by destruct ev. Qed.

Lemma calls_of_without tr : calls_of (without_deprecations tr) = calls_of tr.
Proof.
  induction tr as [|ev tr IH]; [done|]. rewrite without_cons.
  destruct (is_deprecation ev) eqn:Hev; rewrite ?calls_of_cons, IH; [|done].
  by destruct ev.
Qed.

Lemma call_events_without tr : call_events (without_deprecations tr) = call_events tr.
Proof.
  induction tr as [|ev tr IH]; [done|]. rewrite without_cons.
  destruct (is_deprecation ev) eqn:Hev; rewrite ?call_events_cons, IH; [|done].
  by destruct ev.
Qed.

Lemma without_app tr1 tr2 :
  without_deprecations (tr1 ++ tr2) = without_deprecations tr1 ++ without_deprecations tr2.
Proof. apply List.filter_app. Qed.

Lemma sim_calls st1 st2 : sim st1 st2 -> calls_of (st_trace st1) = calls_of (st_trace st2).
Proof. intros (_ & _ & Ht). by rewrite <- calls_of_without, Ht, calls_of_without. Qed.

Lemma sim_emit st1 st2 evs :
  sim st1 st2 ->
  sim (State (st_dicts st1) (st_lists st1) (st_trace st1 ++ evs))
      (State (st_dicts st2) (st_lists st2) (st_trace st2 ++ evs)).
Proof. intros (Hd & Hl & Ht). repeat split; [done..|]. simpl. by rewrite !without_app, Ht. Qed.

Lemma resp_ret {A} (a : A) : resp (ret a).
Proof. intros st1 st2 H. by split. Qed.

Lemma resp_raise {A} e : resp (@raise A e).
Proof. intros st1 st2 H. by split. Qed.

Lemma agree_bind {A B} (m1 m2 : M A) (k1 k2 : A -> M B) st1 st2 :
  agree (m1 st1) (m2 st2) ->
  (forall a st1' st2', sim st1' st2' -> agree (k1 a st1') (k2 a st2')) ->
  agree (bind m1 k1 st1) (bind m2 k2 st2).
Proof.
  unfold bind. destruct (m1 st1) as [[a1|e1] st1'], (m2 st2) as [[a2|e2] st2'];
    intros [Hr Hs] Hk; simpl in *; try done.
  - injection Hr as ->. by apply Hk.
  - injection Hr as ->. by split.
Qed.

Lemma agree_bind_same {A B} (m : M A) (k1 k2 : A -> M B) st :
  (forall a st', agree (k1 a st') (k2 a st')) ->
  agree (bind m k1 st) (bind m k2 st).
Proof. unfold bind. destruct (m st) as [[a|e] st']; intros Hk; [apply Hk|done]. Qed.

Lemma resp_bind {A B} (m : M A) (k : A -> M B) :
  resp m -> (forall a, resp (k a)) -> resp (bind m k).
Proof.
  intros Hm Hk st1 st2 H. apply agree_bind; [by apply Hm|]. intros a ? ? ?. by apply Hk.
Qed.

Lemma resp_try_except {A} (body : M A) catches handler :
  resp body -> (forall e, resp (handler e)) -> resp (try_except body catches handler).
Proof.
  intros Hb Hh st1 st2 H. specialize (Hb _ _ H). unfold try_except.
  destruct (body st1) as [[a1|e1] st1'], (body st2) as [[a2|e2] st2'];
    destruct Hb as [Hr Hs]; simpl in *; try done.
  injection Hr as ->. destruct (catches e2); [by apply Hh|by split].
Qed.

Lemma resp_if {A} (b : bool) (m1 m2 : M A) :
  resp m1 -> resp m2 -> resp (if b then m1 else m2).
Proof. by destruct b. Qed.

Lemma resp_when b m : resp m -> resp (when b m).
Proof. intros. apply resp_if; [done|apply resp_ret]. Qed.

Lemma resp_log lvl msg : resp (log lvl msg).
Proof. intros st1 st2 H. split; [done|]. by apply sim_emit. Qed.

Lemma resp_invoke c : resp (invoke w c).
Proof.
  intros st1 st2 H. unfold invoke. rewrite (sim_calls _ _ H).
  destruct (w_raises w _); (split; [done|]); by apply sim_emit.
Qed.

Lemma resp_dict_get d : resp (dict_get d).
Proof.
  intros st1 st2 H. unfold dict_get. destruct H as (Hd & ? & ?). rewrite Hd.
  destruct (_ !! _); by split.
Qed.

Lemma resp_dict_new rc : resp (dict_new rc).
Proof.
  intros st1 st2 (Hd & Hl & Ht). unfold dict_new. rewrite Hd. split; [done|]. by split.
Qed.

Lemma resp_dict_setitem d k v : resp (dict_setitem d k v).
Proof.
  intros st1 st2 (Hd & Hl & Ht). unfold dict_setitem. rewrite Hd.
  destruct (_ !! _); (split; [done|]); by split.
Qed.

Lemma resp_list_get l : resp (list_get l).
Proof.
  intros st1 st2 H. unfold list_get. destruct H as (? & Hl & ?). rewrite Hl.
  destruct (_ !! _); by split.
Qed.

#[local] Hint Resolve resp_ret resp_raise resp_bind resp_try_except resp_if resp_when resp_log
  resp_invoke resp_dict_get resp_dict_new resp_dict_setitem resp_list_get : resp.

Lemma resp_snapshot ds : resp (snapshot ds).
Proof. induction ds; simpl; auto 10 with resp. Qed.

#[local] Hint Resolve resp_snapshot : resp.

Lemma resp_with_id add idf d i : resp (with_id b64int add idf d i).
Proof. unfold with_id, dict_copy. auto 10 with resp. Qed.

Lemma resp_send_text batch : resp (send_text w batch).
Proof. unfold send_text. auto 10 with resp. Qed.

#[local] Hint Resolve resp_with_id resp_send_text : resp.

Lemma resp_upload_loop bsz add idf items : forall batch i,
  resp (upload_loop b64int w bsz add idf items batch i).
Proof. induction items; intros batch i; simpl; auto 10 with resp. Qed.

#[local] Hint Resolve resp_upload_loop : resp.

Lemma resp_text_upload bsz add idf first it :
  resp (text_upload b64int w bsz add idf first it).
Proof. unfold text_upload. destruct (it_error it); auto 10 with resp. Qed.

Lemma resp_rollback {A} n label e : resp (@rollback w A n label e).
Proof. unfold rollback. auto 10 with resp. Qed.

Lemma resp_embeddings_upload emb data : resp (embeddings_upload w emb data).
Proof. unfold embeddings_upload. auto 10 with resp. Qed.

#[local] Hint Resolve resp_text_upload resp_rollback resp_embeddings_upload : resp.

Lemma agree_deprecation b1 b2 msg st1 st2 :
  is_deprecation (EvLog WARNING msg) = true -> sim st1 st2 ->
  agree (when b1 (log WARNING msg) st1) (when b2 (log WARNING msg) st2).
Proof.
  intros Hdep (Hd & Hl & Ht). rewrite !when_log_run. split; [done|]. repeat split; [done..|].
  assert (forall b, without_deprecations (warn_if b msg) = []) as Hnone.
  { intros []; [|done]. unfold warn_if. by rewrite without_cons, Hdep. }
  cbn [snd st_trace]. by rewrite !without_app, Ht, !Hnone.
Qed.

Lemma text_deprecated_ignored bsz it a s1 n1 s2 n2 ds ls :
  agree (map_text_with DEFAULT b64int w bsz it (text_with_deprecated a s1 n1) (start ds ls))
        (map_text_with DEFAULT b64int w bsz it (text_with_deprecated a s2 n2) (start ds ls)).
Proof.
  unfold map_text_with. apply agree_bind_same. intros [[first rest]|] st0; [|apply agree_refl].
  apply agree_bind_same. intros h st1. cbn [t_id_field text_with_deprecated].
  apply agree_bind_same. intros add st2.
  apply agree_bind_same. intros [] st3.
  apply agree_bind_same. intros sample st4. cbn [t_colorable_fields text_with_deprecated].
  apply agree_bind_same. intros h1 st5.
  apply agree_bind_same. intros h2 st6.
  apply agree_bind_same. intros [] st7.
  apply agree_bind; [by apply agree_deprecation|]. intros [] st8 st8' Hs8.
  apply agree_bind; [by apply agree_deprecation|]. intros [] st9 st9' Hs9.
  revert st9 st9' Hs9.
  match goal with |- forall st1 st2, sim st1 st2 -> agree (?m1 st1) (?m2 st2) =>
    change (resp m1) end.
  unfold text_index_args, chosen_name. cbn -[resp text_upload rollback].
  apply resp_bind; [auto with resp|]. intros [].
  apply resp_bind; [auto with resp|]. intros [].
  apply resp_bind; [apply resp_if; auto 10 with resp|]. intros [].
  auto 10 with resp.
Qed.

Lemma embeddings_deprecated_ignored emb data a s1 n1 s2 n2 ds ls :
  agree (map_embeddings DEFAULT b64int w emb data (embeddings_with_deprecated a s1 n1)
           (start ds ls))
        (map_embeddings DEFAULT b64int w emb data (embeddings_with_deprecated a s2 n2)
           (start ds ls)).
Proof.
  unfold map_embeddings. case_bool_decide; [apply agree_refl|].
  cbn [e_id_field embeddings_with_deprecated].
  apply agree_bind_same. intros p st0.
  apply agree_bind_same. intros [] st1.
  apply agree_bind_same. intros h1 st2.
  apply agree_bind_same. intros h2 st3.
  apply agree_bind_same. intros [] st4.
  apply agree_bind; [by apply agree_deprecation|]. intros [] st5 st5' Hs5.
  apply agree_bind; [by apply agree_deprecation|]. intros [] st6 st6' Hs6.
  revert st6 st6' Hs6.
  match goal with |- forall st1 st2, sim st1 st2 -> agree (?m1 st1) (?m2 st2) =>
    change (resp m1) end.
  apply resp_bind; [auto with resp|]. intros [].
  apply resp_bind; [auto with resp|]. intros [].
  apply resp_bind; [apply resp_if; auto 10 with resp|]. intros [].
  auto 10 with resp.
Qed.

End Respect.

(** * The claims *)

Ltac pick_event := repeat first [left; reflexivity | right].

Section Claims.
Context (ATLAS_DEFAULT_ID_FIELD : string) (b64int : nat -> string) (w : world).

Local Abbreviation DEFAULT := ATLAS_DEFAULT_ID_FIELD.

Lemma batch_size_gt_1 : (1 < upload_batch_size)%Z.
Proof. unfold upload_batch_size. lia. Qed.

Lemma identifiers_with_ids idf i recs :
  identifiers idf (with_ids b64int idf i recs) = encoded_ids b64int i (length recs).
Proof.
  revert i. induction recs as [|rc recs IH]; intros i; [done|].
  rewrite with_ids_cons. unfold identifiers, encoded_ids in *. simpl.
  by rewrite lookup_insert_eq, IH.
Qed.

Lemma NoDup_encoded_ids n :
  (forall i j, b64int i = b64int j -> i = j) -> NoDup (encoded_ids b64int 0 n).
Proof.
  intros Hinj. unfold encoded_ids. apply NoDup_fmap_2; [|apply NoDup_seq].
  intros i j [= Hij]. by apply Hinj.
Qed.

Lemma identifiers_prefix idf rs1 rs2 :
  rs1 `prefix_of` rs2 -> identifiers idf rs1 `prefix_of` identifiers idf rs2.
Proof. intros [k ->]. unfold identifiers. rewrite fmap_app. by apply prefix_app_r. Qed.

Lemma NoDup_prefix {A} (l1 l2 : list A) : l1 `prefix_of` l2 -> NoDup l2 -> NoDup l1.
Proof. intros [k ->] H. by apply NoDup_app in H as [? _]. Qed.

Lemma agree_same_but_warnings {A} (x y : result A * state) :
  agree x y -> same_but_warnings x y.
Proof.
  intros (Hr & Hd & Hl & Ht). repeat split; [done..| |done].
  by rewrite <- call_events_without, Ht, call_events_without.
Qed.

(** [map_text] never writes to an object of the caller: lists are untouched
    and the dict store only grows. *)
Lemma map_text_leaves_heap it a ds ls :
  let run := map_text DEFAULT b64int w it a (start ds ls) in
  st_lists run.2 = ls /\ ds `prefix_of` st_dicts run.2.
Proof.
  intros run. destruct run as [r st'] eqn:Hrun. subst run.
  by apply map_text_run in Hrun as (_ & ? & ?); [|apply batch_size_gt_1].
Qed.

(** [map_embeddings] never writes to a dict of the caller. *)
Lemma map_embeddings_leaves_records emb data ea ds ls :
  let run := map_embeddings DEFAULT b64int w emb data ea (start ds ls) in
  ds `prefix_of` st_dicts run.2.
Proof.
  intros run. destruct run as [r st'] eqn:Hrun. subst run.
  by apply map_embeddings_run in Hrun as (_ & ? & _).
Qed.

(** C1 (amended).  When an add-records call raises [e], the value
    [total_datums] had before the upload decides the rollback: if it was 0,
    [delete] is called exactly once, [e] reaches the caller when [delete]
    returns, and the error of [delete] reaches the caller when [delete]
    itself raises; otherwise [delete] is never called and [e] reaches the
    caller.  This holds for [map_text] and for [map_embeddings]. *)
Theorem rollback_on_add_records_failure it a emb data ea ds ls e :
  (let run := map_text DEFAULT b64int w it a (start ds ls) in
   add_records_raised (st_trace run.2) e ->
   rollback_policy (st_trace run.2) run.1 e) /\
  (let run := map_embeddings DEFAULT b64int w emb data ea (start ds ls) in
   add_records_raised (st_trace run.2) e ->
   rollback_policy (st_trace run.2) run.1 e).
Proof.
  split; intros run; destruct run as [r st'] eqn:Hrun; subst run; cbn [fst snd].
  - apply map_text_run in Hrun as (Hrun & _); [|apply batch_size_gt_1].
    apply text_run_phases in Hrun. by eapply phases_rollback.
  - apply map_embeddings_run in Hrun as (Hrun & _).
    apply embeddings_run_phases in Hrun. by eapply phases_rollback.
Qed.

(** C2.  When the identifier field is the default one and the first record
    lacks it, the records [map_text] sends carry, in order and across
    batches, the identifiers [b64int 0], [b64int 1], ...: always a prefix of
    them, and all [N] of them once the upload has succeeded; they are
    pairwise distinct when [b64int] is injective.  [map_embeddings] stores
    and sends the [N] records with the identifiers [b64int 0 .. b64int (N-1)]. *)
Theorem synthesized_identifiers it a ds ls recs sample emb l ea refs erecs esample :
  (points_to ds (it_items it) recs -> head recs = Some sample ->
   default DEFAULT (t_id_field a) = DEFAULT -> sample !! DEFAULT = None ->
   let tr := st_trace (map_text DEFAULT b64int w it a (start ds ls)).2 in
   let ids := identifiers DEFAULT (concat (sent_batches tr)) in
   ids `prefix_of` encoded_ids b64int 0 (length recs) /\
   (text_upload_succeeded tr -> ids = encoded_ids b64int 0 (length recs)) /\
   ((forall i j, b64int i = b64int j -> i = j) -> NoDup ids)) /\
  (nd_size emb <> 0 -> default DEFAULT (e_id_field ea) = DEFAULT ->
   ls !! l = Some refs -> points_to ds refs erecs ->
   head erecs = Some esample -> esample !! DEFAULT = None ->
   let run := map_embeddings DEFAULT b64int w emb (Some l) ea (start ds ls) in
   (forall emb' rs out, In (EvCall (add_embeddings emb' rs) out) (st_trace run.2) ->
      identifiers DEFAULT rs = encoded_ids b64int 0 (length erecs)) /\
   (exists refs' rs, st_lists run.2 !! l = Some refs' /\
      points_to (st_dicts run.2) refs' rs /\
      identifiers DEFAULT rs = encoded_ids b64int 0 (length erecs)) /\
   ((forall i j, b64int i = b64int j -> i = j) ->
    NoDup (encoded_ids b64int 0 (length erecs)))).
Proof.
  split.
  - intros Hrecs Hhead Hidf Hmiss tr ids. subst tr ids.
    destruct (map_text _ _ _ _ _ _) as [r st'] eqn:Hrun. cbn [snd].
    apply map_text_run in Hrun as (Hrun & _); [|apply batch_size_gt_1].
    destruct (text_run_content _ _ _ _ _ _ _ _ _ recs Hrun Hrecs) as [Hpre Heq].
    assert (uploaded_records DEFAULT b64int a recs = with_ids b64int DEFAULT 0 recs) as Hup.
    { destruct recs as [|s0 recs]; [done|]. injection Hhead as ->.
      unfold uploaded_records, needs_id, text_id_field. rewrite Hidf.
      by rewrite !bool_decide_eq_true_2. }
    rewrite Hup in Hpre, Heq.
    assert (identifiers DEFAULT (concat (sent_batches (st_trace st')))
            `prefix_of` encoded_ids b64int 0 (length recs)) as Hids.
    { rewrite <- (identifiers_with_ids DEFAULT). by apply identifiers_prefix. }
    split; [done|]. split.
    + intros Hok. by rewrite (Heq Hok), identifiers_with_ids.
    + intros Hinj. eapply NoDup_prefix; [done|]. by apply NoDup_encoded_ids.
  - intros Hsize Hidf Hl Hrecs Hhead Hmiss run.
    destruct (map_embeddings_ids DEFAULT b64int w emb l ea ds ls refs erecs esample
                Hsize Hidf Hl Hrecs Hhead Hmiss) as [Hsent (refs' & Hrefs' & Hpt)].
    fold run in Hsent, Hrefs', Hpt. split; [|split].
    + intros emb' rs out Hin. rewrite (Hsent _ _ _ Hin). apply identifiers_with_ids.
    + exists refs', (with_ids b64int DEFAULT 0 erecs). split; [done|]. split; [done|].
      apply identifiers_with_ids.
    + apply NoDup_encoded_ids.
Qed.

(** C3.  Every batch [map_text] hands to [add_text] is non-empty and has at
    most 100,000 records, and every batch but the last has exactly 100,000. *)
Theorem batch_size_invariant it a ds ls :
  let batches := sent_batches (st_trace (map_text DEFAULT b64int w it a (start ds ls)).2) in
  Forall (fun b => 0 < length b /\ (Z.of_nat (length b) <= 100000)%Z) batches /\
  forall i b, batches !! i = Some b -> S i < length batches ->
              Z.of_nat (length b) = 100000%Z.
Proof.
  intros batches. subst batches.
  destruct (map_text _ _ _ _ _ _) as [r st'] eqn:Hrun. cbn [snd].
  apply map_text_run in Hrun as (Hrun & _); [|apply batch_size_gt_1].
  apply text_run_batches in Hrun as (sent & tail & -> & Hsent & Htail).
  change 100000%Z with upload_batch_size. pose proof batch_size_gt_1 as Hbs.
  split.
  - apply Forall_app. split.
    + eapply Forall_impl; [exact Hsent|]. unfold full_batch. intros b Hb. lia.
    + destruct Htail as [->|(b & -> & ? & ?)]; repeat constructor; done.
  - intros i b Hb Hi. rewrite length_app in Hi.
    assert (i < length sent) as Hlt.
    { destruct Htail as [->|(b' & -> & _)]; simpl in Hi; lia. }
    rewrite lookup_app_l in Hb by done.
    rewrite Forall_lookup in Hsent. exact (Hsent _ _ Hb).
Qed.

(** C4.  The batches [map_text] sends, concatenated in the order they are
    sent, are a prefix of the records the iterator yields (with identifiers
    added when they are synthesised), and are exactly these records once
    the upload has succeeded. *)
Theorem batches_reconstruct_input it a ds ls recs :
  points_to ds (it_items it) recs ->
  let tr := st_trace (map_text DEFAULT b64int w it a (start ds ls)).2 in
  concat (sent_batches tr) `prefix_of` uploaded_records DEFAULT b64int a recs /\
  (text_upload_succeeded tr ->
   concat (sent_batches tr) = uploaded_records DEFAULT b64int a recs).
Proof.
  intros Hrecs tr. subst tr.
  destruct (map_text _ _ _ _ _ _) as [r st'] eqn:Hrun. cbn [snd].
  apply map_text_run in Hrun as (Hrun & _); [|apply batch_size_gt_1].
  by eapply text_run_content.
Qed.

(** C5 (amended).  After an upload that succeeded, exactly one
    index-building call is made in the whole run: [create_index] with the
    caller's parameters when [total_datums] was 0 before the upload,
    [rebuild_maps] otherwise.  It is the first call after the last
    add-records call and, when it returns, it is followed by one
    [_latest_project_state] call and by nothing else.  What that call
    returns is what the run returns, and what it raises is what the run
    raises. *)
Theorem index_after_upload it a emb data ea ds ls :
  (let run := map_text DEFAULT b64int w it a (start ds ls) in
   text_upload_succeeded (st_trace run.2) ->
   index_policy (text_index_args w a) (st_trace run.2) /\
   returns_latest Some (st_trace run.2) run.1) /\
  (let run := map_embeddings DEFAULT b64int w emb data ea (start ds ls) in
   embedding_upload_succeeded (st_trace run.2) ->
   index_policy (embeddings_index_args w ea) (st_trace run.2) /\
   returns_latest id (st_trace run.2) run.1).
Proof.
  split; intros run; destruct run as [r st'] eqn:Hrun; subst run; cbn [fst snd]; intros Hok.
  - apply map_text_run in Hrun as (Hrun & _); [|apply batch_size_gt_1].
    apply text_run_phases in Hrun.
    split; [eapply phases_index|eapply phases_returns]; try done; simpl; lia.
  - apply map_embeddings_run in Hrun as (Hrun & _).
    apply embeddings_run_phases in Hrun.
    split; [eapply phases_index|eapply phases_returns]; try done; simpl; lia.
Qed.

(** C6 (amended).  On an iterator that yields nothing, [map_text] returns
    [None], makes no call and logs one warning.  On an array of size 0,
    [map_embeddings] raises [Exception("Your embeddings cannot be empty")]
    before any call or log line. *)
Theorem empty_input it a emb data ea ds ls :
  (it_items it = [] -> it_error it = None ->
   map_text DEFAULT b64int w it a (start ds ls)
   = (Ok None,
      State ds ls [EvLog WARNING "Passed data has no samples. No dataset will be created"])) /\
  (nd_size emb = 0 ->
   map_embeddings DEFAULT b64int w emb data ea (start ds ls)
   = (Raise (Exn (ExceptionClass "Exception") "Your embeddings cannot be empty"),
      start ds ls)).
Proof.
  split.
  - intros Hitems Herr. unfold map_text, map_text_with, next_or_None.
    unfold bind at 1. by rewrite Hitems, Herr.
  - intros Hsize. unfold map_embeddings. by rewrite bool_decide_eq_true_2.
Qed.

(** C7 (amended).  When [_validate_map_data_inputs] raises in [map_text],
    the dataset object has already been constructed: the constructor is the
    one call made before the validation, no call follows it (no
    [total_datums], no add-records, no [delete]), and the validation error
    reaches the caller. *)
Theorem validation_failure it a ds ls e :
  let run := map_text DEFAULT b64int w it a (start ds ls) in
  validation_failed (st_trace run.2) e ->
  run.1 = Raise e /\ session_created (st_trace run.2) /\
  exists sample,
    calls_of (st_trace run.2)
    = [AtlasDataset_init (text_dataset_args DEFAULT w a);
       validate_map_data_inputs (t_colorable_fields a) (default DEFAULT (t_id_field a)) sample].
Proof.
  intros run. destruct run as [r st'] eqn:Hrun. subst run. cbn [fst snd].
  apply map_text_run in Hrun as (Hrun & _); [|apply batch_size_gt_1].
  by eapply text_run_validation.
Qed.

(** C9.  Two calls that differ only in [shard_size] and [num_workers] give
    the same result, leave the same heap, make the same calls with the same
    answers, and write the same log up to the deprecation warnings. *)
Theorem deprecated_options_ignored it a emb data ea s1 n1 s2 n2 ds ls :
  same_but_warnings
    (map_text DEFAULT b64int w it (text_with_deprecated a s1 n1) (start ds ls))
    (map_text DEFAULT b64int w it (text_with_deprecated a s2 n2) (start ds ls)) /\
  same_but_warnings
    (map_embeddings DEFAULT b64int w emb data (embeddings_with_deprecated ea s1 n1) (start ds ls))
    (map_embeddings DEFAULT b64int w emb data (embeddings_with_deprecated ea s2 n2) (start ds ls)).
Proof.
  split; apply agree_same_but_warnings.
  - apply text_deprecated_ignored.
  - apply embeddings_deprecated_ignored.
Qed.

End Claims.

(** ** The claims on concrete runs *)

Ltac raised_call := vm_compute; eexists; split; [|pick_event]; reflexivity.

(** Batching with a batch size of 2: five records, the first two given
    twice, go out as batches of 2, 2 and 1 with the identifiers 0 to 4. *)
Example batches_of_two :
  map (map map_to_list)
    (sent_batches
       (st_trace (map_text_with "id_" decimal (calm 0) 2 (Iterator [0; 1; 2; 0; 1] None)
                    example_text_args (start example_records example_lists)).2))
  = [ [ [("id_", VStr "0"); ("text", VStr "a")]; [("id_", VStr "1"); ("text", VStr "b")] ];
      [ [("id_", VStr "2"); ("text", VStr "c")]; [("id_", VStr "3"); ("text", VStr "a")] ];
      [ [("id_", VStr "4"); ("text", VStr "b")] ] ].
Proof. vm_compute. reflexivity. Qed.

Lemma example_points_to : points_to example_records [0; 1; 2] example_records.
Proof. repeat constructor. Qed.

(** C1, witness: the upload to a fresh dataset fails, [delete] returns. *)
Lemma rollback_on_add_records_failure_witness :
  (add_records_raised (st_trace (text_example (add_fails upload_error 0)).2) upload_error /\
   rollback_policy (st_trace (text_example (add_fails upload_error 0)).2)
     (text_example (add_fails upload_error 0)).1 upload_error) /\
  (add_records_raised (st_trace (embeddings_example (add_fails upload_error 0)).2) upload_error /\
   rollback_policy (st_trace (embeddings_example (add_fails upload_error 0)).2)
     (embeddings_example (add_fails upload_error 0)).1 upload_error).
Proof.
  destruct (rollback_on_add_records_failure "id_" decimal (add_fails upload_error 0)
              example_iterator example_text_args example_embeddings (Some 0)
              example_embeddings_args example_records example_lists upload_error)
    as [Htext Hemb].
  assert (add_records_raised (st_trace (text_example (add_fails upload_error 0)).2)
            upload_error) as H1 by raised_call.
  assert (add_records_raised (st_trace (embeddings_example (add_fails upload_error 0)).2)
            upload_error) as H2 by raised_call.
  split; (split; [assumption|]).
  - exact (Htext H1).
  - exact (Hemb H2).
Defined.

(** C1 as stated fails: on a fresh dataset where [add_text] raises
    [upload_error] and [delete] raises [delete_error], the caller gets
    [delete_error], not the original error. *)
Lemma rollback_claim_counterexample :
  add_records_raised (st_trace (text_example add_and_delete_fail).2) upload_error /\
  number_of_datums_before_upload (st_trace (text_example add_and_delete_fail).2) = Some 0%Z /\
  count_calls is_delete (st_trace (text_example add_and_delete_fail).2) = 1 /\
  (text_example add_and_delete_fail).1 = Raise delete_error /\
  (text_example add_and_delete_fail).1 <> Raise upload_error.
Proof.
  split; [raised_call|].
  split; [vm_compute; reflexivity|]. split; [vm_compute; reflexivity|].
  split; [vm_compute; reflexivity|].
  vm_compute. discriminate.
Qed.

Ltac not_in_trace :=
  vm_compute; let H := fresh in
  intros H; repeat (destruct H as [H|H]; [discriminate H|]); exact H.

(** C2, witness: three records without identifiers, default identifier
    field. *)
Lemma synthesized_identifiers_witness :
  identifiers "id_" (concat (sent_batches (st_trace (text_example (calm 0)).2)))
  = encoded_ids decimal 0 3 /\
  (forall emb' rs out,
     In (EvCall (add_embeddings emb' rs) out) (st_trace (embeddings_example (calm 0)).2) ->
     identifiers "id_" rs = encoded_ids decimal 0 3).
Proof.
  destruct (synthesized_identifiers "id_" decimal (calm 0) example_iterator example_text_args
              example_records example_lists example_records {[ "text" := VStr "a" ]}
              example_embeddings 0 example_embeddings_args [0; 1; 2] example_records
              {[ "text" := VStr "a" ]}) as [Htext Hemb].
  split.
  - destruct (Htext example_points_to eq_refl eq_refl eq_refl) as (_ & Heq & _).
    apply Heq. vm_compute. pick_event.
  - assert (nd_size example_embeddings <> 0) as Hsize by (vm_compute; discriminate).
    destruct (Hemb Hsize eq_refl eq_refl example_points_to eq_refl eq_refl) as (Hsent & _).
    exact Hsent.
Defined.

(** C4, witness: the three records go out in one batch, with identifiers. *)
Lemma batches_reconstruct_input_witness :
  points_to example_records (it_items example_iterator) example_records /\
  concat (sent_batches (st_trace (text_example (calm 0)).2))
  = uploaded_records "id_" decimal example_text_args example_records.
Proof.
  split; [exact example_points_to|].
  apply (batches_reconstruct_input "id_" decimal (calm 0) example_iterator example_text_args
           example_records example_lists example_records example_points_to).
  vm_compute. pick_event.
Defined.

(** C5, witness: a fresh dataset for [map_text], a dataset of 500 records
    for [map_embeddings]. *)
Lemma index_after_upload_witness :
  (text_upload_succeeded (st_trace (text_example (refreshed 0)).2) /\
   index_policy (text_index_args (refreshed 0) example_text_args)
     (st_trace (text_example (refreshed 0)).2) /\
   returns_latest Some (st_trace (text_example (refreshed 0)).2)
     (text_example (refreshed 0)).1) /\
  (embedding_upload_succeeded (st_trace (embeddings_example (refreshed 500)).2) /\
   index_policy (embeddings_index_args (refreshed 500) example_embeddings_args)
     (st_trace (embeddings_example (refreshed 500)).2) /\
   returns_latest id (st_trace (embeddings_example (refreshed 500)).2)
     (embeddings_example (refreshed 500)).1).
Proof.
  assert (text_upload_succeeded (st_trace (text_example (refreshed 0)).2)) as H1
    by (vm_compute; pick_event).
  assert (embedding_upload_succeeded (st_trace (embeddings_example (refreshed 500)).2)) as H2
    by (vm_compute; pick_event).
  split; (split; [assumption|]).
  - exact (proj1 (index_after_upload "id_" decimal (refreshed 0) example_iterator
                    example_text_args example_embeddings (Some 0) example_embeddings_args
                    example_records example_lists) H1).
  - exact (proj2 (index_after_upload "id_" decimal (refreshed 500) example_iterator
                    example_text_args example_embeddings (Some 0) example_embeddings_args
                    example_records example_lists) H2).
Defined.

(** C5 as stated fails: after a successful upload to a fresh dataset two
    calls follow the last [add_text], [create_index] and
    [_latest_project_state]. *)
Lemma index_claim_counterexample :
  text_upload_succeeded (st_trace (text_example (calm 0)).2) /\
  post_upload_calls (calls_of (st_trace (text_example (calm 0)).2))
  = Some [create_index (text_index_args (calm 0) example_text_args); latest_project_state] /\
  (forall c, post_upload_calls (calls_of (st_trace (text_example (calm 0)).2)) <> Some [c]).
Proof.
  split; [vm_compute; pick_event|].
  split; [vm_compute; reflexivity|].
  intros c. vm_compute. discriminate.
Qed.

(** In these runs the caller gets the object [_latest_project_state]
    returned, not the one the constructor returned. *)
Example refreshed_dataset_is_returned :
  In (EvCall (AtlasDataset_init (text_dataset_args "id_" (refreshed 0) example_text_args))
        (Ok (RDataset (Dataset "org/news" "news"))))
    (st_trace (text_example (refreshed 0)).2) /\
  (text_example (refreshed 0)).1 = Ok (Some (Dataset "org/news" "news (refreshed)")) /\
  (embeddings_example (refreshed 500)).1 = Ok (Dataset "org/news" "news (refreshed)").
Proof. split; [vm_compute; pick_event|]. split; vm_compute; reflexivity. Qed.

(** C6, witness: an empty iterator and an array of shape (0, 3). *)
Lemma empty_input_witness :
  map_text "id_" decimal (calm 0) (Iterator [] None) example_text_args
    (start example_records example_lists)
  = (Ok None,
     State example_records example_lists
       [EvLog WARNING "Passed data has no samples. No dataset will be created"]) /\
  map_embeddings "id_" decimal (calm 0) (NdArray [0; 3] []) None example_embeddings_args
    (start example_records example_lists)
  = (Raise (Exn (ExceptionClass "Exception") "Your embeddings cannot be empty"),
     start example_records example_lists).
Proof.
  destruct (empty_input "id_" decimal (calm 0) (Iterator [] None) example_text_args
              (NdArray [0; 3] []) None example_embeddings_args example_records example_lists)
    as [Htext Hemb].
  split; [exact (Htext eq_refl eq_refl)|exact (Hemb eq_refl)].
Defined.

(** C6 as stated fails on the embeddings path: an array with no rows raises
    an exception. *)
Lemma empty_embeddings_counterexample :
  nd_size (NdArray [0; 3] []) = 0 /\
  (map_embeddings "id_" decimal (calm 0) (NdArray [0; 3] []) None example_embeddings_args
     (start [] [])).1
  = Raise (Exn (ExceptionClass "Exception") "Your embeddings cannot be empty") /\
  (forall p,
     (map_embeddings "id_" decimal (calm 0) (NdArray [0; 3] []) None
        example_embeddings_args (start [] [])).1 <> Ok p).
Proof. split; [reflexivity|]. split; [reflexivity|]. intros p. vm_compute. discriminate. Qed.

(** C7, witness: the validation raises. *)
Lemma validation_failure_witness :
  validation_failed (st_trace (text_example validation_fails).2) validation_error /\
  (text_example validation_fails).1 = Raise validation_error /\
  session_created (st_trace (text_example validation_fails).2).
Proof.
  assert (validation_failed (st_trace (text_example validation_fails).2) validation_error)
    as H by (vm_compute; do 3 eexists; pick_event).
  split; [exact H|].
  destruct (validation_failure "id_" decimal validation_fails example_iterator
              example_text_args example_records example_lists validation_error H)
    as (Hr & Hs & _).
  split; [exact Hr|exact Hs].
Defined.

(** C7 as stated fails: when the validation raises, the dataset object has
    been constructed already. *)
Lemma validation_claim_counterexample :
  validation_failed (st_trace (text_example validation_fails).2) validation_error /\
  session_created (st_trace (text_example validation_fails).2) /\
  calls_of (st_trace (text_example validation_fails).2) <> [].
Proof.
  split; [vm_compute; do 3 eexists; pick_event|].
  split; [vm_compute; do 2 eexists; pick_event|].
  vm_compute. discriminate.
Qed.

(** C8.  [map_embeddings] on a list of three records without identifiers:
    the caller's list, at reference 0, holds the references 0, 1, 2 before
    the call and the references 3, 4, 5 of the copies after it, although
    the caller's dicts are unchanged. *)
Theorem map_embeddings_rebinds_caller_list :
  st_lists (start example_records example_lists) !! 0 = Some [0; 1; 2] /\
  st_lists (embeddings_example (calm 0)).2 !! 0 = Some [3; 4; 5] /\
  st_lists (embeddings_example (calm 0)).2 <> example_lists /\
  take 3 (st_dicts (embeddings_example (calm 0)).2) = example_records.
Proof.
  split; [reflexivity|]. split; [vm_compute; reflexivity|].
  split; [vm_compute; discriminate|].
  pose proof (map_embeddings_leaves_records "id_" decimal (calm 0) example_embeddings
                (Some 0) example_embeddings_args example_records example_lists) as [k Hk].
  fold (embeddings_example (calm 0)) in Hk. rewrite Hk.
  by rewrite (take_app_length' example_records k).
Qed.

(** The interrupt reaches the caller after the [delete] call. *)
Example interrupt_is_reraised :
  (text_example (add_fails interrupt 0)).1 = Raise interrupt /\
  count_calls is_delete (st_trace (text_example (add_fails interrupt 0)).2) = 1.
Proof. split; vm_compute; reflexivity. Qed.

(** * More about the runs *)

(** ** The upload loop and the heap *)

Section Heap.
Context (DEFAULT : string) (b64int : nat -> string) (w : world).

Lemma with_id_skip idf d i st : with_id b64int false idf d i st = (Ok (d, i), st).
Proof. done. Qed.

Lemma with_id_copy idf d i ds ls tr rc :
  ds !! d = Some rc ->
  with_id b64int true idf d i (State ds ls tr)
  = (Ok (length ds, S i), State (ds ++ [<[idf := VStr (b64int i)]> rc]) ls tr).
Proof.
  intros Hd. unfold with_id, dict_copy, dict_get, dict_new, dict_setitem, bind, ret. simpl.
  rewrite Hd. simpl. rewrite lookup_app_r by lia. rewrite Nat.sub_diag. simpl.
  rewrite insert_app_r_alt by lia. by rewrite Nat.sub_diag.
Qed.

(** Without synthesis the loop allocates nothing. *)
Lemma upload_loop_pass_through bsz idf items : forall batch i st r st',
  upload_loop b64int w bsz false idf items batch i st = (r, st') ->
  st_dicts st' = st_dicts st.
Proof.
  induction items as [|d items IH]; intros batch i st r st'; cbn [upload_loop].
  - by intros [= <- <-].
  - unfold bind at 1. rewrite with_id_skip. simpl. unfold bind at 1.
    destruct (Z.of_nat (length (batch ++ [d])) >=? bsz)%Z.
    + unfold bind at 1.
      destruct (send_text w (batch ++ [d]) st) as [[[]|e] st2] eqn:Hs;
        destruct (send_text_run _ _ _ _ _ Hs) as (_ & Hd2 & _).
      * unfold ret at 1. intros Hrec. apply IH in Hrec. congruence.
      * by intros [= <- <-].
    + unfold ret at 1. apply IH.
Qed.

Lemma text_upload_pass_through bsz idf first it st r st' :
  text_upload b64int w bsz false idf first it st = (r, st') ->
  st_dicts st' = st_dicts st.
Proof.
  unfold text_upload. unfold bind at 1. rewrite with_id_skip. simpl. unfold bind at 1.
  destruct (upload_loop _ _ _ _ _ _ _ _ st) as [[[batch i]|e] st2] eqn:Hloop;
    apply upload_loop_pass_through in Hloop.
  - simpl. destruct (it_error it) as [e|].
    + by intros [= <- <-].
    + unfold when. case_bool_decide.
      * intros Hs. apply send_text_run in Hs as (_ & Hd & _). congruence.
      * by intros [= <- <-].
  - by intros [= <- <-].
Qed.

(** With synthesis the loop allocates one copy per record it reaches, with
    the identifier set. *)
Lemma upload_loop_copies bsz idf items : forall batch i st r st' recs,
  points_to (st_dicts st) items recs ->
  upload_loop b64int w bsz true idf items batch i st = (r, st') ->
  exists k, k <= length recs /\
    st_dicts st' = st_dicts st ++ with_ids b64int idf i (take k recs) /\
    (forall q, r = Ok q -> k = length recs).
Proof.
  induction items as [|d items IH]; intros batch i st r st' recs Hitems; cbn [upload_loop].
  - apply Forall2_nil_inv_l in Hitems as ->. intros [= <- <-].
    exists 0. simpl. by rewrite app_nil_r.
  - apply Forall2_cons_inv_l in Hitems as (rc & recs' & Hd & Hitems & ->).
    destruct st as [ds ls tr]. simpl in Hd, Hitems.
    unfold bind at 1. rewrite (with_id_copy _ _ _ _ _ _ _ Hd). simpl.
    set (rc' := <[idf:=VStr (b64int i)]> rc).
    assert (points_to (ds ++ [rc']) items recs') as Hitems1.
    { eapply points_to_mono; [|done]. by apply prefix_app_r. }
    assert (forall k, (ds ++ [rc']) ++ with_ids b64int idf (S i) (take k recs')
                      = ds ++ with_ids b64int idf i (take (S k) (rc :: recs'))) as Hexp.
    { intros k. simpl. by rewrite with_ids_cons, <- app_assoc. }
    unfold bind at 1.
    destruct (Z.of_nat (length (batch ++ [length ds])) >=? bsz)%Z.
    + unfold bind at 1.
      destruct (send_text w _ _) as [[[]|e] st2] eqn:Hs;
        destruct (send_text_run _ _ _ _ _ Hs) as (_ & Hd2 & _); simpl in Hd2.
      * unfold ret at 1. intros Hrec.
        eapply IH in Hrec as (k & Hk & Hds & Hall); [|by rewrite Hd2].
        exists (S k). simpl. split; [lia|]. rewrite Hds, Hd2, Hexp.
        split; [done|]. intros q Hq. f_equal. eauto.
      * intros [= <- <-]. exists 1. split; [simpl; lia|]. cbn [st_dicts].
        rewrite Hd2, <- (Hexp 0). simpl. split; [by rewrite app_nil_r|done].
    + unfold ret at 1. intros Hrec.
      eapply IH in Hrec as (k & Hk & Hds & Hall); [|done].
      exists (S k). simpl. split; [lia|]. simpl in Hds. rewrite Hds, Hexp.
      split; [done|]. intros q Hq. f_equal. eauto.
Qed.

Lemma text_upload_copies bsz idf first it ds ls tr r st' sample recs :
  ds !! first = Some sample ->
  points_to ds (it_items it) recs ->
  text_upload b64int w bsz true idf first it (State ds ls tr) = (r, st') ->
  exists k, k <= length (sample :: recs) /\
    st_dicts st' = ds ++ with_ids b64int idf 0 (take k (sample :: recs)) /\
    (r = Ok tt -> k = length (sample :: recs)).
Proof.
  intros Hfirst Hitems. unfold text_upload.
  unfold bind at 1. rewrite (with_id_copy _ _ _ _ _ _ _ Hfirst). simpl.
  set (rc' := <[idf:=VStr (b64int 0)]> sample).
  assert (forall k, (ds ++ [rc']) ++ with_ids b64int idf 1 (take k recs)
                    = ds ++ with_ids b64int idf 0 (take (S k) (sample :: recs))) as Hexp.
  { intros k. simpl. by rewrite with_ids_cons, <- app_assoc. }
  unfold bind at 1.
  destruct (upload_loop _ _ _ _ _ _ _ _ _) as [[[batch i]|e] st2] eqn:Hloop;
    eapply upload_loop_copies in Hloop as (k & Hk & Hds & Hall);
    try (eapply points_to_mono; [|exact Hitems]; by apply prefix_app_r).
  all: simpl in Hds; rewrite Hexp in Hds.
  - specialize (Hall _ eq_refl) as ->. simpl. intros Hrest.
    exists (S (length recs)). split; [simpl; lia|]. revert Hrest.
    destruct (it_error it) as [e|].
    + by intros [= <- <-].
    + unfold when. case_bool_decide.
      * intros Hs. apply send_text_run in Hs as (_ & Hd & _). split; [congruence|done].
      * by intros [= <- <-].
  - intros [= <- <-]. exists (S k). simpl. split; [lia|]. done.
Qed.

(** When the iterator ends with an exception, the pending batch is never
    sent: every batch of the upload phase is full. *)
Lemma text_upload_interrupted bsz add idf first it st r st' e :
  (1 < bsz)%Z -> it_error it = Some e ->
  text_upload b64int w bsz add idf first it st = (r, st') ->
  (exists e', r = Raise e') /\
  exists up, st_trace st' = st_trace st ++ up /\ Forall (full_batch bsz) (sent_batches up).
Proof.
  intros Hbsz Herr. unfold text_upload. unfold bind at 1.
  destruct (with_id b64int add idf first 0 st) as [[[d' i']|e0] st1] eqn:Hw;
    destruct (with_id_run _ _ _ _ _ _ _ _ Hw) as (Ht1 & _ & _ & _).
  2:{ intros [= <- <-]. split; [eauto|]. exists []. rewrite app_nil_r. split; [done|constructor]. }
  simpl. unfold bind at 1.
  destruct (upload_loop _ _ _ _ _ _ _ _ st1) as [[[batch i'']|e0] st2] eqn:Hloop;
    apply upload_loop_shape in Hloop as (_ & _ & sent & Hsent & Hr2); try (simpl; lia).
  - destruct Hr2 as (Ht2 & _ & _). rewrite Herr. intros [= <- <-]. split; [eauto|].
    exists (sends sent). split; [congruence|]. by rewrite sent_batches_sends.
  - intros [= <- <-]. split; [eauto|].
    destruct Hr2 as [[-> Ht2]|(b & Hb & Ht2)].
    + exists (sends sent). split; [congruence|]. by rewrite sent_batches_sends.
    + exists (sends sent ++ [EvCall (add_text b) (Raise e0)]). split; [congruence|].
      rewrite sent_batches_app, sent_batches_sends. apply Forall_app. split; [done|].
      by repeat constructor.
Qed.

(** The steps of [map_text] from its first record on. *)
Lemma map_text_steps bsz first rest err a ds ls r st' :
  map_text_with DEFAULT b64int w bsz (Iterator (first :: rest) err) a (start ds ls) = (r, st') ->
  (exists e, text_setup_fails DEFAULT w ds a first (st_trace st') e /\ r = Raise e /\
     st_dicts st' = ds /\ st_lists st' = ls) \/
  exists sample p n rup st_up tail,
    ds !! first = Some sample /\
    text_upload b64int w bsz (needs_id DEFAULT a sample) (text_id_field DEFAULT a) first
      (Iterator rest err)
      (State ds ls (text_prelude DEFAULT w a p (needs_id DEFAULT a sample) sample n))
    = (rup, st_up) /\
    st_dicts st' = st_dicts st_up /\ st_lists st' = st_lists st_up /\
    st_trace st' = st_trace st_up ++ tail /\
    text_closing w a p n rup tail r.
Proof.
  unfold map_text_with, start.
  unfold bind at 1. unfold next_or_None. simpl.
  unfold bind at 1. unfold invoke at 1. simpl.
  destruct (w_raises w _) as [e|].
  { intros [= <- <-]. left. exists e. repeat split. constructor. }
  set (p := w_dataset w _).
  unfold bind at 1.
  destruct (id_missing _ _ _ _) as [[add|e] st1] eqn:Hmiss;
    apply id_missing_run in Hmiss as [-> Hadd]; simpl in Hadd.
  2:{ destruct (ds !! first) eqn:Hfirst; [done|]. destruct Hadd as [[= ->]|?]; [|done].
      intros [= <- <-]. left. exists dangling. repeat split.
      by apply (setup_sample_dangling _ _ _ _ _ p). }
  unfold bind at 1. rewrite when_log_run. simpl.
  unfold bind at 1. unfold dict_get at 1. simpl.
  destruct (ds !! first) as [sample|] eqn:Hfirst.
  2:{ intros [= <- <-]. left. exists dangling. destruct Hadd as [?|[= ->]]; [done|].
      repeat split. by apply (setup_sample_dangling _ _ _ _ _ p). }
  injection Hadd as Hadd. fold (text_id_field DEFAULT a) in Hadd.
  fold (needs_id DEFAULT a sample) in Hadd. subst add.
  unfold bind at 1. unfold invoke at 1. simpl.
  destruct (w_raises w _) as [e|].
  { intros [= <- <-]. left. exists e. repeat split.
    by apply (setup_validate_raises _ _ _ _ _ p sample). }
  unfold bind at 1. unfold invoke at 1. simpl.
  destruct (w_raises w _) as [e|].
  { intros [= <- <-]. left. exists e. repeat split. simpl. rewrite <- app_assoc.
    by apply (setup_total_datums_raises _ _ _ _ _ p sample). }
  set (n := w_total_datums w _).
  unfold bind at 1. unfold log at 1. simpl.
  unfold bind at 1. rewrite when_log_run. simpl.
  unfold bind at 1. rewrite when_log_run. simpl.
  match goal with |- context [State ds ls ?t] =>
    replace t with (text_prelude DEFAULT w a p (needs_id DEFAULT a sample) sample n)
      by (unfold text_prelude, text_opening, text_validate, text_id_field; simpl;
          by rewrite <- !app_assoc) end.
  fold (text_id_field DEFAULT a).
  unfold bind at 1. unfold try_except.
  destruct (text_upload _ _ _ _ _ _ _ _) as [rup st_up] eqn:Hup.
  intros Hrest. right. exists sample, p, n, rup, st_up.
  destruct rup as [[]|e].
  - revert Hrest. unfold bind at 1. unfold log at 1. simpl. intros Hpost.
    eapply (index_run _ (create_index (text_index_args w a)) true n) in Hpost
      as (Hl2 & Hd2 & post & r0 & Ht2 & -> & Hpost); [|apply text_index_step].
    cbn [st_trace st_lists st_dicts] in *.
    exists (EvLog INFO "Text upload succeeded." :: post).
    split; [done|]. split; [done|]. split; [done|]. split; [done|].
    split; [by rewrite Ht2, <- app_assoc|]. simpl. eauto.
  - revert Hrest. unfold isinstance_BaseException. unfold bind at 1.
    destruct (rollback _ _ _ _ _) as [r1 st2] eqn:Hback.
    apply rollback_run in Hback as (Hl2 & Hd2 & back & e' & Ht2 & -> & Hback).
    intros [= <- <-]. exists back. repeat split; try done. simpl. eauto.
Qed.

End Heap.

(** ** More facts about traces *)

Section Events.

Lemma count_warnings_app msg tr1 tr2 :
  count_warnings msg (tr1 ++ tr2) = count_warnings msg tr1 + count_warnings msg tr2.
Proof. unfold count_warnings. by rewrite List.filter_app, length_app. Qed.

Lemma count_warnings_none msg tr :
  (forall m, ~ In (EvLog WARNING m) tr) -> count_warnings msg tr = 0.
Proof.
  induction tr as [|ev tr IH]; [done|]. intros Hno.
  assert (count_warnings msg tr = 0) as Htr.
  { apply IH. intros m ?. apply (Hno m). by right. }
  unfold count_warnings in *. simpl.
  destruct ev as [c out|[|] m]; simpl; [done|done|]. destruct (Hno m). by left.
Qed.

Lemma upload_events_warnings local up r msg :
  upload_events local up r -> count_warnings msg up = 0.
Proof. intros H. apply count_warnings_none. intros m. by eapply upload_events_logs. Qed.

Lemma rollback_shape_warnings label n e back e' msg :
  rollback_shape label n e back e' -> count_warnings msg back = 0.
Proof. by destruct 1. Qed.

Lemma post_shape_warnings create logs n post r msg :
  post_shape create logs n post r -> count_warnings msg post = 0.
Proof.
  intros H. apply count_warnings_none. intros m Hin.
  destruct H; unfold projection_log in Hin;
    repeat match type of Hin with
           | context [if ?b then _ else _] => destruct b
           | context [match ?v with _ => _ end] => destruct v
           end; close_in Hin.
Qed.

Lemma Forall_calls_of (P : call -> Prop) tr :
  (forall c out, In (EvCall c out) tr -> P c) -> Forall P (calls_of tr).
Proof.
  induction tr as [|ev tr IH]; intros H; [constructor|]. rewrite calls_of_cons.
  assert (Forall P (calls_of tr)) as Htr.
  { apply IH. intros c out ?. apply (H c out). by right. }
  destruct ev as [c out|]; [|done]. constructor; [|done]. apply (H c out). by left.
Qed.

Lemma rollback_shape_raised label n e back e' c e0 :
  rollback_shape label n e back e' -> In (EvCall c (Raise e0)) back -> c = delete /\ e0 = e'.
Proof. destruct 1; intros Hin; close_in Hin. Qed.

Lemma rollback_shape_result label n e back e' :
  rollback_shape label n e back e' -> e' = e \/ In (EvCall delete (Raise e')) back.
Proof. destruct 1; simpl; auto. Qed.

Lemma post_shape_raised create logs n post r c e :
  post_shape create logs n post r -> In (EvCall c (Raise e)) post -> r = Raise e.
Proof.
  destruct 1; intros Hin; unfold projection_log in Hin;
    repeat match type of Hin with
           | context [if ?b then _ else _] => destruct b
           | context [match ?v with _ => _ end] => destruct v
           end; close_in Hin.
Qed.

Lemma post_shape_returns create logs n post p :
  post_shape create logs n post (Ok p) ->
  last post = Some (EvCall latest_project_state (Ok (RDataset p))).
Proof.
  inversion 1; subst. change (?x :: ?l ++ ?r) with ((x :: l) ++ r). apply last_snoc.
Qed.

End Events.

(** ** More that follows from the phases of a run *)

Section Policies.
Context {B : Type} (marker : string) (local : exn -> Prop) (ia : index_args) (logs : bool)
  (f : AtlasDataset -> B).
Context (Hmarker : String.length marker < 51).

Lemma phases_propagate tr (r : result B) :
  phases marker local ia logs f tr r ->
  (early marker tr -> propagates tr r) -> propagates tr r.
Proof.
  intros Hrun Hearly.
  destruct Hrun as [tr r He|pre n up e0 label back e' Hpre Hup Hback
                    |pre n up post r Hpre Hup Hpost]; [by apply Hearly|..];
    clear Hearly; intros c e Hin.
  - rewrite !in_app_iff in Hin. destruct Hin as [Hin|[Hin|Hin]].
    + by apply (prelude_calls _ _ _ Hpre) in Hin as [_ [? ?]].
    + pose proof (upload_events_calls _ _ _ _ _ Hup Hin) as Hc.
      apply (upload_events_raised _ _ _ _ _ Hup) in Hin as [[= ->] _].
      destruct (rollback_shape_result _ _ _ _ _ Hback) as [->|Hdel]; [by left|].
      right. split; [done|]. exists e'. split; [done|]. rewrite !in_app_iff. auto.
    + apply (rollback_shape_raised _ _ _ _ _ _ _ Hback) in Hin as [_ ->]. by left.
  - rewrite !in_app_iff in Hin. simpl in Hin. destruct Hin as [Hin|[Hin|[Hin|Hin]]]; [| |done|].
    + by apply (prelude_calls _ _ _ Hpre) in Hin as [_ [? ?]].
    + by apply (upload_events_raised _ _ _ _ _ Hup) in Hin as [[=] _].
    + apply (post_shape_raised _ _ _ _ _ _ _ Hpost) in Hin as ->. by left.
Qed.

Lemma phases_delete tr (r : result B) :
  phases marker local ia logs f tr r -> delete_policy marker tr r.
Proof.
  intros Hrun. unfold delete_policy.
  destruct Hrun as [tr r [_ Hcalls _]|pre n up e0 label back e' Hpre Hup Hback
                    |pre n up post r Hpre Hup Hpost].
  - assert (count_calls is_delete tr = 0) as ->.
    { apply count_calls_none. intros c out Hin. apply Hcalls in Hin. by destruct c. }
    split; [lia|done].
  - assert (count_calls is_delete pre = 0) as Hc1.
    { eapply prelude_count; [done|]. by intros []. }
    assert (count_calls is_delete up = 0) as Hc2.
    { eapply upload_count; [done|]. by intros []. }
    rewrite !count_calls_app, Hc1, Hc2. cbn [Nat.add].
    assert (~ In (EvLog INFO marker) (pre ++ up ++ back)) as Hm.
    { rewrite !in_app_iff. intros [Hin|[Hin|Hin]].
      - by apply (prelude_marker _ _ _ Hpre).
      - by apply (upload_events_logs _ _ _ _ _ Hup) in Hin.
      - by apply (marker_in_rollback marker Hmarker _ _ _ _ _ Hback) in Hin. }
    destruct Hback as [Hn| -> | e' ->]; unfold count_calls at 1 2; simpl.
    + split; [lia|done].
    + split; [done|]. intros _. split; [apply datums_app_Some, Hpre|]. split; [done|].
      split; [|eauto]. rewrite !calls_of_app, app_assoc. simpl. apply last_snoc.
    + split; [done|]. intros _. split; [apply datums_app_Some, Hpre|]. split; [done|].
      split; [|eauto]. rewrite !calls_of_app, app_assoc. simpl. apply last_snoc.
  - assert (count_calls is_delete pre = 0) as Hc1.
    { eapply prelude_count; [done|]. by intros []. }
    assert (count_calls is_delete up = 0) as Hc2.
    { eapply upload_count; [done|]. by intros []. }
    assert (count_calls is_delete post = 0) as Hc3.
    { apply count_calls_none. intros c out Hin.
      apply (post_shape_calls _ _ _ _ _ _ _ Hpost) in Hin as [->|[->| ->]]; done. }
    change (?x :: post) with ([x] ++ post).
    rewrite !count_calls_app, Hc1, Hc2, Hc3. simpl. split; [lia|done].
Qed.

End Policies.

(** ** Errors and warnings of the two uploaders *)

Section Propagation.
Context (DEFAULT : string) (b64int : nat -> string) (w : world).

Lemma text_early_propagates a it tr r :
  text_early DEFAULT w a it tr r -> propagates tr r.
Proof. destruct 1; intros c e0 Hin; split_flags; close_in Hin; by left. Qed.

Lemma text_run_not_early bsz ds a it tr r :
  text_run DEFAULT b64int w bsz ds a it tr r ->
  early "Text upload succeeded." tr -> text_early DEFAULT w a it tr r.
Proof.
  destruct 1 as [tr r Hearly|p add sample n up e0 back e' Hup _ Hback
                 |p add sample n up post r Hup _ Hpost]; [done|..];
    intros [Hd _ _]; exfalso;
    rewrite (datums_app_Some _ _ n) in Hd by apply text_prelude_of; done.
Qed.

Lemma text_run_propagates bsz ds a it tr r :
  text_run DEFAULT b64int w bsz ds a it tr r -> propagates tr r.
Proof.
  intros Hrun. eapply phases_propagate; [by eapply text_run_phases|].
  intros Hearly. eapply text_early_propagates, text_run_not_early; done.
Qed.

Lemma embeddings_run_propagates content a emb tr r :
  embeddings_run DEFAULT w content a emb tr r -> propagates tr r.
Proof.
  intros Hrun. eapply phases_propagate; [by eapply embeddings_run_phases|].
  intros [Hd _ _].
  destruct Hrun as [e|added e|added p e|added p n back e' Hback|added p n rs e back e' _ Hback
                    |added p n rs post r _ Hpost].
  1-3: intros c e0 Hin; split_flags; close_in Hin; by left.
  all: exfalso; rewrite (datums_app_Some _ _ n) in Hd by apply embeddings_prelude_of; done.
Qed.

(** The call [add_embeddings] gets the array as it was passed in and the
    records [content] describes. *)
Lemma embeddings_run_sent content a emb tr r emb' rs out :
  embeddings_run DEFAULT w content a emb tr r ->
  In (EvCall (add_embeddings emb' rs) out) tr -> emb' = emb /\ content rs.
Proof.
  intros Hrun Hin.
  destruct Hrun as [e|added e|added p e|added p n back e' Hback
                    |added p n rs0 e back e' Hrs Hback|added p n rs0 post r Hrs Hpost].
  1-3: split_flags; close_in Hin.
  - apply in_app_iff in Hin as [Hin|Hin].
    + by apply (prelude_calls _ _ _ (embeddings_prelude_of DEFAULT w a p added n)) in Hin as [? _].
    + by apply (rollback_shape_calls _ _ _ _ _ _ _ Hback) in Hin.
  - apply in_app_iff in Hin as [Hin|[Hin|Hin]].
    + by apply (prelude_calls _ _ _ (embeddings_prelude_of DEFAULT w a p added n)) in Hin as [? _].
    + by injection Hin as <- <- <-.
    + by apply (rollback_shape_calls _ _ _ _ _ _ _ Hback) in Hin.
  - apply in_app_iff in Hin as [Hin|[Hin|[Hin|Hin]]]; [| |done|].
    + by apply (prelude_calls _ _ _ (embeddings_prelude_of DEFAULT w a p added n)) in Hin as [? _].
    + by injection Hin as <- <- <-.
    + apply (post_shape_calls _ _ _ _ _ _ _ Hpost) in Hin as [?|[?|?]]; done.
Qed.

(** The warnings of the events before the upload phase. *)
Lemma text_prelude_warnings a p add sample n :
  count_warnings id_warning (text_prelude DEFAULT w a p add sample n) = (if add then 1 else 0) /\
  count_warnings "Passing 'shard_size' is deprecated and will be removed in a future release."
    (text_prelude DEFAULT w a p add sample n) = (if is_not_None (t_shard_size a) then 1 else 0) /\
  count_warnings "Passing 'num_workers' is deprecated and will be removed in a future release."
    (text_prelude DEFAULT w a p add sample n) = (if is_not_None (t_num_workers a) then 1 else 0).
Proof. by split_flags. Qed.

Lemma embeddings_prelude_warnings a p added n :
  count_warnings id_warning (embeddings_prelude DEFAULT w a p added n) = (if added then 1 else 0) /\
  count_warnings "Passing `shard_size` is deprecated and will raise an error in a future release"
    (embeddings_prelude DEFAULT w a p added n) = (if is_not_None (e_shard_size a) then 1 else 0) /\
  count_warnings "Passing `num_workers` is deprecated and will raise an error in a future release"
    (embeddings_prelude DEFAULT w a p added n) = (if is_not_None (e_num_workers a) then 1 else 0).
Proof. by split_flags. Qed.

(** The warnings of a run of [map_text] that reached the upload phase are
    those of the events before it. *)
Lemma text_run_warnings bsz ds a it tr r msg :
  text_run DEFAULT b64int w bsz ds a it tr r ->
  (exists p add sample n rest,
     tr = text_prelude DEFAULT w a p add sample n ++ rest /\ count_warnings msg rest = 0) \/
  (text_early DEFAULT w a it tr r).
Proof.
  destruct 1 as [tr r Hearly|p add sample n up e0 back e' Hup _ Hback
                 |p add sample n up post r Hup _ Hpost]; [by right|left..].
  - exists p, add, sample, n, (up ++ back). split; [done|].
    rewrite count_warnings_app, (rollback_shape_warnings _ _ _ _ _ _ Hback).
    by rewrite (upload_events_warnings _ _ _ _ (upload_shape_events _ _ _ _ Hup)).
  - exists p, add, sample, n, (up ++ EvLog INFO "Text upload succeeded." :: post). split; [done|].
    change (?x :: post) with ([x] ++ post).
    rewrite !count_warnings_app, (post_shape_warnings _ _ _ _ _ _ Hpost).
    by rewrite (upload_events_warnings _ _ _ _ (upload_shape_events _ _ _ _ Hup)).
Qed.

Lemma embeddings_run_warnings content a emb tr r msg :
  embeddings_run DEFAULT w content a emb tr r ->
  (exists p added n rest,
     tr = embeddings_prelude DEFAULT w a p added n ++ rest /\ count_warnings msg rest = 0) \/
  (number_of_datums_before_upload tr = None /\
   exists added, count_warnings msg tr = count_warnings msg (warn_if added id_warning)).
Proof.
  destruct 1 as [e|added e|added p e|added p n back e' Hback|added p n rs e back e' _ Hback
                 |added p n rs post r _ Hpost].
  1-3: right.
  - split; [done|]. by exists false.
  - split; [by destruct added|]. exists added. by destruct added.
  - split; [by destruct added|]. exists added. by destruct added.
  - left. exists p, added, n, back. split; [done|]. by eapply rollback_shape_warnings.
  - left. exists p, added, n, (EvCall (add_embeddings emb rs) (Raise e) :: back). split; [done|].
    change (?x :: back) with ([x] ++ back).
    by rewrite count_warnings_app, (rollback_shape_warnings _ _ _ _ _ _ Hback).
  - left. eexists p, added, n, _. split; [done|].
    change (?x :: ?y :: post) with ([x; y] ++ post).
    by rewrite count_warnings_app, (post_shape_warnings _ _ _ _ _ _ Hpost).
Qed.

End Propagation.

(** ** The steps of [map_text], with the upload phase *)

Section TextSteps.
Context (DEFAULT : string) (b64int : nat -> string) (w : world).

Lemma text_setup_fails_early ds a first rest err tr e :
  text_setup_fails DEFAULT w ds a first tr e ->
  text_early DEFAULT w a (Iterator (first :: rest) err) tr (Raise e).
Proof. destruct 1; by constructor. Qed.

Lemma text_returns bsz ds a it tr o :
  text_run DEFAULT b64int w bsz ds a it tr (Ok o) ->
  match o with
  | None => it_items it = [] /\ it_error it = None /\ calls_of tr = []
  | Some p =>
      text_upload_succeeded tr /\
      last tr = Some (EvCall latest_project_state (Ok (RDataset p))) /\
      forall recs, points_to ds (it_items it) recs ->
        concat (sent_batches tr) = uploaded_records DEFAULT b64int a recs
  end.
Proof.
  intros Hrun.
  assert (text_upload_succeeded tr ->
          forall recs, points_to ds (it_items it) recs ->
            concat (sent_batches tr) = uploaded_records DEFAULT b64int a recs) as Hcontent.
  { intros Hok recs Hrecs. by apply (text_run_content _ _ _ _ _ _ _ _ _ recs Hrun Hrecs). }
  inversion Hrun as [tr0 r0 Hearly|?|p add sample n up post r0 Hup _ Hpost Htr Hr]; subst.
  - inversion Hearly; subst. done.
  - destruct r0 as [p0|]; [|done]. injection Hr as <-.
    assert (text_upload_succeeded
              (text_prelude DEFAULT w a p add sample n
                 ++ up ++ EvLog INFO "Text upload succeeded." :: post)) as Hok.
    { unfold text_upload_succeeded. rewrite !in_app_iff. right. right. by left. }
    split; [done|]. split; [|by apply Hcontent].
    rewrite !last_app, last_cons, (post_shape_returns _ _ _ _ _ Hpost). done.
Qed.

Lemma embeddings_returns content a emb tr p :
  embeddings_run DEFAULT w content a emb tr (Ok p) ->
  embedding_upload_succeeded tr /\
  last tr = Some (EvCall latest_project_state (Ok (RDataset p))) /\
  count_calls is_add_records tr = 1 /\
  exists rs, content rs /\ In (EvCall (add_embeddings emb rs) (Ok RNone)) tr.
Proof.
  inversion 1 as [| | | | |added p0 n rs post r0 Hrs Hpost]; subst.
  split; [|split; [|split]].
  - unfold embedding_upload_succeeded. rewrite in_app_iff. right. right. by left.
  - rewrite last_app, !last_cons, (post_shape_returns _ _ _ _ _ Hpost). done.
  - change (?x :: ?y :: post) with ([x; y] ++ post).
    rewrite !count_calls_app.
    rewrite (prelude_count _ _ _ _ (embeddings_prelude_of DEFAULT w a p0 added n))
      by (by intros []).
    assert (count_calls is_add_records post = 0) as ->.
    { apply count_calls_none. intros c out Hin.
      apply (post_shape_calls _ _ _ _ _ _ _ Hpost) in Hin as [->|[->| ->]]; done. }
    done.
  - exists rs. split; [done|]. rewrite in_app_iff. right. by left.
Qed.

(** A run of [map_text] on an iterator that yields a first record: the
    set-up fails, or the upload phase is entered from the events
    [text_prelude] and is followed by the rollback or the index-building
    call. *)
Lemma map_text_unfolds bsz first rest err a ds ls r st' :
  (1 < bsz)%Z ->
  map_text_with DEFAULT b64int w bsz (Iterator (first :: rest) err) a (start ds ls) = (r, st') ->
  (exists e, text_setup_fails DEFAULT w ds a first (st_trace st') e /\ r = Raise e /\
     st_dicts st' = ds /\ st_lists st' = ls) \/
  exists sample p n rup st_up up tail,
    ds !! first = Some sample /\
    text_upload b64int w bsz (needs_id DEFAULT a sample) (text_id_field DEFAULT a) first
      (Iterator rest err)
      (State ds ls (text_prelude DEFAULT w a p (needs_id DEFAULT a sample) sample n))
    = (rup, st_up) /\
    st_dicts st' = st_dicts st_up /\ st_lists st' = ls /\
    upload_shape bsz err up rup /\
    st_trace st_up = text_prelude DEFAULT w a p (needs_id DEFAULT a sample) sample n ++ up /\
    st_trace st'
    = text_prelude DEFAULT w a p (needs_id DEFAULT a sample) sample n ++ up ++ tail /\
    text_closing w a p n rup tail r /\
    (text_upload_succeeded (st_trace st') -> rup = Ok tt).
Proof.
  intros Hbsz Hrun. apply map_text_steps in Hrun as [?|Hrun]; [by left|right].
  destruct Hrun as (sample & p & n & rup & st_up & tail & Hfirst & Hup & Hd & Hl & Ht & Hclose).
  apply text_upload_shape in Hup as Hshape; [|done].
  destruct Hshape as (Hl1 & _ & up & Ht1 & Hshape). cbn [st_lists st_trace it_error] in *.
  exists sample, p, n, rup, st_up, up, tail.
  split; [done|]. split; [done|]. split; [done|]. split; [congruence|]. split; [done|].
  split; [done|]. split; [by rewrite Ht, Ht1, <- app_assoc|]. split; [done|].
  destruct rup as [[]|e]; [done|]. intros Hok. exfalso.
  destruct Hclose as (e' & Hback & _).
  rewrite Ht, Ht1 in Hok. unfold text_upload_succeeded in Hok. rewrite !in_app_iff in Hok.
  destruct Hok as [[Hin|Hin]|Hin].
  - by apply (prelude_marker _ _ _ (text_prelude_of DEFAULT w a p _ sample n)) in Hin.
  - eapply upload_events_logs; [|exact Hin].
    exact (upload_shape_events bsz (Iterator rest err) _ _ Hshape).
  - eapply (marker_in_rollback "Text upload succeeded."); [simpl; lia|done..].
Qed.

Lemma text_closing_calls a p n rup tail r c out :
  text_closing w a p n rup tail r -> In (EvCall c out) tail ->
  is_setup c = false /\ is_add_records c = false.
Proof.
  destruct rup as [[]|e]; simpl.
  - intros (post & r0 & -> & Hpost & _) [?|Hin]; [done|].
    apply (post_shape_calls _ _ _ _ _ _ _ Hpost) in Hin as [->|[->| ->]]; done.
  - intros (e' & Hback & _) Hin.
    by apply (rollback_shape_calls _ _ _ _ _ _ _ Hback) in Hin as ->.
Qed.

Lemma text_closing_warnings a p n rup tail r msg :
  text_closing w a p n rup tail r -> count_warnings msg tail = 0.
Proof.
  destruct rup as [[]|e]; simpl.
  - intros (post & r0 & -> & Hpost & _). change (?x :: post) with ([x] ++ post).
    by rewrite count_warnings_app, (post_shape_warnings _ _ _ _ _ _ Hpost).
  - intros (e' & Hback & _). by eapply rollback_shape_warnings.
Qed.

Lemma text_early_warnings a it tr r :
  text_early DEFAULT w a it tr r ->
  count_warnings id_warning tr <= 1 /\
  count_warnings "Passing 'shard_size' is deprecated and will be removed in a future release."
    tr = 0 /\
  count_warnings "Passing 'num_workers' is deprecated and will be removed in a future release."
    tr = 0.
Proof. destruct 1; split_flags; unfold count_warnings; simpl; split; (lia || done). Qed.

Lemma text_setup_fails_id_warning ds a first tr e sample :
  text_setup_fails DEFAULT w ds a first tr e ->
  ds !! first = Some sample -> session_created tr ->
  count_warnings id_warning tr = if needs_id DEFAULT a sample then 1 else 0.
Proof.
  destruct 1 as [e|p Hnone|p s e Hs|p s e Hs]; intros Hfirst (a0 & p0 & Hin).
  - close_in Hin.
  - congruence.
  - assert (s = sample) as -> by congruence. by split_flags.
  - assert (s = sample) as -> by congruence. by split_flags.
Qed.

End TextSteps.

(** ** The metadata block of [map_embeddings] *)

Section Metadata.
Context (DEFAULT : string) (b64int : nat -> string) (w : world).

Lemma comprehension_dict_new ls tr m : forall k ds,
  comprehension (fun i => dict_new {[ DEFAULT := VStr (b64int i) ]}) (seq k m) (State ds ls tr)
  = (Ok (seq (length ds) m),
     State (ds ++ ((fun i => {[ DEFAULT := VStr (b64int i) ]}) <$> seq k m)) ls tr).
Proof.
  induction m as [|m IH]; intros k ds; cbn [seq comprehension fmap list_fmap].
  - unfold ret. by rewrite app_nil_r.
  - unfold bind at 1. unfold dict_new at 1. cbn [st_dicts st_lists st_trace].
    unfold bind at 1. rewrite IH. unfold ret. rewrite length_app. cbn [length].
    rewrite Nat.add_1_r, <- app_assoc. done.
Qed.

Lemma generated_records_length n : length (generated_records DEFAULT b64int n) = n.
Proof. unfold generated_records. by rewrite length_fmap, length_seq. Qed.

(** [data is None]: one record per row, holding the position under the
    default identifier field, in a new list. *)
Lemma prepare_data_generates emb idf ds ls tr n dims :
  nd_shape emb = n :: dims -> n <> 0 ->
  prepare_data DEFAULT b64int emb None idf (State ds ls tr)
  = (Ok (length ls, true),
     State (ds ++ generated_records DEFAULT b64int n) (ls ++ [seq (length ds) n]) tr).
Proof.
  intros Hshape Hn. unfold prepare_data.
  unfold bind at 1. unfold bind at 1. unfold nd_len at 1. rewrite Hshape. unfold ret at 1.
  unfold bind at 1. rewrite comprehension_dict_new.
  unfold bind at 1. unfold list_new at 1. cbn [st_lists st_dicts st_trace].
  unfold ret at 1. cbn [fst snd]. fold (generated_records DEFAULT b64int n).
  destruct n as [|n]; [done|].
  unfold bind at 1. case_bool_decide as Hidf; [|done].
  unfold bind at 1. unfold list_getitem at 1, bind at 1, list_get at 1. cbn [st_lists].
  rewrite lookup_app_r by lia. rewrite Nat.sub_diag. cbn [lookup list_lookup seq].
  unfold ret at 1. unfold dict_not_in, bind at 1, dict_get at 1. cbn [st_dicts].
  rewrite lookup_app_r by lia. rewrite Nat.sub_diag.
  unfold generated_records at 1. cbn [seq fmap list_fmap lookup list_lookup].
  unfold ret at 1. rewrite bool_decide_eq_false_2; [done|].
  rewrite Hidf, lookup_singleton_eq. done.
Qed.

(** [data] is taken as it is when the identifier field is not the default
    one, or when the first record holds it. *)
Lemma prepare_data_pass_through emb idf l st :
  (idf <> DEFAULT \/
   exists d0 refs sample, st_lists st !! l = Some (d0 :: refs) /\
     st_dicts st !! d0 = Some sample /\ sample !! idf <> None) ->
  prepare_data DEFAULT b64int emb (Some l) idf st = (Ok (l, false), st).
Proof.
  intros Hkeep. unfold prepare_data. unfold bind at 1. unfold ret at 1. cbn [fst snd].
  unfold bind at 1. case_bool_decide as Hidf; [|done].
  destruct Hkeep as [?|(d0 & refs & sample & Hl & Hd0 & Hid)]; [done|].
  unfold bind at 1. unfold list_getitem at 1, bind at 1, list_get at 1. rewrite Hl.
  cbn [lookup list_lookup]. unfold ret at 1.
  unfold dict_not_in, bind at 1, dict_get at 1. rewrite Hd0. unfold ret at 1.
  by rewrite bool_decide_eq_false_2.
Qed.

Lemma prepare_data_empty_list emb l st :
  st_lists st !! l = Some [] ->
  prepare_data DEFAULT b64int emb (Some l) DEFAULT st = (Raise IndexError, st).
Proof.
  intros Hl. unfold prepare_data. unfold bind at 1. unfold ret at 1. cbn [fst snd].
  unfold bind at 1. rewrite bool_decide_eq_true_2 by done.
  unfold bind at 1. unfold list_getitem at 1, bind at 1, list_get at 1. by rewrite Hl.
Qed.

Lemma prepare_data_unsized emb idf st :
  nd_shape emb = [] ->
  prepare_data DEFAULT b64int emb None idf st
  = (Raise (Exn (ExceptionClass "TypeError") "len() of unsized object"), st).
Proof.
  intros Hshape. unfold prepare_data.
  unfold bind at 1. unfold bind at 1. unfold nd_len at 1. by rewrite Hshape.
Qed.

Lemma map_embeddings_prepare_fails emb data a st e st1 :
  nd_size emb <> 0 ->
  prepare_data DEFAULT b64int emb data (default DEFAULT (e_id_field a)) st = (Raise e, st1) ->
  map_embeddings DEFAULT b64int w emb data a st = (Raise e, st1).
Proof.
  intros Hsize Hprep. unfold map_embeddings. rewrite bool_decide_eq_false_2 by done.
  unfold bind at 1. by rewrite Hprep.
Qed.

(** A run of [map_embeddings] after the metadata block: the heap is the one
    the block left, [add_embeddings] gets the records of [data], and the
    identifier warning is logged when [added_id_field] is set. *)
Lemma map_embeddings_unfolds emb data a ds ls l added st1 r st' :
  nd_size emb <> 0 ->
  prepare_data DEFAULT b64int emb data (default DEFAULT (e_id_field a)) (start ds ls)
  = (Ok (l, added), st1) ->
  map_embeddings DEFAULT b64int w emb data a (start ds ls) = (r, st') ->
  st_dicts st' = st_dicts st1 /\ st_lists st' = st_lists st1 /\
  (forall emb' rs out, In (EvCall (add_embeddings emb' rs) out) (st_trace st') ->
     emb' = emb /\
     exists refs, st_lists st1 !! l = Some refs /\ points_to (st_dicts st1) refs rs) /\
  count_warnings id_warning (st_trace st') = if added then 1 else 0.
Proof.
  intros Hsize Hprep Hrun.
  apply map_embeddings_run in Hrun as Hshape. destruct Hshape as (Hshape & _ & Hheap).
  destruct (Hheap Hsize _ _ _ Hprep) as [Hd Hl]. split; [done|]. split; [done|]. split.
  { intros emb' rs out Hin.
    apply (embeddings_run_sent _ _ _ _ _ _ _ _ _ _ Hshape) in Hin as [-> Hrs]. split; [done|].
    by apply Hrs in Hprep. }
  clear Hshape Hheap Hd Hl. revert Hrun.
  unfold map_embeddings. rewrite bool_decide_eq_false_2 by done.
  unfold bind at 1. rewrite Hprep. cbn [fst snd].
  apply quiet_prepare_data in Hprep as [Ht1 _]. destruct st1 as [ds1 ls1 tr1].
  simpl in Ht1. subst tr1.
  unfold bind at 1. rewrite when_log_run. simpl.
  unfold bind at 1. unfold invoke at 1. simpl.
  destruct (w_raises w _) as [e|].
  { intros [= <- <-]. simpl. rewrite count_warnings_app. by destruct added. }
  set (p := w_dataset w _).
  unfold bind at 1. unfold invoke at 1. simpl.
  destruct (w_raises w _) as [e|].
  { intros [= <- <-]. simpl. rewrite !count_warnings_app. by destruct added. }
  set (n := w_total_datums w _).
  unfold bind at 1. unfold log at 1. simpl.
  unfold bind at 1. rewrite when_log_run. simpl.
  unfold bind at 1. rewrite when_log_run. simpl.
  match goal with |- context [State ds1 ls1 ?t] =>
    replace t with (embeddings_prelude DEFAULT w a p added n)
      by (unfold embeddings_prelude; simpl; by rewrite <- !app_assoc) end.
  pose proof (embeddings_prelude_warnings DEFAULT w a p added n) as (Hpre & _).
  unfold bind at 1. unfold try_except.
  destruct (embeddings_upload _ _ _ _) as [[[]|e] st1] eqn:Hup;
    apply embeddings_upload_run in Hup as (_ & _ & Hup); cbn [st_trace st_lists st_dicts] in Hup.
  - destruct Hup as [[? _]|(refs & rs & _ & _ & [[_ Ht1]|(e & ? & _)])]; [done| |done].
    unfold bind at 1. unfold log at 1. simpl. intros Hpost.
    eapply (index_run _ (create_index (embeddings_index_args w a)) false n _ id) in Hpost
      as (_ & _ & post & r0 & Ht3 & _ & Hpost); [|apply embeddings_index_step].
    cbn [st_trace] in Ht3. rewrite Ht3, Ht1, !count_warnings_app, Hpre.
    rewrite (post_shape_warnings _ _ _ _ _ _ Hpost). unfold count_warnings. simpl. lia.
  - unfold isinstance_BaseException. unfold bind at 1.
    destruct (rollback _ _ _ _ _) as [r1 st2] eqn:Hback.
    apply rollback_run in Hback as (_ & _ & back & e' & Ht3 & -> & Hback).
    intros [= <- <-]. rewrite Ht3, count_warnings_app.
    rewrite (rollback_shape_warnings _ _ _ _ _ _ Hback).
    destruct Hup as [[_ ->]|(refs & rs & _ & _ & [[? _]|(e0 & _ & ->)])]; [|done|].
    + rewrite Hpre. lia.
    + rewrite count_warnings_app, Hpre. unfold count_warnings. simpl. lia.
Qed.

End Metadata.

(** ** The calls of a run *)

Section Calls.
Context (DEFAULT : string) (b64int : nat -> string) (w : world).

Lemma text_prelude_calls a p add sample n :
  calls_of (text_prelude DEFAULT w a p add sample n)
  = [AtlasDataset_init (text_dataset_args DEFAULT w a);
     validate_map_data_inputs (t_colorable_fields a) (default DEFAULT (t_id_field a)) sample;
     total_datums].
Proof. by split_flags. Qed.

Lemma embeddings_prelude_calls a p added n :
  calls_of (embeddings_prelude DEFAULT w a p added n)
  = [AtlasDataset_init (embeddings_dataset_args DEFAULT w a); total_datums].
Proof. by split_flags. Qed.

Lemma rollback_shape_no_setup label n e back e' :
  rollback_shape label n e back e' ->
  Forall (fun c => is_setup c = false) (calls_of back) /\ count_calls is_add_records back = 0.
Proof. destruct 1; repeat constructor. Qed.

Lemma post_shape_no_setup create logs n post r :
  post_shape (create_index create) logs n post r ->
  Forall (fun c => is_setup c = false) (calls_of post) /\ count_calls is_add_records post = 0.
Proof.
  intros Hpost. split.
  - apply Forall_calls_of. intros c out Hin.
    apply (post_shape_calls _ _ _ _ _ _ _ Hpost) in Hin as [->|[->| ->]]; done.
  - apply count_calls_none. intros c out Hin.
    apply (post_shape_calls _ _ _ _ _ _ _ Hpost) in Hin as [->|[->| ->]]; done.
Qed.

(** The calls of a run of [map_embeddings] that has read [total_datums]. *)
Lemma embeddings_run_calls content a emb tr r n :
  embeddings_run DEFAULT w content a emb tr r ->
  number_of_datums_before_upload tr = Some n ->
  exists rest,
    calls_of tr = AtlasDataset_init (embeddings_dataset_args DEFAULT w a) :: total_datums :: rest /\
    Forall (fun c => is_setup c = false) rest /\
    count_calls is_add_records tr <= 1.
Proof.
  intros Hrun Hn.
  destruct Hrun as [e|added e|added p e|added p n0 back e' Hback|added p n0 rs e back e' _ Hback
                    |added p n0 rs post r _ Hpost].
  1-3: by split_flags.
  - destruct (rollback_shape_no_setup _ _ _ _ _ Hback) as [Hs Hc].
    exists (calls_of back). rewrite calls_of_app, embeddings_prelude_calls. split; [done|].
    split; [done|]. rewrite count_calls_app, Hc.
    rewrite (prelude_count _ _ _ _ (embeddings_prelude_of DEFAULT w a p added n0))
      by (by intros []). lia.
  - destruct (rollback_shape_no_setup _ _ _ _ _ Hback) as [Hs Hc].
    exists (add_embeddings emb rs :: calls_of back).
    rewrite calls_of_app, embeddings_prelude_calls. split; [done|].
    split; [by constructor|]. change (?x :: back) with ([x] ++ back).
    rewrite !count_calls_app, Hc.
    rewrite (prelude_count _ _ _ _ (embeddings_prelude_of DEFAULT w a p added n0))
      by (by intros []). unfold count_calls. simpl. lia.
  - destruct (post_shape_no_setup _ _ _ _ _ Hpost) as [Hs Hc].
    exists (add_embeddings emb rs :: calls_of post).
    rewrite calls_of_app, embeddings_prelude_calls. split; [done|].
    split; [by constructor|]. change (?x :: ?y :: post) with ([x; y] ++ post).
    rewrite !count_calls_app, Hc.
    rewrite (prelude_count _ _ _ _ (embeddings_prelude_of DEFAULT w a p added n0))
      by (by intros []). unfold count_calls. simpl. lia.
Qed.

Lemma needs_id_default a sample :
  needs_id DEFAULT a sample = true -> text_id_field DEFAULT a = DEFAULT.
Proof.
  unfold needs_id. intros H. apply andb_prop in H as [H _]. by apply bool_decide_eq_true in H.
Qed.

Lemma nd_size_rows emb n dims : nd_shape emb = n :: dims -> nd_size emb <> 0 -> n <> 0.
Proof. unfold nd_size. intros -> Hsize ->. by apply Hsize. Qed.

End Calls.

(** ** Counting batches *)

Section BatchCount.
Context (DEFAULT : string) (b64int : nat -> string) (w : world).

Lemma full_batches_length bsz (sent : list (list record)) :
  Forall (full_batch bsz) sent ->
  Z.of_nat (length (concat sent)) = (bsz * Z.of_nat (length sent))%Z.
Proof.
  induction 1 as [|b sent Hb _ IH]; simpl; [lia|].
  rewrite length_app. unfold full_batch in Hb. lia.
Qed.

Lemma uploaded_records_length a recs :
  length (uploaded_records DEFAULT b64int a recs) = length recs.
Proof.
  unfold uploaded_records. destruct recs as [|sample recs]; [done|].
  destruct (needs_id DEFAULT a sample); [|done]. apply with_ids_length.
Qed.

(** After a successful upload the number of batches is the number of
    records divided by the batch size, rounded up. *)
Lemma text_run_batch_count bsz ds a it tr r recs :
  (0 < bsz)%Z ->
  text_run DEFAULT b64int w bsz ds a it tr r ->
  text_upload_succeeded tr -> points_to ds (it_items it) recs ->
  Z.of_nat (length (sent_batches tr)) = ((Z.of_nat (length recs) + bsz - 1) / bsz)%Z.
Proof.
  intros Hbsz Hrun Hok Hrecs.
  destruct (text_run_content _ _ _ _ _ _ _ _ _ recs Hrun Hrecs) as [_ Hall].
  specialize (Hall Hok). apply (f_equal length) in Hall.
  rewrite uploaded_records_length in Hall.
  apply text_run_batches in Hrun as (sent & tail & Hsent & Hfull & Htail).
  rewrite Hsent, concat_app, length_app in Hall. rewrite Hsent, length_app.
  apply full_batches_length in Hfull.
  destruct Htail as [->|(b & -> & Hpos & Hle)]; simpl in Hall |- *.
  - apply (Z.div_unique_pos _ _ _ (bsz - 1)); lia.
  - rewrite app_nil_r in Hall.
    apply (Z.div_unique_pos _ _ _ (Z.of_nat (length b) - 1)); lia.
Qed.

End BatchCount.

(** ** The calls a run can make *)

Section Alphabet.
Context (DEFAULT : string) (b64int : nat -> string) (w : world).

Lemma sends_calls bs c out : In (EvCall c out) (sends bs) -> exists b, c = add_text b.
Proof.
  induction bs as [|b bs IH]; [done|]. intros [[= <- _]|Hin]; eauto.
Qed.

Lemma upload_shape_calls bsz err up r c out :
  upload_shape bsz err up r -> In (EvCall c out) up -> exists b, c = add_text b.
Proof.
  destruct 1; rewrite ?in_app_iff; intros Hin; try (by eapply sends_calls).
  destruct Hin as [Hin|Hin]; [by eapply sends_calls|]. close_in Hin. eauto.
Qed.

Lemma In_calls_of c out tr : In (EvCall c out) tr -> In c (calls_of tr).
Proof.
  induction tr as [|ev tr IH]; [done|]. rewrite calls_of_cons.
  intros [->|Hin]; [by left|]. destruct ev; [right|]; auto.
Qed.

Lemma text_early_calls a it tr r :
  text_early DEFAULT w a it tr r ->
  exists sample,
    incl (calls_of tr)
      [AtlasDataset_init (text_dataset_args DEFAULT w a);
       validate_map_data_inputs (t_colorable_fields a) (default DEFAULT (t_id_field a)) sample;
       total_datums].
Proof.
  destruct 1 as [| | | |p add sample e|p add sample e];
    [exists ∅|exists ∅|exists ∅|exists ∅|exists sample|exists sample];
    split_flags; intros c Hin; simpl in *; tauto.
Qed.

Lemma text_setup_allowed a sample c :
  In c [AtlasDataset_init (text_dataset_args DEFAULT w a);
        validate_map_data_inputs (t_colorable_fields a) (default DEFAULT (t_id_field a)) sample;
        total_datums] ->
  text_call_allowed DEFAULT w a c.
Proof. intros [<-|[<-|[<-|[]]]]; done. Qed.

Lemma text_run_allowed bsz ds a it tr r c out :
  text_run DEFAULT b64int w bsz ds a it tr r ->
  In (EvCall c out) tr -> text_call_allowed DEFAULT w a c.
Proof.
  intros Hrun Hin.
  assert (forall p add sample n,
            In (EvCall c out) (text_prelude DEFAULT w a p add sample n) ->
            text_call_allowed DEFAULT w a c) as Hpre.
  { intros p add sample n H. apply In_calls_of in H. rewrite text_prelude_calls in H.
    by eapply text_setup_allowed. }
  destruct Hrun as [tr r Hearly|p add sample n up e0 back e' Hup _ Hback
                    |p add sample n up post r Hup _ Hpost].
  - apply text_early_calls in Hearly as [sample Hincl].
    eapply text_setup_allowed, Hincl, In_calls_of, Hin.
  - rewrite !in_app_iff in Hin. destruct Hin as [Hin|[Hin|Hin]]; [by eapply Hpre| |].
    + by apply (upload_shape_calls _ _ _ _ _ _ Hup) in Hin as [b ->].
    + by apply (rollback_shape_calls _ _ _ _ _ _ _ Hback) in Hin as ->.
  - rewrite !in_app_iff in Hin.
    destruct Hin as [Hin|[Hin|Hin]]; [by eapply Hpre| |destruct Hin as [Hin|Hin]; [done|]].
    + by apply (upload_shape_calls _ _ _ _ _ _ Hup) in Hin as [b ->].
    + apply (post_shape_calls _ _ _ _ _ _ _ Hpost) in Hin as [->|[->| ->]]; done.
Qed.

Lemma embeddings_setup_allowed a emb c :
  In c [AtlasDataset_init (embeddings_dataset_args DEFAULT w a); total_datums] ->
  embeddings_call_allowed DEFAULT w a emb c.
Proof. intros [<-|[<-|[]]]; done. Qed.

Lemma embeddings_run_allowed content a emb tr r c out :
  embeddings_run DEFAULT w content a emb tr r ->
  In (EvCall c out) tr -> embeddings_call_allowed DEFAULT w a emb c.
Proof.
  intros Hrun Hin.
  assert (forall p added n,
            In (EvCall c out) (embeddings_prelude DEFAULT w a p added n) ->
            embeddings_call_allowed DEFAULT w a emb c) as Hpre.
  { intros p added n H. apply In_calls_of in H. rewrite embeddings_prelude_calls in H.
    by apply embeddings_setup_allowed. }
  destruct Hrun as [e|added e|added p e|added p n back e' Hback
                    |added p n rs0 e back e' Hrs Hback|added p n rs0 post r Hrs Hpost].
  1: done.
  1-2: apply In_calls_of in Hin; apply embeddings_setup_allowed;
       destruct added; simpl in *; tauto.
  - apply in_app_iff in Hin as [Hin|Hin]; [by eapply Hpre|].
    by apply (rollback_shape_calls _ _ _ _ _ _ _ Hback) in Hin as ->.
  - apply in_app_iff in Hin as [Hin|[Hin|Hin]]; [by eapply Hpre| |].
    + by injection Hin as <- _.
    + by apply (rollback_shape_calls _ _ _ _ _ _ _ Hback) in Hin as ->.
  - apply in_app_iff in Hin as [Hin|[Hin|[Hin|Hin]]]; [by eapply Hpre| |done|].
    + by injection Hin as <- _.
    + apply (post_shape_calls _ _ _ _ _ _ _ Hpost) in Hin as [->|[->| ->]]; done.
Qed.

End Alphabet.

(** ** What the upload phase raises *)

Section Interrupted.
Context (DEFAULT : string) (b64int : nat -> string) (w : world).

(** On references that point to records, the loop only raises what
    [add_text] raises. *)
Lemma upload_loop_raises bsz add idf items : forall batch i st e st' brecs recs,
  points_to (st_dicts st) batch brecs ->
  points_to (st_dicts st) items recs ->
  upload_loop b64int w bsz add idf items batch i st = (Raise e, st') ->
  exists b tr0, st_trace st' = tr0 ++ [EvCall (add_text b) (Raise e)].
Proof.
  induction items as [|d items IH]; intros batch i st e st' brecs recs Hbatch Hitems;
    cbn [upload_loop]; [done|].
  apply Forall2_cons_inv_l in Hitems as (rc & recs' & Hd & Hitems & ->).
  destruct (with_id_content b64int add idf d i st rc Hd) as (d' & st1 & Hw & Hd' & Hpre & Ht1).
  unfold bind at 1. rewrite Hw. cbn [fst snd].
  assert (points_to (st_dicts st1) (batch ++ [d'])
            (brecs ++ [if add then <[idf:=VStr (b64int i)]> rc else rc])) as Hbatch1.
  { apply Forall2_app; [by eapply points_to_mono|]. by constructor. }
  assert (points_to (st_dicts st1) items recs') as Hitems1 by (by eapply points_to_mono).
  unfold bind at 1.
  destruct (Z.of_nat (length (batch ++ [d'])) >=? bsz)%Z.
  - unfold bind at 1. unfold send_text. unfold bind at 1.
    rewrite (snapshot_points_to _ _ _ Hbatch1).
    unfold bind at 1. unfold invoke at 1.
    destruct (w_raises w _) as [e0|].
    + intros [= <- <-]. cbn [st_trace]. eauto.
    + unfold ret. intros Hrec.
      eapply (IH _ _ _ _ _ [] recs') in Hrec; [done|by constructor|exact Hitems1].
  - unfold ret at 1. intros Hrec. eapply IH in Hrec; eauto.
Qed.

(** So the upload phase only raises what [add_text] or the iterator
    raises. *)
Lemma text_upload_raises bsz add idf first it st e st' sample recs :
  st_dicts st !! first = Some sample ->
  points_to (st_dicts st) (it_items it) recs ->
  text_upload b64int w bsz add idf first it st = (Raise e, st') ->
  (exists b tr0, st_trace st' = tr0 ++ [EvCall (add_text b) (Raise e)]) \/
  it_error it = Some e.
Proof.
  intros Hfirst Hitems. unfold text_upload.
  destruct (with_id_content b64int add idf first 0 st sample Hfirst)
    as (d' & st1 & Hw & Hd' & Hpre & Ht1).
  unfold bind at 1. rewrite Hw. cbn [fst snd].
  assert (points_to (st_dicts st1) [d']
            [if add then <[idf:=VStr (b64int 0)]> sample else sample]) as Hbatch
    by (by constructor).
  assert (points_to (st_dicts st1) (it_items it) recs) as Hitems1
    by (by eapply points_to_mono).
  unfold bind at 1.
  destruct (upload_loop _ _ _ _ _ _ _ _ st1) as [[[batch i'']|e0] st2] eqn:Hloop.
  - eapply upload_loop_content in Hloop as (up & _ & Hr); [|exact Hbatch|exact Hitems1].
    cbv zeta in Hr. destruct Hr as (brecs' & Hb' & _). cbn [fst].
    destruct (it_error it) as [e0|].
    + intros [= <- <-]. by right.
    + unfold when. case_bool_decide; [|unfold ret; by intros [=]].
      unfold send_text. unfold bind at 1. rewrite (snapshot_points_to _ _ _ Hb').
      unfold bind, invoke, ret.
      destruct (w_raises w _) as [e0|]; intros [= <- <-]. left. cbn [st_trace]. eauto.
  - intros [= <- <-]. left.
    eapply upload_loop_raises; [exact Hbatch|exact Hitems1|exact Hloop].
Qed.

End Interrupted.

(** ** The rollback *)

Section RolledBack.
Context (DEFAULT : string) (b64int : nat -> string) (w : world).

Lemma last_not_raised (l : list event) c e :
  (forall c e, ~ In (EvCall c (Raise e)) l) -> last l <> Some (EvCall c (Raise e)).
Proof.
  intros Hno Hlast. apply last_Some_elem_of, list_elem_of_In in Hlast. by apply Hno in Hlast.
Qed.

Lemma sends_not_raised bs c e : ~ In (EvCall c (Raise e)) (sends bs).
Proof. induction bs as [|b bs IH]; [by intros []|]. intros [[=]|?]. by apply IH. Qed.

Lemma text_prelude_sends_last a p add sample n sent c e :
  last (text_prelude DEFAULT w a p add sample n ++ sends sent) <> Some (EvCall c (Raise e)).
Proof.
  apply last_not_raised. intros c0 e0. rewrite in_app_iff. intros [Hin|Hin].
  - by apply (prelude_calls _ _ _ (text_prelude_of DEFAULT w a p add sample n)) in Hin
      as [_ [? ?]].
  - by apply sends_not_raised in Hin.
Qed.

(** On a fresh dataset, a run of [map_text] whose upload phase does not
    complete ends with the rollback, and raises the exception of the upload
    phase or that of [delete]. *)
Lemma map_text_rolled_back bsz it a ds ls recs r st' :
  (1 < bsz)%Z -> points_to ds (it_items it) recs ->
  map_text_with DEFAULT b64int w bsz it a (start ds ls) = (r, st') ->
  number_of_datums_before_upload (st_trace st') = Some 0%Z ->
  ~ text_upload_succeeded (st_trace st') ->
  rolled_back (raised_by_iterator it) (st_trace st') r.
Proof.
  intros Hbsz Hrecs Hrun Hn Hnot.
  destruct it as [[|first items] err]; simpl in Hrecs.
  { exfalso. revert Hrun. unfold map_text_with, start, next_or_None. unfold bind at 1. simpl.
    destruct err; [by intros [= <- <-]|]. unfold bind, log, ret. simpl. by intros [= <- <-]. }
  apply Forall2_cons_inv_l in Hrecs as (s0 & recs' & Hs0 & Hrecs & ->).
  apply map_text_unfolds in Hrun as [(e0 & Hfail & _)|Hrun]; [| |done].
  { exfalso. apply (text_setup_fails_early _ _ _ _ _ items err) in Hfail.
    apply text_early_early in Hfail. rewrite (early_datums _ _ Hfail) in Hn. done. }
  destruct Hrun as (sample & p & n & rup & st_up & up & tail & Hs & Hup & _ & _ & Hshape & Ht1
                    & Ht & Hclose & Hok).
  rewrite Ht, (datums_app_Some _ _ n) in Hn
    by apply (text_prelude_of DEFAULT w a p _ sample n).
  injection Hn as ->.
  destruct rup as [[]|e0].
  { destruct Hnot. destruct Hclose as (post & r0 & -> & _). rewrite Ht.
    unfold text_upload_succeeded. rewrite !in_app_iff. right. right. by left. }
  clear Hok Hnot. destruct Hclose as (e' & Hback & ->).
  assert ((exists tr00 c, is_add_records c = true /\
             text_prelude DEFAULT w a p (needs_id DEFAULT a sample) sample 0 ++ up
             = tr00 ++ [EvCall c (Raise e0)]) \/
          ((forall c e1,
              last (text_prelude DEFAULT w a p (needs_id DEFAULT a sample) sample 0 ++ up)
              <> Some (EvCall c (Raise e1))) /\
           raised_by_iterator (Iterator (first :: items) err) e0)) as Hsrc.
  { inversion Hshape as [|sent b e1 Hsent Hpos Hle|sent e1 Hsent Herr|sent Hsent]; subst.
    - left. eexists (_ ++ sends sent), (add_text b). split; [done|]. by rewrite app_assoc.
    - right. split; [intros; apply text_prelude_sends_last|done].
    - right. split; [intros; apply text_prelude_sends_last|].
      eapply text_upload_raises in Hup as [(b & tr0 & Hlast)|Hit]; [| |exact Hs|exact Hrecs].
      + exfalso. rewrite Ht1 in Hlast.
        apply (text_prelude_sends_last a p (needs_id DEFAULT a sample) sample 0 sent
                 (add_text b) dangling).
        rewrite Hlast. apply last_snoc.
      + exact Hit. }
  rewrite Ht, app_assoc. clear Ht.
  destruct Hback as [Hne| _ |e1 _]; [done|..].
  - exists (text_prelude DEFAULT w a p (needs_id DEFAULT a sample) sample 0 ++ up),
      (name p), (Ok RNone), e0. done.
  - exists (text_prelude DEFAULT w a p (needs_id DEFAULT a sample) sample 0 ++ up),
      (name p), (Raise e1), e0. done.
Qed.

(** With [data] in order, the metadata block leaves a list of references
    to records. *)
Lemma prepare_data_points_to emb data idf ds ls tr l added st1 :
  nd_size emb <> 0 -> data_points_to ds ls data ->
  prepare_data DEFAULT b64int emb data idf (State ds ls tr) = (Ok (l, added), st1) ->
  exists refs rs, st_lists st1 !! l = Some refs /\ points_to (st_dicts st1) refs rs.
Proof.
  intros Hsize Hdata. destruct data as [l0|]; simpl in Hdata.
  - destruct Hdata as (refs & recs & Hl & Hrecs).
    destruct (decide (idf = DEFAULT)) as [->|Hidf].
    2:{ rewrite prepare_data_pass_through by (by left). intros [= <- <- <-]. eauto. }
    destruct recs as [|sample recs].
    { apply Forall2_nil_inv_r in Hrecs as ->.
      by rewrite prepare_data_empty_list. }
    destruct refs as [|d0 refs]; [by apply Forall2_nil_cons_inv in Hrecs|].
    apply Forall2_cons_1 in Hrecs as Hd0. destruct Hd0 as [Hd0 _].
    destruct (sample !! DEFAULT) as [v|] eqn:Hid.
    + rewrite prepare_data_pass_through.
      * intros [= <- <- <-]. eauto.
      * right. exists d0, refs, sample. simpl. rewrite Hid. done.
    + rewrite (prepare_data_assigns DEFAULT b64int emb ds ls tr l0 (d0 :: refs)
                 (sample :: recs) sample Hl Hrecs eq_refl Hid).
      intros [= <- <- <-]. simpl.
      exists (seq (length ds) (length (d0 :: refs))), (with_ids b64int DEFAULT 0 (sample :: recs)).
      split; [apply list_lookup_insert_eq; by eapply lookup_lt_Some|].
      assert (length (d0 :: refs) = length (with_ids b64int DEFAULT 0 (sample :: recs))) as ->
        by (rewrite with_ids_length; by apply Forall2_length in Hrecs).
      apply points_to_fresh.
  - destruct (nd_shape emb) as [|n dims] eqn:Hshape.
    { by rewrite prepare_data_unsized. }
    rewrite (prepare_data_generates DEFAULT b64int emb idf ds ls tr n dims Hshape
               (nd_size_rows _ _ _ Hshape Hsize)).
    intros [= <- <- <-]. simpl.
    exists (seq (length ds) n), (generated_records DEFAULT b64int n).
    split; [by apply list_lookup_middle|].
    rewrite <- (generated_records_length DEFAULT b64int n) at 2. apply points_to_fresh.
Qed.

(** With [data] in order, a run of [map_embeddings] that has read
    [total_datums] goes on to call [add_embeddings]. *)
Lemma map_embeddings_uploads emb data a ds ls r st' n :
  data_points_to ds ls data ->
  map_embeddings DEFAULT b64int w emb data a (start ds ls) = (r, st') ->
  number_of_datums_before_upload (st_trace st') = Some n ->
  exists rs out, In (EvCall (add_embeddings emb rs) out) (st_trace st').
Proof.
  intros Hdata. unfold map_embeddings. case_bool_decide as Hsize.
  { by intros [= <- <-]. }
  unfold bind at 1.
  destruct (prepare_data _ _ _ _ _ _) as [[[l added]|e] st1] eqn:Hprep;
    apply quiet_prepare_data in Hprep as Hquiet; destruct Hquiet as [Ht1 _]; simpl in Ht1.
  2:{ intros [= <- <-]. by rewrite Ht1. }
  apply prepare_data_points_to in Hprep as (refs & rs & Hrefs & Hrs); [|done..].
  destruct st1 as [ds1 ls1 tr1]. simpl in *. subst tr1.
  unfold bind at 1. rewrite when_log_run. simpl.
  unfold bind at 1. unfold invoke at 1. simpl.
  destruct (w_raises w _) as [e|].
  { intros [= <- <-]. simpl. by destruct added. }
  set (p := w_dataset w _).
  unfold bind at 1. unfold invoke at 1. simpl.
  destruct (w_raises w _) as [e|].
  { intros [= <- <-]. simpl. by destruct added. }
  set (n0 := w_total_datums w _).
  unfold bind at 1. unfold log at 1. simpl.
  unfold bind at 1. rewrite when_log_run. simpl.
  unfold bind at 1. rewrite when_log_run. simpl.
  match goal with |- context [State ds1 ls1 ?t] => set (pre := t) end.
  unfold bind at 1. unfold try_except.
  unfold embeddings_upload at 1. unfold bind at 1. unfold list_get at 1. simpl. rewrite Hrefs.
  unfold bind at 1. rewrite (snapshot_points_to refs rs (State ds1 ls1 pre) Hrs).
  unfold bind at 1. unfold invoke at 1. simpl.
  destruct (w_raises w _) as [e|].
  - unfold isinstance_BaseException. unfold bind at 1.
    destruct (rollback _ _ _ _ _) as [r1 st2] eqn:Hback.
    apply rollback_run in Hback as (_ & _ & back & e' & Ht3 & -> & _).
    intros [= <- <-] _. exists rs, (Raise e). rewrite Ht3. simpl.
    rewrite !in_app_iff. left. right. by left.
  - unfold ret at 1. unfold bind at 1. unfold log at 1. simpl. intros Hpost _.
    eapply (index_run _ (create_index (embeddings_index_args w a)) false n0 _ id) in Hpost
      as (_ & _ & post & r0 & Ht3 & _ & _); [|apply embeddings_index_step].
    exists rs, (Ok RNone). rewrite Ht3. simpl.
    rewrite !in_app_iff. left. left. right. by left.
Qed.

(** On a fresh dataset, a run of [map_embeddings] whose upload does not
    complete ends with the rollback after [add_embeddings] raised. *)
Lemma map_embeddings_rolled_back emb data a ds ls r st' :
  data_points_to ds ls data ->
  map_embeddings DEFAULT b64int w emb data a (start ds ls) = (r, st') ->
  number_of_datums_before_upload (st_trace st') = Some 0%Z ->
  ~ embedding_upload_succeeded (st_trace st') ->
  rolled_back no_exception (st_trace st') r.
Proof.
  intros Hdata Hrun Hn Hnot.
  destruct (map_embeddings_uploads _ _ _ _ _ _ _ _ Hdata Hrun Hn) as (rs1 & out1 & Hadd).
  apply map_embeddings_run in Hrun as (Hrun & _).
  revert Hn Hnot Hadd.
  destruct Hrun as [e|added e|added p e|added p n back e' Hback|added p n rs e back e' _ Hback
                    |added p n rs post r _ Hpost]; intros Hn Hnot Hadd.
  1: done.
  1-2: by destruct added.
  - exfalso. apply in_app_iff in Hadd as [Hin|Hin].
    + by apply (prelude_calls _ _ _ (embeddings_prelude_of DEFAULT w a p added n)) in Hin
        as [? _].
    + by apply (rollback_shape_calls _ _ _ _ _ _ _ Hback) in Hin.
  - rewrite (datums_app_Some _ _ n) in Hn by apply embeddings_prelude_of.
    injection Hn as ->.
    change (?x :: back) with ([x] ++ back). rewrite app_assoc.
    destruct Hback as [Hne| _ |e1 _]; [done|..].
    + eexists _, (identifier p), (Ok RNone), e. split; [done|]. split; [|done].
      left. by eexists _, (add_embeddings emb rs).
    + eexists _, (identifier p), (Raise e1), e. split; [done|]. split; [|done].
      left. by eexists _, (add_embeddings emb rs).
  - destruct Hnot. unfold embedding_upload_succeeded. rewrite in_app_iff. right. right. by left.
Qed.

End RolledBack.

(** * The rollback handler *)

Section Handler.
Context (ATLAS_DEFAULT_ID_FIELD : string) (b64int : nat -> string) (w : world).

Local Abbreviation DEFAULT := ATLAS_DEFAULT_ID_FIELD.

(** C10.  On a fresh dataset ([total_datums] was 0), whenever the upload
    phase does not complete, the run ends with the [delete] call, whatever
    was raised and of whatever exception class.  The exception of the
    upload phase is the one the last add-records call raised or, in
    [map_text] when the upload phase did not end on such a call, the one
    the iterator ended with.  The caller gets this very exception when
    [delete] returns, and the exception of [delete] when [delete]
    raises. *)
Theorem rollback_catches_every_exception it a emb data ea ds ls recs :
  (points_to ds (it_items it) recs ->
   let run := map_text DEFAULT b64int w it a (start ds ls) in
   number_of_datums_before_upload (st_trace run.2) = Some 0%Z ->
   ~ text_upload_succeeded (st_trace run.2) ->
   rolled_back (raised_by_iterator it) (st_trace run.2) run.1) /\
  (data_points_to ds ls data ->
   let run := map_embeddings DEFAULT b64int w emb data ea (start ds ls) in
   number_of_datums_before_upload (st_trace run.2) = Some 0%Z ->
   ~ embedding_upload_succeeded (st_trace run.2) ->
   rolled_back no_exception (st_trace run.2) run.1).
Proof.
  split; intros Hdata run; destruct run as [r st'] eqn:Hrun; subst run; cbn [fst snd].
  - by eapply map_text_rolled_back; [apply batch_size_gt_1|..].
  - by eapply map_embeddings_rolled_back.
Qed.

End Handler.

Lemma example_data_points_to : data_points_to example_records example_lists (Some 0).
Proof. exists [0; 1; 2], example_records. split; [reflexivity|exact example_points_to]. Qed.

(** C10, witness: the upload to a fresh dataset is interrupted by a
    [KeyboardInterrupt], which is not an [Exception]. *)
Lemma rollback_catches_every_exception_witness :
  isinstance_Exception interrupt = false /\
  rolled_back (raised_by_iterator example_iterator)
    (st_trace (text_example (add_fails interrupt 0)).2)
    (text_example (add_fails interrupt 0)).1 /\
  rolled_back no_exception
    (st_trace (embeddings_example (add_fails interrupt 0)).2)
    (embeddings_example (add_fails interrupt 0)).1.
Proof.
  destruct (rollback_catches_every_exception "id_" decimal (add_fails interrupt 0)
              example_iterator example_text_args example_embeddings (Some 0)
              example_embeddings_args example_records example_lists example_records)
    as [Htext Hemb].
  split; [reflexivity|]. split.
  - apply (Htext example_points_to); [vm_compute; reflexivity|not_in_trace].
  - apply (Hemb example_data_points_to); [vm_compute; reflexivity|not_in_trace].
Defined.

(** On the interrupted run, no other result passes for rolled back: the
    exception the caller gets is the interrupt. *)
Example rolled_back_pins_the_exception (r : result (option AtlasDataset)) :
  rolled_back (raised_by_iterator example_iterator)
    (st_trace (text_example (add_fails interrupt 0)).2) r ->
  r = Raise interrupt.
Proof.
  intros (tr0 & label & out & e & Htr & Hsrc & ->).
  apply (f_equal reverse) in Htr. rewrite reverse_app in Htr.
  remember (reverse (st_trace (text_example (add_fails interrupt 0)).2)) as rt eqn:Hrt.
  vm_compute in Hrt. subst rt.
  pose proof (f_equal head Htr) as Hout. injection Hout as <-.
  apply (f_equal (drop 2)) in Htr. simpl in Htr. rewrite drop_0 in Htr.
  destruct Hsrc as [(tr00 & c & _ & ->)|[Hlast _]].
  - rewrite reverse_snoc in Htr. by injection Htr as _ <- _.
  - exfalso. eapply Hlast. rewrite <- head_reverse, <- Htr. reflexivity.
Qed.

(** * Further properties of the uploaders *)

Section Further.
Context (ATLAS_DEFAULT_ID_FIELD : string) (b64int : nat -> string) (w : world).

Local Abbreviation DEFAULT := ATLAS_DEFAULT_ID_FIELD.

(** X1.  No error of the remote is swallowed.  When a call on the dataset
    object raises [e] (the constructor, the validation, [total_datums], an
    add-records call, [delete], the index-building call or the state
    refresh), the run raises [e]; the one exception is an add-records error
    on which the [delete] of the rollback raises in turn, and then the run
    raises the error of [delete].  This holds for both uploaders. *)
Theorem errors_reach_the_caller it a emb data ea ds ls :
  (let run := map_text DEFAULT b64int w it a (start ds ls) in
   propagates (st_trace run.2) run.1) /\
  (let run := map_embeddings DEFAULT b64int w emb data ea (start ds ls) in
   propagates (st_trace run.2) run.1).
Proof.
  split; intros run; destruct run as [r st'] eqn:Hrun; subst run; cbn [fst snd].
  - apply map_text_run in Hrun as (Hrun & _); [|apply batch_size_gt_1].
    by eapply text_run_propagates.
  - apply map_embeddings_run in Hrun as (Hrun & _). by eapply embeddings_run_propagates.
Qed.

(** X2.  In every run of either uploader [delete] is called at most once.
    When it is called, [total_datums] had returned 0, the upload was not
    marked as succeeded, [delete] is the last call of the run and the run
    raises.  So a failure of the constructor, of the validation or of
    [total_datums], and a failure after a successful upload, are never
    rolled back. *)
Theorem delete_only_after_failed_first_upload it a emb data ea ds ls :
  (let run := map_text DEFAULT b64int w it a (start ds ls) in
   delete_policy "Text upload succeeded." (st_trace run.2) run.1) /\
  (let run := map_embeddings DEFAULT b64int w emb data ea (start ds ls) in
   delete_policy "Embedding upload succeeded." (st_trace run.2) run.1).
Proof.
  split; intros run; destruct run as [r st'] eqn:Hrun; subst run; cbn [fst snd].
  - apply map_text_run in Hrun as (Hrun & _); [|apply batch_size_gt_1].
    apply text_run_phases in Hrun. eapply phases_delete; [|done]. simpl. lia.
  - apply map_embeddings_run in Hrun as (Hrun & _).
    apply embeddings_run_phases in Hrun. eapply phases_delete; [|done]. simpl. lia.
Qed.

(** X3.  What a normal return means.  [map_text] returns [None] only on an
    iterator that yields nothing, and then no call was made; when it returns
    a dataset, the upload was marked as succeeded, the dataset is the answer
    of the final [_latest_project_state] call, and the batches sent hold
    every record the iterator yields.  When [map_embeddings] returns, the
    upload was marked as succeeded, the result is the answer of the final
    [_latest_project_state] call, and exactly one add-records call was
    made. *)
Theorem normal_return_means_uploaded it a emb data ea ds ls :
  (let run := map_text DEFAULT b64int w it a (start ds ls) in
   forall o, run.1 = Ok o ->
     match o with
     | None => it_items it = [] /\ it_error it = None /\ calls_of (st_trace run.2) = []
     | Some p =>
         text_upload_succeeded (st_trace run.2) /\
         last (st_trace run.2) = Some (EvCall latest_project_state (Ok (RDataset p))) /\
         forall recs, points_to ds (it_items it) recs ->
           concat (sent_batches (st_trace run.2)) = uploaded_records DEFAULT b64int a recs
     end) /\
  (let run := map_embeddings DEFAULT b64int w emb data ea (start ds ls) in
   forall p, run.1 = Ok p ->
     embedding_upload_succeeded (st_trace run.2) /\
     last (st_trace run.2) = Some (EvCall latest_project_state (Ok (RDataset p))) /\
     count_calls is_add_records (st_trace run.2) = 1).
Proof.
  split; intros run; destruct run as [r st'] eqn:Hrun; subst run; cbn [fst snd].
  - intros o ->. apply map_text_run in Hrun as (Hrun & _); [|apply batch_size_gt_1].
    by apply text_returns in Hrun.
  - intros p ->. apply map_embeddings_run in Hrun as (Hrun & _).
    by apply embeddings_returns in Hrun as (? & ? & ? & _).
Qed.

(** X4.  The set-up of [map_text].  A run that has read [total_datums] has
    started with exactly three calls: the constructor, the validation and
    [total_datums], in this order, and makes none of them again.  The
    validation gets the caller's colorable fields, the identifier field
    with the default filled in, and the first record as the caller passed
    it, before any identifier is added to it. *)
Theorem map_text_setup_calls it a ds ls first sample n :
  head (it_items it) = Some first -> ds !! first = Some sample ->
  let tr := st_trace (map_text DEFAULT b64int w it a (start ds ls)).2 in
  number_of_datums_before_upload tr = Some n ->
  exists rest,
    calls_of tr
    = AtlasDataset_init (text_dataset_args DEFAULT w a)
        :: validate_map_data_inputs (t_colorable_fields a) (default DEFAULT (t_id_field a)) sample
        :: total_datums :: rest /\
    Forall (fun c => is_setup c = false) rest.
Proof.
  intros Hhead Hfirst tr. subst tr.
  destruct (map_text _ _ _ _ _ _) as [r st'] eqn:Hrun. cbn [snd]. intros Hn.
  destruct it as [[|first' items] err]; [done|]. injection Hhead as ->.
  apply map_text_unfolds in Hrun as [(e & Hfail & _)|Hrun]; [| |apply batch_size_gt_1].
  { exfalso. apply (text_setup_fails_early _ _ _ _ _ items err) in Hfail.
    apply text_early_early in Hfail. rewrite (early_datums _ _ Hfail) in Hn. done. }
  destruct Hrun as (sample' & p & n' & rup & st_up & up & tail & Hs & _ & _ & _ & Hshape & _
                    & Ht & Hclose & _).
  assert (sample' = sample) as -> by congruence.
  exists (calls_of up ++ calls_of tail). split.
  - by rewrite Ht, !calls_of_app, text_prelude_calls.
  - apply Forall_app; split; apply Forall_calls_of; intros c out Hin.
    + apply (upload_events_calls _ _ _ _ _
               (upload_shape_events upload_batch_size (Iterator items err) _ _ Hshape)) in Hin.
      by destruct c.
    + by apply (text_closing_calls _ _ _ _ _ _ _ _ _ Hclose) in Hin as [? _].
Qed.

(** X5.  The set-up of [map_embeddings].  A run that has read
    [total_datums] has started with exactly two calls, the constructor and
    [total_datums], and makes neither again; there is no validation call.
    The records are not split into batches: the run makes at most one
    add-records call. *)
Theorem map_embeddings_setup_calls emb data ea ds ls n :
  let tr := st_trace (map_embeddings DEFAULT b64int w emb data ea (start ds ls)).2 in
  number_of_datums_before_upload tr = Some n ->
  (exists rest,
     calls_of tr
     = AtlasDataset_init (embeddings_dataset_args DEFAULT w ea) :: total_datums :: rest /\
     Forall (fun c => is_setup c = false) rest) /\
  count_calls is_add_records tr <= 1.
Proof.
  intros tr. subst tr.
  destruct (map_embeddings _ _ _ _ _ _ _) as [r st'] eqn:Hrun. cbn [snd]. intros Hn.
  apply map_embeddings_run in Hrun as (Hrun & _).
  destruct (embeddings_run_calls _ _ _ _ _ _ _ _ Hrun Hn) as (rest & Hcalls & Hrest & Hcount).
  split; [by exists rest|done].
Qed.

(** X6.  Pass-through in [map_text].  When the first record holds the
    identifier field, or the identifier field is not the default one,
    [map_text] allocates nothing and writes nothing: the heap after the run
    is the caller's heap. *)
Theorem map_text_pass_through it a ds ls first sample :
  head (it_items it) = Some first -> ds !! first = Some sample ->
  needs_id DEFAULT a sample = false ->
  let run := map_text DEFAULT b64int w it a (start ds ls) in
  st_dicts run.2 = ds /\ st_lists run.2 = ls.
Proof.
  intros Hhead Hfirst Hneeds run. destruct run as [r st'] eqn:Hrun. subst run. cbn [snd].
  destruct it as [[|first' items] err]; [done|]. injection Hhead as ->.
  apply map_text_unfolds in Hrun as [(e & _ & _ & ? & ?)|Hrun]; [done| |apply batch_size_gt_1].
  destruct Hrun as (sample' & p & n' & rup & st_up & up & tail & Hs & Hup & Hd & Hl & _).
  assert (sample' = sample) as -> by congruence. rewrite Hneeds in Hup.
  apply text_upload_pass_through in Hup. cbn [st_dicts] in Hup. split; [congruence|done].
Qed.

(** X7.  Identifier synthesis in [map_text] copies.  When the first record
    lacks the default identifier field, the only objects [map_text] creates
    are copies of the records the iterator yields, in order, each with its
    position as identifier: one for each record reached, and one for every
    record once the upload has succeeded.  The caller's lists are
    untouched. *)
Theorem map_text_copies_records it a ds ls recs sample :
  points_to ds (it_items it) recs -> head recs = Some sample ->
  needs_id DEFAULT a sample = true ->
  let run := map_text DEFAULT b64int w it a (start ds ls) in
  st_lists run.2 = ls /\
  exists k, k <= length recs /\
    st_dicts run.2 = ds ++ with_ids b64int DEFAULT 0 (take k recs) /\
    (text_upload_succeeded (st_trace run.2) -> k = length recs).
Proof.
  intros Hrecs Hhead Hneeds run. destruct run as [r st'] eqn:Hrun. subst run. cbn [snd].
  destruct it as [items err]. simpl in Hrecs.
  destruct recs as [|s0 recs]; [done|]. injection Hhead as ->.
  apply Forall2_cons_inv_r in Hrecs as (first & rest & Hfirst & Hrecs & ->).
  apply map_text_unfolds in Hrun as [(e & Hfail & _ & Hd & Hl)|Hrun]; [| |apply batch_size_gt_1].
  { split; [done|]. exists 0. split; [simpl; lia|]. split; [by rewrite Hd, app_nil_r|].
    intros Hok. exfalso. apply (text_setup_fails_early _ _ _ _ _ rest err) in Hfail.
    apply text_early_early in Hfail. by apply (early_marker _ _ Hfail). }
  destruct Hrun as (sample' & p & n' & rup & st_up & up & tail & Hs & Hup & Hd & Hl & _ & _
                    & _ & _ & Hok).
  assert (sample' = sample) as -> by congruence. rewrite Hneeds in Hup.
  rewrite (needs_id_default _ _ _ Hneeds) in Hup.
  eapply text_upload_copies in Hup as (k & Hk & Hds & Hall); [|done|exact Hrecs].
  split; [done|]. exists k. split; [done|]. split; [congruence|]. intros H. apply Hall, Hok, H.
Qed.

(** X8.  An iterator that ends with an exception.  The records of the
    pending batch are never sent: every batch [map_text] has sent holds
    exactly 100,000 records, the upload is not marked as succeeded, and the
    run raises. *)
Theorem iterator_error_drops_partial_batch it a ds ls e :
  it_error it = Some e ->
  let run := map_text DEFAULT b64int w it a (start ds ls) in
  Forall (fun b => Z.of_nat (length b) = 100000%Z) (sent_batches (st_trace run.2)) /\
  ~ text_upload_succeeded (st_trace run.2) /\
  exists e', run.1 = Raise e'.
Proof.
  intros Herr run. destruct run as [r st'] eqn:Hrun. subst run. cbn [fst snd].
  destruct it as [[|first items] err]; simpl in Herr; subst err.
  { injection Hrun as <- <-. simpl. split; [constructor|]. split; [by intros []|eauto]. }
  apply map_text_unfolds in Hrun as [(e0 & Hfail & -> & _)|Hrun]; [| |apply batch_size_gt_1].
  { apply (text_setup_fails_early _ _ _ _ _ items (Some e)) in Hfail.
    apply text_early_early in Hfail. rewrite (early_sent_batches _ _ Hfail).
    split; [constructor|]. split; [apply (early_marker _ _ Hfail)|eauto]. }
  destruct Hrun as (sample & p & n & rup & st_up & up & tail & _ & Hup & _ & _ & _ & Ht1 & Ht
                    & Hclose & Hok).
  eapply text_upload_interrupted in Hup as ([e0 ->] & up' & Ht1' & Hfull);
    [|apply batch_size_gt_1|done].
  cbn [st_trace] in Ht1'. rewrite Ht1 in Ht1'. apply app_inv_head in Ht1' as <-.
  destruct Hclose as (e' & Hback & ->).
  split; [|split; [|eauto]].
  - rewrite Ht, !sent_batches_app, (rollback_sent_batches _ _ _ _ _ Hback), app_nil_r.
    by rewrite (prelude_sent_batches _ _ _ (text_prelude_of DEFAULT w a p _ sample n)).
  - intros H. by specialize (Hok H).
Qed.

(** X9.  The identifier warning is logged at most once in a run of either
    uploader, however many records get an identifier.  In [map_text], once
    the constructor has returned, it is logged exactly when identifiers
    are synthesised: when the identifier field is the default one and the
    first record lacks it. *)
Theorem id_warning_logged_once it a emb data ea ds ls :
  (let tr := st_trace (map_text DEFAULT b64int w it a (start ds ls)).2 in
   count_warnings id_warning tr <= 1 /\
   forall first sample,
     head (it_items it) = Some first -> ds !! first = Some sample -> session_created tr ->
     count_warnings id_warning tr = if needs_id DEFAULT a sample then 1 else 0) /\
  (let tr := st_trace (map_embeddings DEFAULT b64int w emb data ea (start ds ls)).2 in
   count_warnings id_warning tr <= 1).
Proof.
  split; intros tr; subst tr.
  - destruct (map_text _ _ _ _ _ _) as [r st'] eqn:Hrun. cbn [snd]. split.
    + apply map_text_run in Hrun as (Hrun & _); [|apply batch_size_gt_1].
      destruct (text_run_warnings _ _ _ _ _ _ _ _ _ id_warning Hrun)
        as [(p & add & sample & n & rest & -> & Hrest)|Hearly].
      * rewrite count_warnings_app, Hrest.
        destruct (text_prelude_warnings DEFAULT w a p add sample n) as (-> & _).
        destruct add; lia.
      * by apply text_early_warnings in Hearly as (? & _).
    + intros first sample Hhead Hfirst Hcreated.
      destruct it as [[|first' items] err]; [done|]. injection Hhead as ->.
      apply map_text_unfolds in Hrun as [(e & Hfail & _)|Hrun]; [| |apply batch_size_gt_1].
      { by eapply text_setup_fails_id_warning. }
      destruct Hrun as (sample' & p & n & rup & st_up & up & tail & Hs & _ & _ & _ & Hshape & _
                        & -> & Hclose & _).
      assert (sample' = sample) as -> by congruence.
      rewrite !count_warnings_app, (text_closing_warnings _ _ _ _ _ _ _ _ Hclose).
      rewrite (upload_events_warnings _ _ _ _
                 (upload_shape_events upload_batch_size (Iterator items err) _ _ Hshape)).
      destruct (text_prelude_warnings DEFAULT w a p (needs_id DEFAULT a sample) sample n)
        as (-> & _).
      lia.
  - destruct (map_embeddings _ _ _ _ _ _ _) as [r st'] eqn:Hrun. cbn [snd].
    apply map_embeddings_run in Hrun as (Hrun & _).
    destruct (embeddings_run_warnings _ _ _ _ _ _ _ id_warning Hrun)
      as [(p & added & n & rest & -> & Hrest)|(_ & added & ->)].
    + rewrite count_warnings_app, Hrest.
      destruct (embeddings_prelude_warnings DEFAULT w ea p added n) as (-> & _).
      destruct added; lia.
    + destruct added; unfold count_warnings; simpl; lia.
Qed.

(** X10.  The deprecation warnings.  In a run of either uploader that has
    read [total_datums], the warning for [shard_size] is logged once when
    [shard_size] is given and not at all otherwise, and likewise for
    [num_workers]; a run that ends earlier logs neither. *)
Theorem deprecation_warnings_logged_once it a emb data ea ds ls :
  (let tr := st_trace (map_text DEFAULT b64int w it a (start ds ls)).2 in
   let reached := is_not_None (number_of_datums_before_upload tr) in
   count_warnings "Passing 'shard_size' is deprecated and will be removed in a future release."
     tr = (if is_not_None (t_shard_size a) && reached then 1 else 0) /\
   count_warnings "Passing 'num_workers' is deprecated and will be removed in a future release."
     tr = (if is_not_None (t_num_workers a) && reached then 1 else 0)) /\
  (let tr := st_trace (map_embeddings DEFAULT b64int w emb data ea (start ds ls)).2 in
   let reached := is_not_None (number_of_datums_before_upload tr) in
   count_warnings "Passing `shard_size` is deprecated and will raise an error in a future release"
     tr = (if is_not_None (e_shard_size ea) && reached then 1 else 0) /\
   count_warnings "Passing `num_workers` is deprecated and will raise an error in a future release"
     tr = (if is_not_None (e_num_workers ea) && reached then 1 else 0)).
Proof.
  split; intros tr reached; subst tr reached.
  - destruct (map_text _ _ _ _ _ _) as [r st'] eqn:Hrun. cbn [snd].
    apply map_text_run in Hrun as (Hrun & _); [|apply batch_size_gt_1].
    split;
      match goal with |- count_warnings ?msg _ = _ =>
        destruct (text_run_warnings _ _ _ _ _ _ _ _ _ msg Hrun)
          as [(p & add & sample & n & rest & -> & Hrest)|Hearly]
      end.
    1,3: rewrite count_warnings_app, Hrest,
           (datums_app_Some _ _ n) by apply (text_prelude_of DEFAULT w a p add sample n);
         destruct (text_prelude_warnings DEFAULT w a p add sample n) as (_ & H1 & H2);
         rewrite ?H1, ?H2, andb_true_r; simpl; lia.
    all: apply text_early_warnings in Hearly as Hw; destruct Hw as (_ & H1 & H2);
         apply text_early_early in Hearly; rewrite (early_datums _ _ Hearly), ?H1, ?H2;
         by rewrite andb_false_r.
  - destruct (map_embeddings _ _ _ _ _ _ _) as [r st'] eqn:Hrun. cbn [snd].
    apply map_embeddings_run in Hrun as (Hrun & _).
    split;
      match goal with |- count_warnings ?msg _ = _ =>
        destruct (embeddings_run_warnings _ _ _ _ _ _ _ msg Hrun)
          as [(p & added & n & rest & -> & Hrest)|(Hnone & added & ->)]
      end.
    1,3: rewrite count_warnings_app, Hrest,
           (datums_app_Some _ _ n) by apply (embeddings_prelude_of DEFAULT w ea p added n);
         destruct (embeddings_prelude_warnings DEFAULT w ea p added n) as (_ & H1 & H2);
         rewrite ?H1, ?H2, andb_true_r; simpl; lia.
    all: rewrite Hnone, andb_false_r; by destruct added.
Qed.

(** X11.  [map_embeddings] without [data].  For an array with [n] rows it
    creates [n] records, the record for row [i] holding [b64int i] under
    the default identifier field (whatever [id_field] is), in a new list;
    nothing else on the heap changes.  Every [add_embeddings] call gets the
    array and these records, and the identifier warning is logged once. *)
Theorem map_embeddings_generates_records emb ea ds ls n dims :
  nd_shape emb = n :: dims -> nd_size emb <> 0 ->
  let run := map_embeddings DEFAULT b64int w emb None ea (start ds ls) in
  st_dicts run.2 = ds ++ generated_records DEFAULT b64int n /\
  st_lists run.2 = ls ++ [seq (length ds) n] /\
  (forall emb' rs out, In (EvCall (add_embeddings emb' rs) out) (st_trace run.2) ->
     emb' = emb /\ rs = generated_records DEFAULT b64int n) /\
  count_warnings id_warning (st_trace run.2) = 1.
Proof.
  intros Hshape Hsize run. destruct run as [r st'] eqn:Hrun. subst run. cbn [snd].
  pose proof (prepare_data_generates DEFAULT b64int emb (default DEFAULT (e_id_field ea))
                ds ls [] n dims Hshape (nd_size_rows _ _ _ Hshape Hsize)) as Hprep.
  destruct (map_embeddings_unfolds _ _ _ _ _ _ _ _ _ _ _ _ _ Hsize Hprep Hrun)
    as (Hd & Hl & Hsent & Hwarn).
  cbn [st_dicts st_lists] in *. split; [done|]. split; [done|]. split; [|done].
  intros emb' rs out Hin. apply Hsent in Hin as (-> & refs & Hrefs & Hpt). split; [done|].
  rewrite list_lookup_middle in Hrefs by done. injection Hrefs as <-.
  eapply points_to_inj; [exact Hpt|].
  rewrite <- (generated_records_length DEFAULT b64int n) at 2. apply points_to_fresh.
Qed.

(** X12.  Errors of [map_embeddings] before any call.  With the default
    identifier field and an empty [data] list, reading [data[0]] raises
    [IndexError]; without [data], a 0-dimensional array has no [len] and
    [TypeError] is raised.  In both cases nothing is called or logged and
    the heap is untouched. *)
Theorem map_embeddings_local_errors emb l ea ds ls :
  (nd_size emb <> 0 -> default DEFAULT (e_id_field ea) = DEFAULT -> ls !! l = Some [] ->
   map_embeddings DEFAULT b64int w emb (Some l) ea (start ds ls)
   = (Raise IndexError, start ds ls)) /\
  (nd_shape emb = [] ->
   map_embeddings DEFAULT b64int w emb None ea (start ds ls)
   = (Raise (Exn (ExceptionClass "TypeError") "len() of unsized object"), start ds ls)).
Proof.
  split.
  - intros Hsize Hidf Hl. apply map_embeddings_prepare_fails; [done|].
    rewrite Hidf. by apply prepare_data_empty_list.
  - intros Hshape. apply map_embeddings_prepare_fails.
    + unfold nd_size. by rewrite Hshape.
    + by apply prepare_data_unsized.
Qed.

(** X13.  Identifier synthesis in [map_embeddings] replaces the slots of
    [data].  When the first record lacks the default identifier field, the
    run creates one copy with identifier for each record, in the order of
    the list, and nothing else; afterwards slot [i] of the list [data]
    holds the reference to the copy of record [i]: as many references as
    before, all of them new and pairwise distinct, also where two slots
    held the same object.  No other list changes, and the identifier
    warning is logged once. *)
Theorem map_embeddings_replaces_slots emb l ea ds ls refs recs sample :
  nd_size emb <> 0 -> default DEFAULT (e_id_field ea) = DEFAULT ->
  ls !! l = Some refs -> points_to ds refs recs ->
  head recs = Some sample -> sample !! DEFAULT = None ->
  let run := map_embeddings DEFAULT b64int w emb (Some l) ea (start ds ls) in
  let copies := with_ids b64int DEFAULT 0 recs in
  let refs' := seq (length ds) (length refs) in
  st_dicts run.2 = ds ++ copies /\
  st_lists run.2 = <[l := refs']> ls /\
  points_to (st_dicts run.2) refs' copies /\
  NoDup refs' /\ Forall (fun d => length ds <= d) refs' /\
  count_warnings id_warning (st_trace run.2) = 1.
Proof.
  intros Hsize Hidf Hl Hrecs Hhead Hmiss run copies refs'.
  destruct run as [r st'] eqn:Hrun. subst run copies refs'. cbn [snd].
  pose proof (prepare_data_assigns DEFAULT b64int emb ds ls [] l refs recs sample
                Hl Hrecs Hhead Hmiss) as Hprep.
  rewrite <- Hidf in Hprep at 2.
  destruct (map_embeddings_unfolds _ _ _ _ _ _ _ _ _ _ _ _ _ Hsize Hprep Hrun)
    as (Hd & Hl' & _ & Hwarn).
  cbn [st_dicts st_lists] in *. split; [done|]. split; [done|]. split.
  { rewrite Hd.
    assert (length refs = length (with_ids b64int DEFAULT 0 recs)) as ->
      by (rewrite with_ids_length; by apply Forall2_length in Hrecs).
    apply points_to_fresh. }
  split; [apply NoDup_seq|]. split; [|done]. apply Forall_seq. intros j Hj. lia.
Qed.

(** X14.  Pass-through in [map_embeddings].  When the identifier field is
    not the default one, or the first record of [data] holds it, the run
    leaves the heap as it is, logs no identifier warning, and every
    [add_embeddings] call gets the array and the records of [data] as they
    are. *)
Theorem map_embeddings_pass_through emb l ea ds ls :
  nd_size emb <> 0 ->
  (default DEFAULT (e_id_field ea) <> DEFAULT \/
   exists d0 refs sample,
     ls !! l = Some (d0 :: refs) /\ ds !! d0 = Some sample /\
     sample !! default DEFAULT (e_id_field ea) <> None) ->
  let run := map_embeddings DEFAULT b64int w emb (Some l) ea (start ds ls) in
  st_dicts run.2 = ds /\ st_lists run.2 = ls /\
  (forall emb' rs out, In (EvCall (add_embeddings emb' rs) out) (st_trace run.2) ->
     emb' = emb /\ exists refs, ls !! l = Some refs /\ points_to ds refs rs) /\
  count_warnings id_warning (st_trace run.2) = 0.
Proof.
  intros Hsize Hkeep run. destruct run as [r st'] eqn:Hrun. subst run. cbn [snd].
  pose proof (prepare_data_pass_through DEFAULT b64int emb (default DEFAULT (e_id_field ea))
                l (start ds ls) Hkeep) as Hprep.
  by destruct (map_embeddings_unfolds _ _ _ _ _ _ _ _ _ _ _ _ _ Hsize Hprep Hrun)
    as (Hd & Hl & Hsent & Hwarn).
Qed.

(** X15.  The number of uploads.  After a successful upload of [N] records
    [map_text] has made exactly [ceil(N / 100000)] calls of [add_text]. *)
Theorem number_of_batches it a ds ls recs :
  points_to ds (it_items it) recs ->
  let tr := st_trace (map_text DEFAULT b64int w it a (start ds ls)).2 in
  text_upload_succeeded tr ->
  Z.of_nat (length (sent_batches tr)) = ((Z.of_nat (length recs) + 99999) / 100000)%Z.
Proof.
  intros Hrecs tr. subst tr.
  destruct (map_text _ _ _ _ _ _) as [r st'] eqn:Hrun. cbn [snd]. intros Hok.
  apply map_text_run in Hrun as (Hrun & _); [|apply batch_size_gt_1].
  rewrite (text_run_batch_count _ _ _ upload_batch_size _ _ _ _ _ recs eq_refl Hrun Hok Hrecs).
  unfold upload_batch_size. f_equal. lia.
Qed.

(** X16.  The calls the uploaders can make.  In every run of [map_text]
    the constructor is only called with the caller's arguments (the name
    under [name=], modality text), the validation only with the caller's
    colorable fields and identifier field, [create_index] only with the
    caller's index parameters, and [add_embeddings] is never called.  In
    every run of [map_embeddings] the constructor is only called with the
    caller's arguments (the name under [identifier=], modality embedding),
    [create_index] only with the caller's index parameters,
    [add_embeddings] only with the caller's array, and neither the
    validation nor [add_text] is ever called.  In both, the index gets the
    name the dataset got. *)
Theorem calls_carry_the_arguments it a emb data ea ds ls :
  (let tr := st_trace (map_text DEFAULT b64int w it a (start ds ls)).2 in
   Forall (text_call_allowed DEFAULT w a) (calls_of tr) /\
   forall da ia out out',
     In (EvCall (AtlasDataset_init da) out) tr -> In (EvCall (create_index ia) out') tr ->
     da_name da = Some (ia_name ia) /\ da_modality da = "text") /\
  (let tr := st_trace (map_embeddings DEFAULT b64int w emb data ea (start ds ls)).2 in
   Forall (embeddings_call_allowed DEFAULT w ea emb) (calls_of tr) /\
   forall da ia out out',
     In (EvCall (AtlasDataset_init da) out) tr -> In (EvCall (create_index ia) out') tr ->
     da_identifier da = Some (ia_name ia) /\ da_modality da = "embedding").
Proof.
  split; intros tr; subst tr.
  - destruct (map_text _ _ _ _ _ _) as [r st'] eqn:Hrun. cbn [snd].
    apply map_text_run in Hrun as (Hrun & _); [|apply batch_size_gt_1]. split.
    + apply Forall_calls_of. intros c out. by eapply text_run_allowed.
    + intros da ia out out' Hda Hia.
      apply (text_run_allowed _ _ _ _ _ _ _ _ _ _ _ Hrun) in Hda, Hia. simpl in Hda, Hia.
      by subst.
  - destruct (map_embeddings _ _ _ _ _ _ _) as [r st'] eqn:Hrun. cbn [snd].
    apply map_embeddings_run in Hrun as (Hrun & _). split.
    + apply Forall_calls_of. intros c out. by eapply embeddings_run_allowed.
    + intros da ia out out' Hda Hia.
      apply (embeddings_run_allowed _ _ _ _ _ _ _ _ _ Hrun) in Hda, Hia. simpl in Hda, Hia.
      by subst.
Qed.

(** X17.  The two uploaders synthesise the same identifiers.  On the same
    records, given to [map_text] through the iterator and to
    [map_embeddings] as the list [data], with the default identifier field
    missing from the first record: the records of every [add_embeddings]
    call are the records of the batches a successful [map_text] has sent,
    in the same order and with the same identifiers. *)
Theorem uploaders_agree_on_identifiers it a emb l ea ds ls recs sample :
  points_to ds (it_items it) recs -> ls !! l = Some (it_items it) ->
  head recs = Some sample -> sample !! DEFAULT = None ->
  default DEFAULT (t_id_field a) = DEFAULT -> default DEFAULT (e_id_field ea) = DEFAULT ->
  nd_size emb <> 0 ->
  let text := st_trace (map_text DEFAULT b64int w it a (start ds ls)).2 in
  let embeddings := st_trace (map_embeddings DEFAULT b64int w emb (Some l) ea (start ds ls)).2 in
  text_upload_succeeded text ->
  forall emb' rs out, In (EvCall (add_embeddings emb' rs) out) embeddings ->
    rs = concat (sent_batches text).
Proof.
  intros Hrecs Hl Hhead Hmiss Htext Hemb Hsize text embeddings. subst text embeddings.
  destruct (map_embeddings_ids DEFAULT b64int w emb l ea ds ls (it_items it) recs sample
              Hsize Hemb Hl Hrecs Hhead Hmiss) as [Hsent _].
  destruct (map_text _ _ _ _ _ _) as [r st'] eqn:Hrun. cbn [snd] in *.
  apply map_text_run in Hrun as (Hrun & _); [|apply batch_size_gt_1].
  destruct (text_run_content _ _ _ _ _ _ _ _ _ recs Hrun Hrecs) as [_ Hall].
  intros Hok emb' rs out Hin. rewrite (Hall Hok), (Hsent _ _ _ Hin).
  destruct recs as [|s0 recs]; [done|]. injection Hhead as ->.
  unfold uploaded_records, needs_id, text_id_field. rewrite Htext.
  by rewrite !bool_decide_eq_true_2.
Qed.

(** X18.  The exception of the iterator reaches the caller.  When the
    iterator ends with the exception [e] and no call on the dataset object
    raises, [map_text] raises [e].  When the iterator yields no record at
    all, this happens before any call or log entry, with the heap as it
    was.  When the dataset was empty before the upload, it happens after
    the rollback: the run ends with the log entry of the deletion and a
    [delete] call that returned. *)
Theorem iterator_error_reaches_the_caller it a ds ls recs e :
  it_error it = Some e -> points_to ds (it_items it) recs ->
  let run := map_text DEFAULT b64int w it a (start ds ls) in
  (forall c e0, ~ In (EvCall c (Raise e0)) (st_trace run.2)) ->
  run.1 = Raise e /\
  (it_items it = [] -> run.2 = start ds ls) /\
  (number_of_datums_before_upload (st_trace run.2) = Some 0%Z ->
   exists tr0 label,
     st_trace run.2 = tr0 ++ [deleting label; EvCall delete (Ok RNone)]).
Proof.
  intros Herr Hrecs run. destruct run as [r st'] eqn:Hrun. subst run. cbn [fst snd].
  intros Hquiet.
  destruct it as [[|first items] err]; simpl in Herr, Hrecs; subst err.
  { injection Hrun as <- <-. by repeat split. }
  apply Forall2_cons_inv_l in Hrecs as (s0 & recs' & Hs0 & Hrecs & ->).
  apply map_text_unfolds in Hrun as [(e0 & Hfail & -> & _)|Hrun]; [| |apply batch_size_gt_1].
  { exfalso. destruct Hfail as [e0|p Hnone|p s e0 Hs|p s e0 Hs].
    - apply (Hquiet (AtlasDataset_init (text_dataset_args DEFAULT w a)) e0). by left.
    - congruence.
    - apply (Hquiet (text_validate DEFAULT a s) e0). rewrite in_app_iff. right. by left.
    - apply (Hquiet total_datums e0). rewrite in_app_iff. right. right. by left. }
  destruct Hrun as (sample & p & n & rup & st_up & up & tail & Hs & Hup & _ & _ & _ & Ht1 & Ht
                    & Hclose & _).
  destruct rup as [[]|e0].
  { by destruct (text_upload_interrupted _ _ _ _ _ _ (Iterator items (Some e)) _ _ _ e
                   batch_size_gt_1 eq_refl Hup) as ([? [=]] & _). }
  eapply text_upload_raises in Hup as [(b & tr0 & Hlast)|Hit]; [| |exact Hs|exact Hrecs].
  { exfalso. apply (Hquiet (add_text b) e0). rewrite Ht, app_assoc, <- Ht1, Hlast.
    rewrite !in_app_iff. left. right. by left. }
  injection Hit as ->. destruct Hclose as (e' & Hback & ->).
  split; [|split; [done|]].
  - destruct (rollback_shape_result _ _ _ _ _ Hback) as [->|Hdel]; [done|].
    exfalso. apply (Hquiet delete e'). rewrite Ht, !in_app_iff. auto.
  - intros Hn. rewrite Ht, (datums_app_Some _ _ n) in Hn
      by apply (text_prelude_of DEFAULT w a p _ sample n).
    injection Hn as ->. rewrite Ht, app_assoc.
    destruct Hback as [Hne| _ |e1 _]; [done|by eauto|].
    exfalso. apply (Hquiet delete e1). rewrite Ht, !in_app_iff. right. right. right. by left.
Qed.

End Further.

(** ** The further properties on concrete runs *)

(** X1, witness: the validation raises, and so does the run. *)
Lemma errors_reach_the_caller_witness :
  (text_example validation_fails).1 = Raise validation_error.
Proof.
  destruct (errors_reach_the_caller "id_" decimal validation_fails example_iterator
              example_text_args example_embeddings (Some 0) example_embeddings_args
              example_records example_lists) as [Htext _].
  destruct (Htext (validate_map_data_inputs [] "id_" {[ "text" := VStr "a" ]})
              validation_error) as [H|(H & _)].
  - vm_compute. pick_event.
  - exact H.
  - discriminate H.
Defined.

(** X2, witness: on a fresh dataset [add_text] raises; [delete] is called
    once and is the last call. *)
Lemma delete_only_after_failed_first_upload_witness :
  count_calls is_delete (st_trace (text_example (add_fails upload_error 0)).2) = 1 /\
  last (calls_of (st_trace (text_example (add_fails upload_error 0)).2)) = Some delete.
Proof.
  destruct (delete_only_after_failed_first_upload "id_" decimal (add_fails upload_error 0)
              example_iterator example_text_args example_embeddings (Some 0)
              example_embeddings_args example_records example_lists) as [[_ Htext] _].
  assert (count_calls is_delete (st_trace (text_example (add_fails upload_error 0)).2) = 1)
    as H by (vm_compute; reflexivity).
  split; [exact H|]. exact (proj1 (proj2 (proj2 (Htext H)))).
Defined.

(** X3, witness: both uploaders return on the three example records. *)
Lemma normal_return_means_uploaded_witness :
  text_upload_succeeded (st_trace (text_example (calm 0)).2) /\
  count_calls is_add_records (st_trace (embeddings_example (calm 0)).2) = 1.
Proof.
  destruct (normal_return_means_uploaded "id_" decimal (calm 0) example_iterator
              example_text_args example_embeddings (Some 0) example_embeddings_args
              example_records example_lists) as [Htext Hemb].
  assert ((text_example (calm 0)).1 = Ok (Some (Dataset "org/news" "news"))) as H1
    by (vm_compute; reflexivity).
  assert ((embeddings_example (calm 0)).1 = Ok (Dataset "org/news" "news")) as H2
    by (vm_compute; reflexivity).
  split.
  - exact (proj1 (Htext _ H1)).
  - exact (proj2 (proj2 (Hemb _ H2))).
Defined.

(** X4, witness: the validation gets the first record without identifier. *)
Lemma map_text_setup_calls_witness :
  exists rest,
    calls_of (st_trace (text_example (calm 0)).2)
    = AtlasDataset_init (text_dataset_args "id_" (calm 0) example_text_args)
        :: validate_map_data_inputs [] "id_" {[ "text" := VStr "a" ]}
        :: total_datums :: rest /\
    Forall (fun c => is_setup c = false) rest.
Proof.
  apply (map_text_setup_calls "id_" decimal (calm 0) example_iterator example_text_args
           example_records example_lists 0 {[ "text" := VStr "a" ]} 0%Z);
    [reflexivity|reflexivity|vm_compute; reflexivity].
Defined.

(** X5, witness: a run on the three example records. *)
Lemma map_embeddings_setup_calls_witness :
  (exists rest,
     calls_of (st_trace (embeddings_example (calm 0)).2)
     = AtlasDataset_init (embeddings_dataset_args "id_" (calm 0) example_embeddings_args)
         :: total_datums :: rest /\
     Forall (fun c => is_setup c = false) rest) /\
  count_calls is_add_records (st_trace (embeddings_example (calm 0)).2) <= 1.
Proof.
  apply (map_embeddings_setup_calls "id_" decimal (calm 0) example_embeddings (Some 0)
           example_embeddings_args example_records example_lists 0%Z).
  vm_compute. reflexivity.
Defined.

(** X6, witness: two records that hold the identifier field. *)
Lemma map_text_pass_through_witness :
  st_dicts (map_text "id_" decimal (calm 0) (Iterator [0; 1] None) example_text_args
              (start identified_records identified_lists)).2 = identified_records /\
  st_lists (map_text "id_" decimal (calm 0) (Iterator [0; 1] None) example_text_args
              (start identified_records identified_lists)).2 = identified_lists.
Proof.
  apply (map_text_pass_through "id_" decimal (calm 0) (Iterator [0; 1] None) example_text_args
           identified_records identified_lists 0 {[ "id_" := VStr "u" ]});
    [reflexivity|reflexivity|vm_compute; reflexivity].
Defined.

(** X7, witness: three records without identifier. *)
Lemma map_text_copies_records_witness :
  st_lists (text_example (calm 0)).2 = example_lists /\
  exists k, k <= 3 /\
    st_dicts (text_example (calm 0)).2
    = example_records ++ with_ids decimal "id_" 0 (take k example_records) /\
    (text_upload_succeeded (st_trace (text_example (calm 0)).2) -> k = 3).
Proof.
  apply (map_text_copies_records "id_" decimal (calm 0) example_iterator example_text_args
           example_records example_lists example_records {[ "text" := VStr "a" ]});
    [exact example_points_to|reflexivity|vm_compute; reflexivity].
Defined.

(** X8, witness: the iterator raises after three records; nothing is sent. *)
Lemma iterator_error_drops_partial_batch_witness :
  it_error broken_iterator = Some read_error /\
  ~ text_upload_succeeded
      (st_trace (map_text "id_" decimal (calm 0) broken_iterator example_text_args
                   (start example_records example_lists)).2).
Proof.
  split; [reflexivity|].
  exact (proj1 (proj2 (iterator_error_drops_partial_batch "id_" decimal (calm 0) broken_iterator
                         example_text_args example_records example_lists read_error eq_refl))).
Defined.

(** X9, witness: identifiers are synthesised, the warning is logged once. *)
Lemma id_warning_logged_once_witness :
  count_warnings id_warning (st_trace (text_example (calm 0)).2) = 1.
Proof.
  destruct (id_warning_logged_once "id_" decimal (calm 0) example_iterator example_text_args
              example_embeddings (Some 0) example_embeddings_args example_records example_lists)
    as [[_ Htext] _].
  assert (session_created (st_trace (text_example (calm 0)).2)) as Hs
    by (vm_compute; do 2 eexists; pick_event).
  unfold text_example.
  rewrite (Htext 0 {[ "text" := VStr "a" ]} eq_refl eq_refl Hs). vm_compute. reflexivity.
Defined.

(** X11, witness: an array with three rows and no [data]. *)
Lemma map_embeddings_generates_records_witness :
  st_lists (map_embeddings "id_" decimal (calm 0) example_embeddings None
              example_embeddings_args (start example_records example_lists)).2
  = example_lists ++ [[3; 4; 5]] /\
  count_warnings id_warning
    (st_trace (map_embeddings "id_" decimal (calm 0) example_embeddings None
                 example_embeddings_args (start example_records example_lists)).2) = 1.
Proof.
  assert (nd_size example_embeddings <> 0) as Hsize by (vm_compute; discriminate).
  destruct (map_embeddings_generates_records "id_" decimal (calm 0) example_embeddings
              example_embeddings_args example_records example_lists 3 [1] eq_refl Hsize)
    as (_ & Hl & _ & Hw).
  split; [exact Hl|exact Hw].
Defined.

(** X12, witness: an empty list, and a 0-dimensional array. *)
Lemma map_embeddings_local_errors_witness :
  (map_embeddings "id_" decimal (calm 0) example_embeddings (Some 0) example_embeddings_args
     (start [] [[]])).1 = Raise IndexError /\
  (map_embeddings "id_" decimal (calm 0) scalar_array None example_embeddings_args
     (start [] [])).2 = start [] [].
Proof.
  assert (nd_size example_embeddings <> 0) as Hsize by (vm_compute; discriminate).
  split.
  - exact (f_equal fst (proj1 (map_embeddings_local_errors "id_" decimal (calm 0)
                                 example_embeddings 0 example_embeddings_args [] [[]])
                          Hsize eq_refl eq_refl)).
  - exact (f_equal snd (proj2 (map_embeddings_local_errors "id_" decimal (calm 0)
                                 scalar_array 0 example_embeddings_args [] [])
                          eq_refl)).
Defined.

(** X13, witness: three records without identifier. *)
Lemma map_embeddings_replaces_slots_witness :
  st_dicts (embeddings_example (calm 0)).2
  = example_records ++ with_ids decimal "id_" 0 example_records /\
  st_lists (embeddings_example (calm 0)).2 = [[3; 4; 5]] /\
  points_to (st_dicts (embeddings_example (calm 0)).2) [3; 4; 5]
    (with_ids decimal "id_" 0 example_records) /\
  count_warnings id_warning (st_trace (embeddings_example (calm 0)).2) = 1.
Proof.
  assert (nd_size example_embeddings <> 0) as Hsize by (vm_compute; discriminate).
  destruct (map_embeddings_replaces_slots "id_" decimal (calm 0) example_embeddings 0
              example_embeddings_args example_records example_lists [0; 1; 2] example_records
              {[ "text" := VStr "a" ]} Hsize eq_refl eq_refl example_points_to eq_refl eq_refl)
    as (Hd & Hl & Hp & _ & _ & Hw).
  split; [exact Hd|]. split; [exact Hl|]. split; [exact Hp|exact Hw].
Defined.

(** X14, witness: two records that hold the identifier field. *)
Lemma map_embeddings_pass_through_witness :
  st_dicts (map_embeddings "id_" decimal (calm 0) two_rows (Some 0) example_embeddings_args
              (start identified_records identified_lists)).2 = identified_records /\
  st_lists (map_embeddings "id_" decimal (calm 0) two_rows (Some 0) example_embeddings_args
              (start identified_records identified_lists)).2 = identified_lists.
Proof.
  assert (nd_size two_rows <> 0) as Hsize by (vm_compute; discriminate).
  assert (default "id_" (e_id_field example_embeddings_args) <> "id_" \/
          exists d0 refs sample,
            identified_lists !! 0 = Some (d0 :: refs) /\ identified_records !! d0 = Some sample /\
            sample !! default "id_" (e_id_field example_embeddings_args) <> None) as Hkeep.
  { right. exists 0, [1], {[ "id_" := VStr "u" ]}. split; [reflexivity|]. split; [reflexivity|].
    vm_compute. discriminate. }
  destruct (map_embeddings_pass_through "id_" decimal (calm 0) two_rows 0
              example_embeddings_args identified_records identified_lists Hsize Hkeep)
    as (Hd & Hl & _).
  split; [exact Hd|exact Hl].
Defined.

(** X15, witness: three records go out in one batch. *)
Lemma number_of_batches_witness :
  length (sent_batches (st_trace (text_example (calm 0)).2)) = 1.
Proof.
  apply Nat2Z.inj.
  apply (number_of_batches "id_" decimal (calm 0) example_iterator example_text_args
           example_records example_lists example_records example_points_to).
  vm_compute. pick_event.
Defined.

(** X16, witness: the calls of the two example runs. *)
Lemma calls_carry_the_arguments_witness :
  Forall (text_call_allowed "id_" (calm 0) example_text_args)
    (calls_of (st_trace (text_example (calm 0)).2)) /\
  Forall (embeddings_call_allowed "id_" (calm 0) example_embeddings_args example_embeddings)
    (calls_of (st_trace (embeddings_example (calm 0)).2)).
Proof.
  destruct (calls_carry_the_arguments "id_" decimal (calm 0) example_iterator
              example_text_args example_embeddings (Some 0) example_embeddings_args
              example_records example_lists) as [[Htext _] [Hemb _]].
  split; [exact Htext|exact Hemb].
Defined.

(** X17, witness: the three example records, through both uploaders. *)
Lemma uploaders_agree_on_identifiers_witness :
  text_upload_succeeded (st_trace (text_example (calm 0)).2) /\
  forall emb' rs out,
    In (EvCall (add_embeddings emb' rs) out) (st_trace (embeddings_example (calm 0)).2) ->
    rs = concat (sent_batches (st_trace (text_example (calm 0)).2)).
Proof.
  assert (text_upload_succeeded (st_trace (text_example (calm 0)).2)) as Hok
    by (vm_compute; pick_event).
  assert (nd_size example_embeddings <> 0) as Hsize by (vm_compute; discriminate).
  split; [exact Hok|].
  exact (uploaders_agree_on_identifiers "id_" decimal (calm 0) example_iterator example_text_args
           example_embeddings 0 example_embeddings_args example_records example_lists
           example_records {[ "text" := VStr "a" ]}
           example_points_to eq_refl eq_refl eq_refl eq_refl eq_refl Hsize Hok).
Defined.

(** X18, witness: the iterator raises after three records, on a fresh
    dataset, and [delete] returns; and the iterator raises at once. *)
Lemma iterator_error_reaches_the_caller_witness :
  ((map_text "id_" decimal (calm 0) broken_iterator example_text_args
      (start example_records example_lists)).1 = Raise read_error /\
   exists tr0 label,
     st_trace (map_text "id_" decimal (calm 0) broken_iterator example_text_args
                 (start example_records example_lists)).2
     = tr0 ++ [deleting label; EvCall delete (Ok RNone)]) /\
  (map_text "id_" decimal (calm 0) (Iterator [] (Some read_error)) example_text_args
     (start example_records example_lists)).1 = Raise read_error /\
  (map_text "id_" decimal (calm 0) (Iterator [] (Some read_error)) example_text_args
     (start example_records example_lists)).2 = start example_records example_lists.
Proof.
  split.
  - destruct (iterator_error_reaches_the_caller "id_" decimal (calm 0) broken_iterator
                example_text_args example_records example_lists example_records read_error
                eq_refl example_points_to) as (Hr & _ & Hback).
    { intros c e0 H. vm_compute in H.
      repeat (destruct H as [H|H]; [discriminate H|]). exact H. }
    split; [exact Hr|]. apply Hback. vm_compute. reflexivity.
  - destruct (iterator_error_reaches_the_caller "id_" decimal (calm 0)
                (Iterator [] (Some read_error)) example_text_args example_records
                example_lists [] read_error eq_refl (List.Forall2_nil _)) as (Hr & Hempty & _).
    { intros c e0 H. exact H. }
    split; [exact Hr|exact (Hempty eq_refl)].
Defined.
